(** * BuildFlow: the VCS synchronisation and change-aggregation core

    A shallow embedding of [modules/vcs/svn_ops.py] and
    [modules/vcs/git_ops.py].

    - Python [str] values are sequences of Unicode code points ([list N]);
      the builtins the code relies on ([splitlines], [strip], [split],
      [join], [in], [count], [int], [str]) are written out in module [Py].
    - The operating system (subordinate processes, the file system, the
      environment) and the XML reader are an interface, class [OS]: the
      code is embedded once, for every implementation of that interface.
    - Effects are threaded through a state-and-exception monad [M]; the
      state carries the world of the [OS] and the record of what the code
      logged and spawned. *)

From Stdlib Require Import List ZArith NArith Lia Bool String Ascii.
From Stdlib Require Import Permutation Sorted.
From Stdlib Require Import DecimalPos.
Import ListNotations.

Set Implicit Arguments.
Local Open Scope N_scope.

(* ================================================================== *)
(** * Part I: definitions                                              *)
(* ================================================================== *)

(** ** Python strings and the builtins used by the code *)

Module Py.

Definition str := list N.

(** String literals of the source are written as UTF-8 literals and
    decoded to code points. *)
Fixpoint u8_go (s : string) (need : nat) (acc : N) : str :=
  match s with
  | EmptyString => []
  | String a s' =>
      let b := N_of_ascii a in
      match need with
      | O => if b <? 128 then b :: u8_go s' 0 0
             else if b <? 224 then u8_go s' 1 (b - 192)
             else if b <? 240 then u8_go s' 2 (b - 224)
             else u8_go s' 3 (b - 240)
      | S O => (acc * 64 + (b - 128)) :: u8_go s' 0 0
      | S n => u8_go s' n (acc * 64 + (b - 128))
      end
  end.

Definition u8 (s : string) : str := u8_go s 0 0.

Definition LF : N := 10.
Definition SLASH : N := 47.

Definition str_eqb (a b : str) : bool :=
  if list_eq_dec N.eq_dec a b then true else false.

(** [str.isspace] for one code point: the characters [strip()] and
    [split()] treat as white space. *)
Definition is_space (c : N) : bool :=
  ((9 <=? c) && (c <=? 13)) || ((28 <=? c) && (c <=? 32))
  || (c =? 133) || (c =? 160) || (c =? 5760)
  || ((8192 <=? c) && (c <=? 8202))
  || (c =? 8232) || (c =? 8233) || (c =? 8239) || (c =? 8287)
  || (c =? 12288).

(** Line boundaries of [str.splitlines]. *)
Definition is_linebreak (c : N) : bool :=
  ((10 <=? c) && (c <=? 13)) || ((28 <=? c) && (c <=? 30))
  || (c =? 133) || (c =? 8232) || (c =? 8233).

Fixpoint dropwhile (p : N -> bool) (s : str) : str :=
  match s with
  | [] => []
  | c :: s' => if p c then dropwhile p s' else s
  end.

Definition lstrip_by (p : N -> bool) (s : str) : str := dropwhile p s.
Definition rstrip_by (p : N -> bool) (s : str) : str :=
  rev (dropwhile p (rev s)).
Definition strip_by (p : N -> bool) (s : str) : str :=
  rstrip_by p (lstrip_by p s).

Definition mem_char (chars : str) (c : N) : bool :=
  existsb (N.eqb c) chars.

(** Equality of two lists of strings *)
Definition strs_eqb (a b : list str) : bool :=
  if list_eq_dec (list_eq_dec N.eq_dec) a b then true else false.

(** [s.strip()], [s.strip(chars)], [s.lstrip(chars)] *)
Definition strip (s : str) : str := strip_by is_space s.
Definition strip_chars (chars s : str) : str := strip_by (mem_char chars) s.
Definition lstrip_chars (chars s : str) : str :=
  lstrip_by (mem_char chars) s.

(** [s.startswith(p)] *)
Fixpoint startswith (p s : str) : bool :=
  match p, s with
  | [], _ => true
  | a :: p', b :: s' => (a =? b) && startswith p' s'
  | _ :: _, [] => false
  end.

(** [needle in hay] *)
Fixpoint contains (needle hay : str) : bool :=
  startswith needle hay
  || match hay with
     | [] => false
     | _ :: hay' => contains needle hay'
     end.

(** [s.count(c)] for a one-character pattern *)
Definition count_char (c : N) (s : str) : nat :=
  List.length (filter (N.eqb c) s).

(** [sep.join(parts)] *)
Fixpoint join (sep : str) (parts : list str) : str :=
  match parts with
  | [] => []
  | [p] => p
  | p :: rest => p ++ sep ++ join sep rest
  end.

(** [s.splitlines()]: [cur] holds the current line, reversed. *)
Fixpoint splitlines_go (cur : str) (s : str) : list str :=
  match s with
  | [] => match cur with [] => [] | _ => [rev cur] end
  | c :: s' =>
      if c =? 13 then
        match s' with
        | 10 :: s'' => rev cur :: splitlines_go [] s''
        | _ => rev cur :: splitlines_go [] s'
        end
      else if is_linebreak c then rev cur :: splitlines_go [] s'
      else splitlines_go (c :: cur) s'
  end.

Definition splitlines (s : str) : list str := splitlines_go [] s.

(** [s.split()] (runs of white space separate the fields) *)
Fixpoint split_ws_go (cur : str) (s : str) : list str :=
  match s with
  | [] => match cur with [] => [] | _ => [rev cur] end
  | c :: s' =>
      if is_space c then
        match cur with
        | [] => split_ws_go [] s'
        | _ => rev cur :: split_ws_go [] s'
        end
      else split_ws_go (c :: cur) s'
  end.

Definition split_ws (s : str) : list str := split_ws_go [] s.

(** [s.split(sep, maxsplit)] for a one-character separator [sep] *)
Fixpoint split_char (sep : N) (maxsplit : nat) (cur : str) (s : str)
    : list str :=
  match s with
  | [] => [rev cur]
  | c :: s' =>
      match maxsplit with
      | O => [rev cur ++ s]
      | S m =>
          if c =? sep then rev cur :: split_char sep m [] s'
          else split_char sep maxsplit (c :: cur) s'
      end
  end.

(** [s.split(sep, 1)[0]]: the text before the first occurrence of [sep]
    (all of [s] when [sep] does not occur). *)
Fixpoint split_first (sep : str) (s : str) : str :=
  match s with
  | [] => []
  | c :: s' => if startswith sep s then [] else c :: split_first sep s'
  end.

(** [str(n)] for an integer *)
Definition digit_char (d : N) : N := 48 + d.

Fixpoint str_of_uint (u : Decimal.uint) : str :=
  match u with
  | Decimal.Nil => []
  | Decimal.D0 u' => 48 :: str_of_uint u'
  | Decimal.D1 u' => 49 :: str_of_uint u'
  | Decimal.D2 u' => 50 :: str_of_uint u'
  | Decimal.D3 u' => 51 :: str_of_uint u'
  | Decimal.D4 u' => 52 :: str_of_uint u'
  | Decimal.D5 u' => 53 :: str_of_uint u'
  | Decimal.D6 u' => 54 :: str_of_uint u'
  | Decimal.D7 u' => 55 :: str_of_uint u'
  | Decimal.D8 u' => 56 :: str_of_uint u'
  | Decimal.D9 u' => 57 :: str_of_uint u'
  end.

Definition str_of_Z (z : Z) : str :=
  match Z.to_int z with
  | Decimal.Pos u => str_of_uint u
  | Decimal.Neg u => 45 :: str_of_uint u
  end.

(** The decimal digits of Unicode 14.0, the table of CPython 3.11
    ([unicodedata.decimal]): the code points of the zeros. Every zero
    starts a run of ten digits with the values 0 to 9, in this order. *)
Definition decimal_zeros : list N :=
  [48; 1632; 1776; 1984; 2406; 2534; 2662; 2790; 2918; 3046; 3174; 3302;
   3430; 3558; 3664; 3792; 3872; 4160; 4240; 6112; 6160; 6470; 6608; 6784;
   6800; 6992; 7088; 7232; 7248; 42528; 43216; 43264; 43472; 43504; 43600;
   44016; 65296; 66720; 68912; 69734; 69872; 69942; 70096; 70384; 70736;
   70864; 71248; 71360; 71472; 71904; 72016; 72784; 73040; 73120; 92768;
   92864; 93008; 120782; 120792; 120802; 120812; 120822; 123200; 123632;
   125264; 130032].

Definition digit_val (c : N) : option Z :=
  match find (fun z => (z <=? c) && (c <=? z + 9)) decimal_zeros with
  | Some z => Some (Z.of_N (c - z))
  | None => None
  end.

(** The white space [int] drops around a numeral: the white space of C
    (tab to carriage return, and the space) and the white space outside
    ASCII. The separators 28 to 31, which [strip()] drops, are not white
    space here. *)
Definition int_space (c : N) : bool :=
  ((9 <=? c) && (c <=? 13)) || (c =? 32) || ((128 <=? c) && is_space c).

(** The digits after the sign: single underscores may separate them. *)
Fixpoint parse_digits (acc : Z) (prev_digit : bool) (s : str) : option Z :=
  match s with
  | [] => if prev_digit then Some acc else None
  | c :: s' =>
      if c =? 95 then
        if prev_digit then parse_digits acc false s' else None
      else
        match digit_val c with
        | Some d => parse_digits (acc * 10 + d)%Z true s'
        | None => None
        end
  end.

(** [int(s)] without the limit on the number of digits (an interpreter
    older than 3.11, or one with the limit set to 0): the white space
    around the numeral is dropped, one sign is allowed, the digits are
    the decimal digits of Unicode. [None] is [ValueError]. *)
Definition int (s : str) : option Z :=
  match strip_by int_space s with
  | 43 :: r => parse_digits 0%Z false r
  | 45 :: r => option_map Z.opp (parse_digits 0%Z false r)
  | r => parse_digits 0%Z false r
  end.

(** The number of digits of a numeral: signs, underscores and white
    space are not counted, leading zeros are. *)
Definition count_digits (s : str) : nat :=
  List.length
    (filter (fun c => match digit_val c with Some _ => true | None => false end)
       s).

(** [int(s)] of an interpreter that limits the number of digits to
    [max_str_digits] (0: no limit; numerals of up to 640 digits are never
    refused): a longer numeral is a [ValueError] too. *)
Definition int_limited (max_str_digits : nat) (s : str) : option Z :=
  match int s with
  | Some z =>
      if (640 <? count_digits s)%nat && (0 <? max_str_digits)%nat
         && (max_str_digits <? count_digits s)%nat
      then None
      else Some z
  | None => None
  end.

(** [sys.int_info.default_max_str_digits] *)
Definition default_max_str_digits : nat := 4300.

(** Truthiness of a string: [bool(s)] *)
Definition truthy (s : str) : bool :=
  match s with [] => false | _ => true end.

(** Truthiness of an optional string ([None] and [""] are false). *)
Definition truthy_opt (o : option str) : bool :=
  match o with Some s => truthy s | None => false end.

(** [l[:n]] for a Python list and any integer [n] *)
Definition slice_to (A : Type) (l : list A) (n : Z) : list A :=
  if (0 <=? n)%Z then firstn (Z.to_nat n) l
  else firstn (Z.to_nat (Z.of_nat (List.length l) + n)) l.

(** [s[n:]] for a natural [n] *)
Definition slice_from (A : Type) (l : list A) (n : nat) : list A :=
  skipn n l.

(** [os.path.join(a, b)] (POSIX flavour) *)
Definition path_join (a b : str) : str :=
  match b with
  | 47 :: _ => b
  | _ =>
      match rev a with
      | [] => b
      | 47 :: _ => a ++ b
      | _ => a ++ [SLASH] ++ b
      end
  end.

(** [os.path.normpath(p)] (POSIX flavour): the path without its empty
    and [.] components and without the [..] components that a component
    before them cancels. Where no component is a symbolic link, a path
    and its normal form name the same directory. The source does not
    call it: it tells here which strings name one directory. *)
Definition normpath_step (rooted : bool) (acc : list str) (comp : str)
    : list str :=
  if str_eqb comp [] || str_eqb comp [46] then acc
  else if negb (str_eqb comp [46; 46])
          || (negb rooted && match acc with [] => true | _ => false end)
          || match acc with
             | top :: _ => str_eqb top [46; 46]
             | [] => false
             end
  then comp :: acc
  else match acc with
       | _ :: acc' => acc'
       | [] => acc
       end.

Definition normpath (path : str) : str :=
  match path with
  | [] => [46]
  | _ =>
      let initial_slashes : nat :=
        if startswith [SLASH] path
        then if startswith [SLASH; SLASH] path
                && negb (startswith [SLASH; SLASH; SLASH] path)
             then 2%nat else 1%nat
        else 0%nat in
      let comps := split_char SLASH (List.length path) [] path in
      let new_comps :=
        rev (fold_left (normpath_step (0 <? initial_slashes)%nat) comps []) in
      match repeat SLASH initial_slashes ++ join [SLASH] new_comps with
      | [] => [46]
      | p => p
      end
  end.

(** An insertion-ordered [dict] with string keys: assignment to an
    existing key replaces the value in place, a new key goes last. *)
Fixpoint dict_set (V : Type) (d : list (str * V)) (k : str) (v : V)
    : list (str * V) :=
  match d with
  | [] => [(k, v)]
  | (k', v') :: d' =>
      if str_eqb k' k then (k', v) :: d' else (k', v') :: dict_set d' k v
  end.

Fixpoint dict_get (V : Type) (d : list (str * V)) (k : str) : option V :=
  match d with
  | [] => None
  | (k', v') :: d' => if str_eqb k' k then Some v' else dict_get d' k
  end.

(** [sorted(l, key=key)] / [l.sort(key=key)]: the stable sort. Insertion
    from the right puts an element before the first one with a key that
    is not smaller, which keeps equal keys in their input order. *)
Fixpoint insert_by (A : Type) (key : A -> Z) (x : A) (l : list A)
    : list A :=
  match l with
  | [] => [x]
  | y :: l' =>
      if (key x <=? key y)%Z then x :: l else y :: insert_by key x l'
  end.

Fixpoint sorted (A : Type) (key : A -> Z) (l : list A) : list A :=
  match l with
  | [] => []
  | x :: l' => insert_by key x (sorted key l')
  end.

End Py.

Import Py.

(** ** The operating-system interface *)

(** One call of [subprocess.run]: the argument vector, the working
    directory and, for Git, the value of [GIT_SSH_COMMAND] put into the
    environment. *)
Record Call := mkCall {
  argv : list str;
  cwd : option str;
  ssh_command : option str
}.

(** What [subprocess.run(..., check=False)] hands back. *)
Record CompletedProcess := mkProc {
  returncode : Z;
  proc_stdout : str;
  proc_stderr : str
}.

(** The part of an [svn log --xml] document the code reads:
    [root.findall("logentry")], the [revision] attribute and the texts of
    [author], [date], [msg], and below [paths] every [path] element with
    its [action] attribute and its text. [None] is an absent attribute,
    element or text. *)
Record XmlPath := mkXmlPath {
  xp_action : option str;
  xp_text : option str
}.

Record XmlLogEntry := mkXmlLogEntry {
  xe_revision : option str;
  xe_author : option str;
  xe_date : option str;
  xe_msg : option str;
  xe_paths : option (list XmlPath)
}.

Class OS := {
  world : Type;
  (** [subprocess.run]: the process runs to its exit *)
  subprocess_run : Call -> world -> CompletedProcess * world;
  (** [os.path.isdir], [os.path.exists] *)
  path_isdir : str -> world -> bool;
  path_exists : str -> world -> bool;
  (** [shutil.rmtree(p, ignore_errors=True)] *)
  shutil_rmtree : str -> world -> world;
  (** [os.remove(p)] with [OSError] swallowed by the caller *)
  os_remove : str -> world -> world;
  (** [os.makedirs(p, exist_ok=True)] *)
  os_makedirs : str -> world -> world;
  (** [os.getenv], [os.path.expanduser], [os.name == "nt"] *)
  os_getenv : str -> world -> option str;
  expanduser : str -> str;
  os_name_nt : bool;
  (** [datetime.datetime.utcnow().isoformat()] *)
  utcnow_isoformat : world -> str;
  (** [ET.fromstring(text).findall("logentry")]; [None] is [ParseError] *)
  ET_logentries : str -> option (list XmlLogEntry)
}.

(** ** Exceptions, outcomes and the monad *)

Inductive exn :=
| VCSException (msg : str)
| GitError (msg : str)
| GitCommandError (msg : str)
| ParseError
| ValueError
| IndexError
| FileNotFoundError.

(** [OutOfFuel] is a recursion that did not come back within the depth
    the caller allowed. *)
Inductive res (A : Type) :=
| Ok (a : A)
| Raise (e : exn)
| OutOfFuel.

Arguments Ok {A} a.
Arguments Raise {A} e.
Arguments OutOfFuel {A}.

(** What the code did, in order: every subordinate process it spawned and
    every command it announced with [logger.info("执行 SVN 命令: ...")] at
    the entry of [SvnOps._svn]. *)
Inductive event :=
| EvRun (c : Call)
| EvSvn (repo : str) (args : list str).

Section Monad.
Context {os : OS}.

Record state := mkState {
  st_world : world;
  st_trace : list event
}.

Definition M (A : Type) := state -> res A * state.

Definition ret {A} (a : A) : M A := fun st => (Ok a, st).
Definition raise {A} (e : exn) : M A := fun st => (Raise e, st).
Definition out_of_fuel {A} : M A := fun st => (OutOfFuel, st).

Definition bind {A B} (m : M A) (k : A -> M B) : M B :=
  fun st =>
    match m st with
    | (Ok a, st') => k a st'
    | (Raise e, st') => (Raise e, st')
    | (OutOfFuel, st') => (OutOfFuel, st')
    end.

(** Reading and changing the world *)
Definition ask {A} (f : world -> A) : M A :=
  fun st => (Ok (f (st_world st)), st).
Definition change (f : world -> world) : M unit :=
  fun st => (Ok tt, mkState (f (st_world st)) (st_trace st)).
Definition emit (e : event) : M unit :=
  fun st => (Ok tt, mkState (st_world st) (st_trace st ++ [e])).

(** [for x in l: body(x)] *)
Fixpoint for_each {A} (l : list A) (body : A -> M unit) : M unit :=
  match l with
  | [] => ret tt
  | x :: l' => bind (body x) (fun _ => for_each l' body)
  end.

(** [for x in l: acc = body(x, acc)] *)
Fixpoint fold_each {A S} (l : list A) (body : A -> S -> M S) (acc : S)
    : M S :=
  match l with
  | [] => ret acc
  | x :: l' => bind (body x acc) (fun acc' => fold_each l' body acc')
  end.

(** [[body(x) for x in l]] *)
Fixpoint map_each {A B} (l : list A) (body : A -> M B) : M (list B) :=
  match l with
  | [] => ret []
  | x :: l' =>
      bind (body x) (fun y =>
      bind (map_each l' body) (fun ys => ret (y :: ys)))
  end.

End Monad.

Notation "x <- m ;; k" := (bind m (fun x => k))
  (at level 61, m at next level, right associativity).
Notation "' pat <- m ;; k" := (bind m (fun x => match x with pat => k end))
  (at level 61, pat pattern, m at next level, right associativity).
Notation "m ;; k" := (bind m (fun _ => k))
  (at level 61, right associativity).

(** ** [svn_ops.py]: data *)

Record FileChange := mkFileChange {
  fc_path : str;
  fc_action : str;
  fc_diff : option str
}.

Record RevisionChange := mkRevisionChange {
  revision : str;
  author : str;
  date : str;
  message : str;
  files : list FileChange
}.

Record UpdateResult := mkUpdateResult {
  from_rev : str;
  to_rev : str;
  revision_changes : list RevisionChange
}.

(** One entry of a project's ["paths"] list and one project of a sparse
    profile document; an [option] field is a key the document may leave
    out ([dict.get]). *)
Record PathRule := mkPathRule {
  pr_path : str;
  pr_depth : option str
}.

Record Project := mkProject {
  repo_url : option str;
  root_path : option str;
  root_depth : option str;
  paths : list PathRule
}.

(** [sparse_profile.get("projects")]: [None] when the key is absent or
    does not hold a dictionary. *)
Record SparseProfile := mkSparseProfile {
  projects : option (list (str * Project))
}.

(** The [SvnOps] object *)
Record SvnOps := mkSvnOps {
  repo_path : str;
  before_update_rev : option str;
  after_update_rev : option str
}.

(** [SvnOps.__init__] *)
Definition SvnOps_init (repo_path : str) : SvnOps :=
  mkSvnOps repo_path None None.

(** [collect_change_summary]'s result: ["main"] and the ["ext"] dictionary
    keyed by the external's URL. *)
Record Summary := mkSummary {
  sum_main : list RevisionChange;
  sum_ext : list (str * list RevisionChange)
}.

Definition NL : str := [LF].

(** The fixed working-copy-lock signatures ([locked] in [_svn]) *)
Definition locked (err : str) : bool :=
  contains (u8 "is locked") err
  || contains (u8 "E155004") err
  || contains (u8 "run 'svn cleanup'") err.

(** The process [_svn] spawns for [args], and the one of a plain
    [cleanup] *)
Definition svn_call (self : SvnOps) (args : list str) : Call :=
  mkCall (u8 "svn" :: args) (Some (repo_path self)) None.

Definition cleanup_call (self : SvnOps) : Call :=
  mkCall [u8 "svn"; u8 "cleanup"] (Some (repo_path self)) None.

(** What one [_svn] adds to the trace, given the answer to its first
    run *)
Definition svn_events (self : SvnOps) (args : list str)
    (first : CompletedProcess) : list event :=
  EvSvn (repo_path self) args ::
  (if negb (returncode first =? 0)%Z && locked (proc_stderr first)
   then [EvRun (svn_call self args); EvRun (cleanup_call self);
         EvRun (svn_call self args)]
   else [EvRun (svn_call self args)]).

(** The commands announced at the entries of [_svn], in order: the
    repository and the arguments of each. *)
Fixpoint announced (tr : list event) : list (str * list str) :=
  match tr with
  | [] => []
  | EvSvn r a :: tr' => (r, a) :: announced tr'
  | EvRun _ :: tr' => announced tr'
  end.

(** [x] occurs somewhere before [y] in [l]. *)
Definition precedes (A : Type) (x y : A) (l : list A) : Prop :=
  exists l1 l2 l3, l = l1 ++ x :: l2 ++ y :: l3.

(** Ascending order of the keys *)
Definition key_le (A : Type) (key : A -> Z) (x y : A) : Prop :=
  (key x <= key y)%Z.

(** ** [svn_ops.py]: the command executor and the lock recovery *)

Section SvnOps.
Context {os : OS}.

Definition run_cmd_message (args : list str) (code : Z) (out err : str)
    : str :=
  u8 "命令执行失败: " ++ join (u8 " ") args ++ NL
  ++ u8 "退出码: " ++ str_of_Z code ++ NL
  ++ u8 "OUT:" ++ NL ++ out ++ NL ++ u8 "ERR:" ++ NL ++ err.

Definition run_cmd (args : list str) (cwd : option str) (check : bool)
    : M (Z * str * str) :=
  let call := mkCall args cwd None in
  emit (EvRun call) ;;
  fun st =>
    let (proc, w') := subprocess_run call (st_world st) in
    let st' := mkState w' (st_trace st) in
    let out := proc_stdout proc in
    let err := proc_stderr proc in
    if check && negb (returncode proc =? 0)%Z
    then (Raise (VCSException
                   (run_cmd_message args (returncode proc) out err)), st')
    else (Ok (returncode proc, out, err), st').

(** [SvnOps.cleanup] *)
Definition cleanup (self : SvnOps) (aggressive : bool) : M unit :=
  run_cmd [u8 "svn"; u8 "cleanup"] (Some (repo_path self)) false ;;
  if aggressive
  then run_cmd [u8 "svn"; u8 "cleanup"; u8 "--remove-unversioned";
                u8 "--remove-ignored"] (Some (repo_path self)) false ;;
       ret tt
  else ret tt.

Definition svn_message (cmd : list str) (code : Z) (out err : str)
    : str :=
  u8 "svn 执行失败: " ++ join (u8 " ") cmd ++ NL
  ++ u8 "退出码: " ++ str_of_Z code ++ NL
  ++ u8 "OUT:" ++ NL ++ out ++ NL ++ u8 "ERR:" ++ NL ++ err.

(** [SvnOps._svn] *)
Definition _svn (self : SvnOps) (args : list str) (check : bool)
    : M (Z * str * str) :=
  let cmd := u8 "svn" :: args in
  emit (EvSvn (repo_path self) args) ;;
  '(code, out, err) <- run_cmd cmd (Some (repo_path self)) false ;;
  '(code, out, err) <-
    (if negb (code =? 0)%Z && locked err
     then cleanup self false ;;
          run_cmd cmd (Some (repo_path self)) false
     else ret (code, out, err)) ;;
  if check && negb (code =? 0)%Z
  then raise (VCSException (svn_message cmd code out err))
  else ret (code, out, err).

(** [SvnOps.is_working_copy] *)
Definition is_working_copy (self : SvnOps) : M bool :=
  ask (path_isdir (path_join (repo_path self) (u8 ".svn"))).

(** ** The workspace cleaner *)

(** The body of the loop over the status lines in
    [revert_local_changes] *)
Definition remove_unversioned (self : SvnOps) (line : str) : M unit :=
  if negb (truthy (strip line)) then ret tt
  else
    match line with
    | [] => raise IndexError
    | status :: _ =>
        let path :=
          if (8 <? List.length line)%nat then strip (slice_from line 8)
          else [] in
        if negb (status =? 63) then ret tt
        else if negb (truthy path) then ret tt
        else
          let full := path_join (repo_path self) path in
          d <- ask (path_isdir full) ;;
          if d then change (shutil_rmtree full)
          else
            e <- ask (path_exists full) ;;
            if e then change (os_remove full) else ret tt
    end.

(** [SvnOps.revert_local_changes] *)
Definition revert_local_changes (self : SvnOps) : M unit :=
  _svn self [u8 "revert"; u8 "-R"; u8 "."] false ;;
  '(_, out, _) <- _svn self [u8 "status"; u8 "--no-ignore"] false ;;
  for_each (splitlines out) (remove_unversioned self).

(** ** The external resolver *)

Definition propget_externals : list str :=
  [u8 "propget"; u8 "svn:externals"; u8 "-R"].

Definition externals_of_output (repo : str) (out : str) : list str :=
  flat_map
    (fun line =>
       if contains (u8 " - ") line
       then [path_join repo (strip (split_first (u8 " - ") line))]
       else [])
    (splitlines out).

(** [SvnOps.get_externals] *)
Definition get_externals (self : SvnOps) : M (list str) :=
  '(_, out, _) <- _svn self propget_externals false ;;
  ret (externals_of_output (repo_path self) out).

(** The two variables [get_all_externals] shares with its inner
    function [scan]: the set [visited] (only membership is ever asked)
    and the list [result]. *)
Record ScanVars := mkScanVars {
  visited : list str;
  result : list str
}.

Definition in_set (p : str) (s : list str) : bool :=
  existsb (str_eqb p) s.

(** [for e in ex: if os.path.isdir(e): result.append(e); scan(e)] *)
Fixpoint scan_loop (scan : str -> ScanVars -> M ScanVars)
    (ex : list str) (v : ScanVars) : M ScanVars :=
  match ex with
  | [] => ret v
  | e :: ex' =>
      d <- ask (path_isdir e) ;;
      v' <- (if d
             then scan e (mkScanVars (visited v) (result v ++ [e]))
             else ret v) ;;
      scan_loop scan ex' v'
  end.

(** The inner function [scan]; [fuel] bounds the depth of the nested
    calls. *)
Fixpoint scan (fuel : nat) (path : str) (v : ScanVars) : M ScanVars :=
  match fuel with
  | O => out_of_fuel
  | S fuel' =>
      if in_set path (visited v) then ret v
      else
        let v1 := mkScanVars (path :: visited v) (result v) in
        ex <- get_externals (SvnOps_init path) ;;
        scan_loop (scan fuel') ex v1
  end.

(** [SvnOps.get_all_externals] *)
Definition get_all_externals (fuel : nat) (self : SvnOps) : M (list str) :=
  v <- scan fuel (repo_path self) (mkScanVars [] []) ;;
  ret (result v).

(** [SvnOps.clean_externals], given the method it calls on every
    external *)
Definition clean_externals_with (ensure_clean : SvnOps -> M unit)
    (fuel : nat) (self : SvnOps) : M unit :=
  es <- get_all_externals fuel self ;;
  for_each es (fun e =>
    d <- ask (path_isdir e) ;;
    if d then ensure_clean (SvnOps_init e) else ret tt).

(** [SvnOps.ensure_clean_workspace]; [fuel] bounds the depth of the
    nested calls. *)
Fixpoint ensure_clean_workspace (fuel : nat) (self : SvnOps) : M unit :=
  match fuel with
  | O => out_of_fuel
  | S fuel' =>
      revert_local_changes self ;;
      cleanup self false ;;
      clean_externals_with (ensure_clean_workspace fuel') fuel' self
  end.

Definition clean_externals (fuel : nat) (self : SvnOps) : M unit :=
  clean_externals_with (ensure_clean_workspace fuel) fuel self.

End SvnOps.

Definition default_to (d : str) (o : option str) : str :=
  match o with Some s => s | None => d end.

(** The inner function [_depth] of [ensure_sparse_workspace] *)
Definition _depth (p : str) : Z :=
  Z.of_nat (count_char SLASH (strip_chars [SLASH] p)).

(** [sorted(paths, key=lambda x: _depth(x["path"]))] *)
Definition sorted_paths (paths : list PathRule) : list PathRule :=
  sorted (fun x => _depth (pr_path x)) paths.

(** The argument vector of the depth-expanding update of one rule *)
Definition expand_args (item : PathRule) : list str :=
  [u8 "update"; strip_chars [SLASH] (pr_path item); u8 "--depth";
   default_to (u8 "infinity") (pr_depth item)].

(** [p] names a proper ancestor directory of [q]: the path [q], without
    the slashes around it, goes on below the path [p] with a slash and at
    least one more component. *)
Definition parent_path (p q : str) : Prop :=
  exists rest,
    strip_chars [SLASH] q = strip_chars [SLASH] p ++ [SLASH] ++ rest.

(** The announcement of the expansion of one rule in the working copy
    [ops] *)
Definition expand_in (ops : SvnOps) (item : PathRule) : str * list str :=
  (repo_path ops, expand_args item).

(** The inner function [_key] of [collect_update_result]: [int] as an
    interpreter with the default limit on the number of digits reads
    the identifier. *)
Definition _key (c : RevisionChange) : Z :=
  match int_limited default_max_str_digits (revision c) with
  | Some z => z
  | None => 0%Z
  end.

(** The records built from the entries of a log document
    ([get_external_revision_list_by_time], the loop over
    [root.findall("logentry")]) *)
Definition file_changes_of (ps : list XmlPath) : list FileChange :=
  flat_map
    (fun p =>
       let act := default_to (u8 "?") (xp_action p) in
       let text := strip (default_to [] (xp_text p)) in
       if truthy text then [mkFileChange text act None] else [])
    ps.

Definition change_of_entry (entry : XmlLogEntry) : RevisionChange :=
  mkRevisionChange
    (strip (default_to [] (xe_revision entry)))
    (strip (default_to [] (xe_author entry)))
    (strip (default_to [] (xe_date entry)))
    (strip (default_to [] (xe_msg entry)))
    (match xe_paths entry with
     | Some ps => file_changes_of ps
     | None => []
     end).

(** The marker line [get_diff] puts after a cut diff *)
Definition truncation_marker (omitted : Z) : str :=
  u8 "...(剩余 " ++ str_of_Z omitted ++ u8 " 行已截断)".

(** The text [get_diff] returns for the output [out] of [svn diff] *)
Definition cap_diff (out : str) (max_lines : Z) : str :=
  let lines := splitlines out in
  if (max_lines <? Z.of_nat (List.length lines))%Z
  then join NL (slice_to lines max_lines
                ++ [truncation_marker
                      (Z.of_nat (List.length lines) - max_lines)])
  else out.

(** The arguments [get_diff] gives to [svn] *)
Definition diff_args (revision : str) (file_path : option str) : list str :=
  [u8 "diff"; u8 "-c"; revision]
  ++ (if truthy_opt file_path then [default_to [] file_path] else []).

(** An ASCII decimal digit *)
Definition is_digit (c : N) : bool := (48 <=? c) && (c <=? 57).

(** The value of a numeral read from the left, starting from [acc] *)
Fixpoint uint_val (acc : Z) (u : Decimal.uint) : Z :=
  match u with
  | Decimal.Nil => acc
  | Decimal.D0 u' => uint_val (acc * 10 + 0) u'
  | Decimal.D1 u' => uint_val (acc * 10 + 1) u'
  | Decimal.D2 u' => uint_val (acc * 10 + 2) u'
  | Decimal.D3 u' => uint_val (acc * 10 + 3) u'
  | Decimal.D4 u' => uint_val (acc * 10 + 4) u'
  | Decimal.D5 u' => uint_val (acc * 10 + 5) u'
  | Decimal.D6 u' => uint_val (acc * 10 + 6) u'
  | Decimal.D7 u' => uint_val (acc * 10 + 7) u'
  | Decimal.D8 u' => uint_val (acc * 10 + 8) u'
  | Decimal.D9 u' => uint_val (acc * 10 + 9) u'
  end.

(** A string without a line boundary *)
Definition one_line (s : str) : Prop :=
  Forall (fun c => is_linebreak c = false) s.

(** [target is None or target.upper() == "HEAD"]: the four letters are
    the only characters whose upper case is one of H, E, A, D. *)
Definition ascii_upper (c : N) : N :=
  if (97 <=? c) && (c <=? 122) then c - 32 else c.

Definition is_head (target : option str) : bool :=
  match target with
  | None => true
  | Some t => str_eqb (map ascii_upper t) (u8 "HEAD")
  end.

Section SvnOpsSync.
Context {os : OS}.

(** ** The sparse profile applier *)

(** The body of the loop over [projects.items()] *)
Definition sparse_project (self : SvnOps) (name : str) (proj : Project)
    : M unit :=
  let depth0 := default_to (u8 "infinity") (root_depth proj) in
  match repo_url proj, root_path proj with
  | Some url, Some root =>
      if negb (truthy url) || negb (truthy root)
      then raise (VCSException
                    (u8 "project " ++ name ++ u8 " 缺少 repo_url 或 root_path"))
      else
        let project_path := path_join (repo_path self) root in
        let ops := SvnOps_init project_path in
        wc <- is_working_copy ops ;;
        (if negb wc
         then change (os_makedirs project_path) ;;
              _svn ops [u8 "checkout"; url; project_path; u8 "--depth";
                        depth0] true ;;
              ret tt
         else ret tt) ;;
        match paths proj with
        | [] => ret tt
        | _ =>
            for_each (sorted_paths (paths proj)) (fun item =>
              _svn ops (expand_args item) true ;; ret tt)
        end
  | _, _ =>
      raise (VCSException
               (u8 "project " ++ name ++ u8 " 缺少 repo_url 或 root_path"))
  end.

(** [SvnOps.ensure_sparse_workspace] *)
Definition ensure_sparse_workspace (self : SvnOps)
    (sparse_profile : SparseProfile) : M unit :=
  match projects sparse_profile with
  | None => raise (VCSException (u8 "profile 缺少 projects 或格式错误"))
  | Some ps =>
      for_each ps (fun np => sparse_project self (fst np) (snd np))
  end.

(** ** Information queries *)

Definition get_current_url (self : SvnOps) : M str :=
  '(_, out, _) <- _svn self [u8 "info"; u8 "--show-item"; u8 "url"] true ;;
  ret (strip out).

Definition get_current_revision (self : SvnOps) : M str :=
  '(_, out, _) <-
    _svn self [u8 "info"; u8 "--show-item"; u8 "revision"] true ;;
  ret (strip out).

Definition get_rev_time (self : SvnOps) (revision : str) : M str :=
  '(_, out, _) <- _svn self [u8 "log"; u8 "--xml"; u8 "-r"; revision] true ;;
  match ET_logentries out with
  | None => raise ParseError
  | Some [] =>
      raise (VCSException
               (u8 "无法获取 revision " ++ revision ++ u8 " 的日期"))
  | Some (entry :: _) => ret (strip (default_to [] (xe_date entry)))
  end.

(** [SvnOps.update_to]. The method assigns to [self] as it goes, so it
    hands back the object next to the outcome: an exception leaves the
    assignments made before it. *)
Definition update_to (fuel : nat) (self : SvnOps) (target : option str)
    : state -> res unit * SvnOps * state :=
  fun st =>
    match get_current_revision self st with
    | (Ok r, st1) =>
        let self1 :=
          mkSvnOps (repo_path self) (Some r) (after_update_rev self) in
        let rest :=
          ensure_clean_workspace fuel self1 ;;
          (if is_head target
           then _svn self1 [u8 "update"] true
           else _svn self1 [u8 "update"; u8 "-r"; default_to [] target]
                  true) ;;
          get_current_revision self1 in
        match rest st1 with
        | (Ok r2, st2) =>
            (Ok tt, mkSvnOps (repo_path self) (Some r) (Some r2), st2)
        | (Raise e, st2) => (Raise e, self1, st2)
        | (OutOfFuel, st2) => (OutOfFuel, self1, st2)
        end
    | (Raise e, st1) => (Raise e, self, st1)
    | (OutOfFuel, st1) => (OutOfFuel, self, st1)
    end.

(** ** The history collector *)

(** [SvnOps.get_diff] *)
Definition get_diff (self : SvnOps) (revision : str)
    (file_path : option str) (max_lines : Z) : M str :=
  let args := diff_args revision file_path in
  '(_, out, _) <- _svn self args true ;;
  ret (cap_diff out max_lines).

(** [SvnOps.get_external_revision_list_by_time] *)
Definition get_external_revision_list_by_time (self : SvnOps)
    (t_start : option str) (t_end : str) : M (list RevisionChange) :=
  let rev_range :=
    if truthy_opt t_start
    then u8 "{" ++ default_to [] t_start ++ u8 "}:{" ++ t_end ++ u8 "}"
    else u8 "{" ++ t_end ++ u8 "}" in
  '(_, out, _) <-
    _svn self [u8 "log"; u8 "-v"; u8 "--xml"; u8 "-r"; rev_range] false ;;
  match ET_logentries (if truthy out then out else u8 "<log/>") with
  | None => raise ParseError
  | Some entries => ret (map change_of_entry entries)
  end.

(** [for rev in revs: for f in rev.files: f.diff = ops.get_diff(...)] *)
Definition attach_diffs (ops : SvnOps) (max_diff_lines : Z)
    (revs : list RevisionChange) : M (list RevisionChange) :=
  map_each revs (fun rev =>
    fs <- map_each (files rev) (fun f =>
            d <- get_diff ops (revision rev) (Some (fc_path f))
                   max_diff_lines ;;
            ret (mkFileChange (fc_path f) (fc_action f) (Some d))) ;;
    ret (mkRevisionChange (revision rev) (author rev) (date rev)
           (message rev) fs)).

(** The body of the loop over the externals in
    [collect_change_summary] *)
Definition collect_external (start_time end_time : str)
    (include_diff : bool) (max_diff_lines : Z) (e : str)
    (ext : list (str * list RevisionChange))
    : M (list (str * list RevisionChange)) :=
  let ext_ops := SvnOps_init e in
  ext_url <- get_current_url ext_ops ;;
  ex_list <- get_external_revision_list_by_time ext_ops
               (Some start_time) end_time ;;
  ex_list <- (if include_diff
              then attach_diffs ext_ops max_diff_lines ex_list
              else ret ex_list) ;;
  ret (dict_set ext ext_url ex_list).

(** [SvnOps.collect_change_summary] *)
Definition collect_change_summary (fuel : nat) (self : SvnOps)
    (start_time end_time : option str) (include_diff : bool)
    (max_diff_lines : Z) (include_externals : bool) : M Summary :=
  start_time <-
    match start_time with
    | Some s => ret s
    | None =>
        match before_update_rev self with
        | Some b =>
            if truthy b then get_rev_time self b
            else raise (VCSException (u8 "before_update_rev 未设置"))
        | None => raise (VCSException (u8 "before_update_rev 未设置"))
        end
    end ;;
  end_time <-
    match end_time with
    | Some e => ret e
    | None => now <- ask utcnow_isoformat ;; ret (now ++ u8 "Z")
    end ;;
  main <- get_external_revision_list_by_time self (Some start_time)
            end_time ;;
  main <- (if include_diff then attach_diffs self max_diff_lines main
           else ret main) ;;
  ext <- (if include_externals
          then es <- get_all_externals fuel self ;;
               fold_each es
                 (collect_external start_time end_time include_diff
                    max_diff_lines) []
          else ret []) ;;
  ret (mkSummary main ext).

(** ** The change aggregator *)

Definition not_updated_message : str :=
  u8 "update_to() 未执行，无法生成更新结果".

(** The list [all_changes] before it is sorted *)
Definition all_changes (summary : Summary) : list RevisionChange :=
  sum_main summary ++ List.concat (map snd (sum_ext summary)).

(** [SvnOps.collect_update_result] *)
Definition collect_update_result (fuel : nat) (self : SvnOps)
    (include_diff : bool) (max_diff_lines : Z) (include_externals : bool)
    : M UpdateResult :=
  match before_update_rev self, after_update_rev self with
  | Some b, Some a =>
      if negb (truthy b) || negb (truthy a)
      then raise (VCSException not_updated_message)
      else
        t_start <- get_rev_time self b ;;
        t_end <- get_rev_time self a ;;
        summary <- collect_change_summary fuel self (Some t_start)
                     (Some t_end) include_diff max_diff_lines
                     include_externals ;;
        ret (mkUpdateResult b a (sorted _key (all_changes summary)))
  | _, _ => raise (VCSException not_updated_message)
  end.

End SvnOpsSync.

(** ** [git_ops.py]: data *)

(** One commit of [get_commits_between] *)
Record CommitInfo := mkCommitInfo {
  ci_commit : str;
  ci_author : str;
  ci_email : str;
  ci_date : str;
  ci_message : str
}.

(** [info["repo"]] and one element of [info["submodules"]] *)
Record RepoInfo := mkRepoInfo {
  ri_path : str;
  ri_from : option str;
  ri_to : str;
  ri_commits : list CommitInfo
}.

Record SubmoduleInfo := mkSubmoduleInfo {
  si_path : str;
  si_from : str;
  si_to : str;
  si_commits : list CommitInfo
}.

Record GitSyncResult := mkGitSyncResult {
  repo : RepoInfo;
  submodules : list SubmoduleInfo
}.

(** The dictionary [get_submodule_states] builds from the output of
    [git submodule status --recursive] *)
Definition submodule_states_of_output (out : str) : list (str * str) :=
  fold_left
    (fun result line =>
       match split_ws (strip line) with
       | p0 :: p1 :: _ => dict_set result p1 (lstrip_chars (u8 "+-") p0)
       | _ => result
       end)
    (splitlines out) [].

(** The defaults of the signature of [update_repo]:
    [recursive=True, lfs=True, reset: bool = True, clean: bool = True] *)
Definition default_recursive : bool := true.
Definition default_lfs : bool := true.
Definition default_reset : bool := true.
Definition default_clean : bool := true.

(** An argument the caller may leave out *)
Definition arg_or (d : bool) (a : option bool) : bool :=
  match a with Some b => b | None => d end.

Definition foreach_reset : list str :=
  [u8 "submodule"; u8 "foreach"; u8 "--recursive"; u8 "git reset --hard HEAD"].
Definition foreach_clean : list str :=
  [u8 "submodule"; u8 "foreach"; u8 "--recursive"; u8 "git clean -fd"].

Section GitOps.
Context {os : OS}.

(** [get_default_ssh_key] *)
Definition get_default_ssh_key : M str :=
  env_key <- ask (os_getenv (u8 "PXTA_SSH_KEY")) ;;
  found <- match env_key with
           | Some k => if truthy k then ask (path_exists k) else ret false
           | None => ret false
           end ;;
  if found then ret (default_to [] env_key)
  else
    e1 <- ask (path_exists (expanduser (u8 "~/.ssh/id_ed25519"))) ;;
    if e1 then ret (expanduser (u8 "~/.ssh/id_ed25519"))
    else
      e2 <- ask (path_exists (expanduser (u8 "~/.ssh/id_rsa"))) ;;
      if e2 then ret (expanduser (u8 "~/.ssh/id_rsa"))
      else raise (GitError (u8 "未找到可用的 SSH key")).

(** [_build_ssh_env]: the value it gives [GIT_SSH_COMMAND] *)
Definition _build_ssh_env (ssh_key : option str) : M str :=
  key <- (if truthy_opt ssh_key then ret (default_to [] ssh_key)
          else get_default_ssh_key) ;;
  e <- ask (path_exists key) ;;
  if negb e then raise (GitError (u8 "SSH key 不存在: " ++ key))
  else
    let null_dev := if os_name_nt then u8 "NUL" else u8 "/dev/null" in
    ret (u8 "ssh -i '" ++ key ++ u8 "' " ++ u8 "-o StrictHostKeyChecking=no "
         ++ u8 "-o UserKnownHostsFile=" ++ null_dev).

(** [run_git] *)
Definition run_git (args : list str) (cwd : option str)
    (ssh_key : option str) : M str :=
  let cmd := u8 "git" :: args in
  env <- _build_ssh_env ssh_key ;;
  let call := mkCall cmd cwd (Some env) in
  emit (EvRun call) ;;
  fun st =>
    let (proc, w') := subprocess_run call (st_world st) in
    let st' := mkState w' (st_trace st) in
    if negb (returncode proc =? 0)%Z
    then (Raise (GitCommandError (strip (proc_stderr proc))), st')
    else (Ok (strip (proc_stdout proc)), st').

Definition _ensure_repo (path : str) : M unit :=
  e <- ask (path_exists (path_join path (u8 ".git"))) ;;
  if negb e then raise (GitError (u8 "不是 Git 仓库: " ++ path))
  else ret tt.

Definition lfs_install (path : str) (ssh_key : option str) : M unit :=
  _ensure_repo path ;;
  run_git [u8 "lfs"; u8 "install"] (Some path) ssh_key ;; ret tt.

Definition lfs_pull (path : str) (ssh_key : option str) : M unit :=
  _ensure_repo path ;;
  run_git [u8 "lfs"; u8 "fetch"; u8 "--all"] (Some path) ssh_key ;;
  run_git [u8 "lfs"; u8 "pull"] (Some path) ssh_key ;; ret tt.

Definition lfs_pull_all_submodules (path : str) (ssh_key : option str)
    : M unit :=
  _ensure_repo path ;;
  run_git [u8 "submodule"; u8 "foreach"; u8 "--recursive"; u8 "git lfs pull"]
    (Some path) ssh_key ;; ret tt.

Definition clone (url dest : str) (branch : option str)
    (recursive lfs : bool) (ssh_key : option str) : M unit :=
  let args :=
    [u8 "clone"; url; dest]
    ++ (if truthy_opt branch then [u8 "-b"; default_to [] branch] else [])
    ++ (if recursive then [u8 "--recursive"] else []) in
  run_git args None ssh_key ;;
  if lfs then lfs_install dest ssh_key ;; lfs_pull dest ssh_key
  else ret tt.

Definition fetch (path : str) (ssh_key : option str) : M unit :=
  _ensure_repo path ;;
  run_git [u8 "fetch"; u8 "--all"] (Some path) ssh_key ;; ret tt.

Definition checkout (path target : str) (ssh_key : option str) : M unit :=
  _ensure_repo path ;;
  run_git [u8 "checkout"; target] (Some path) ssh_key ;; ret tt.

Definition pull (path : str) (ssh_key : option str) : M unit :=
  _ensure_repo path ;;
  run_git [u8 "pull"] (Some path) ssh_key ;; ret tt.

Definition submodule_sync (path : str) (ssh_key : option str) : M unit :=
  _ensure_repo path ;;
  run_git [u8 "submodule"; u8 "sync"; u8 "--recursive"] (Some path)
    ssh_key ;; ret tt.

Definition submodule_update (path : str) (ssh_key : option str) : M unit :=
  _ensure_repo path ;;
  run_git [u8 "submodule"; u8 "update"; u8 "--init"; u8 "--recursive"]
    (Some path) ssh_key ;; ret tt.

Definition reset_hard (path : str) (ssh_key : option str) : M unit :=
  _ensure_repo path ;;
  run_git [u8 "reset"; u8 "--hard"; u8 "HEAD"] (Some path) ssh_key ;;
  ret tt.

Definition clean_untracked (path : str) (ssh_key : option str) : M unit :=
  _ensure_repo path ;;
  run_git [u8 "clean"; u8 "-fd"] (Some path) ssh_key ;; ret tt.

Definition get_head (path : str) : M str :=
  _ensure_repo path ;;
  run_git [u8 "rev-parse"; u8 "HEAD"] (Some path) None.

(** [get_commits_between] *)
Definition commit_of_line (line : str) : M CommitInfo :=
  match split_char 124 4 [] line with
  | [h; an; ae; ad; msg] => ret (mkCommitInfo h an ae ad msg)
  | _ => raise ValueError
  end.

Definition get_commits_between (path a b : str) : M (list CommitInfo) :=
  if str_eqb a b then ret []
  else
    out <- run_git [u8 "log"; a ++ u8 ".." ++ b;
                    u8 "--pretty=format:%H|%an|%ae|%ad|%s"; u8 "--date=iso"]
             (Some path) None ;;
    map_each (splitlines out) commit_of_line.

(** [get_submodule_states] *)
Definition get_submodule_states (path : str) : M (list (str * str)) :=
  _ensure_repo path ;;
  out <- run_git [u8 "submodule"; u8 "status"; u8 "--recursive"]
           (Some path) None ;;
  ret (submodule_states_of_output out).

(** The loop over [subs_after.items()] at the end of [update_repo] *)
Definition submodule_change (dest : str) (subs_before : list (str * str))
    (item : str * str) (acc : list SubmoduleInfo)
    : M (list SubmoduleInfo) :=
  let (sub_path, new_commit) := item in
  match dict_get subs_before sub_path with
  | Some old_commit =>
      if truthy old_commit && negb (str_eqb old_commit new_commit)
      then
        let full_path := path_join dest sub_path in
        cs <- get_commits_between full_path old_commit new_commit ;;
        ret (acc ++ [mkSubmoduleInfo sub_path old_commit new_commit cs])
      else ret acc
  | None => ret acc
  end.

(** The destructive steps and the regular update of an existing
    working tree *)
Definition update_existing (dest : str) (branch : option str)
    (recursive lfs : bool) (ssh_key : option str) (reset clean : bool)
    : M unit :=
  (if reset
   then reset_hard dest ssh_key ;;
        if recursive
        then run_git foreach_reset (Some dest) ssh_key ;; ret tt
        else ret tt
   else ret tt) ;;
  (if clean
   then clean_untracked dest ssh_key ;;
        if recursive
        then run_git foreach_clean (Some dest) ssh_key ;; ret tt
        else ret tt
   else ret tt) ;;
  (if truthy_opt branch then checkout dest (default_to [] branch) ssh_key
   else ret tt) ;;
  fetch dest ssh_key ;;
  pull dest ssh_key ;;
  (if recursive
   then submodule_sync dest ssh_key ;; submodule_update dest ssh_key
   else ret tt) ;;
  (if lfs
   then lfs_install dest ssh_key ;;
        lfs_pull dest ssh_key ;;
        lfs_pull_all_submodules dest ssh_key
   else ret tt).

(** [update_repo] with every argument given *)
Definition update_repo (url dest : str) (branch : option str)
    (recursive lfs : bool) (ssh_key : option str) (reset clean : bool)
    : M GitSyncResult :=
  ex <- ask (path_exists dest) ;;
  main_before <- (if ex then h <- get_head dest ;; ret (Some h)
                  else ret None) ;;
  subs_before <- (if truthy_opt main_before then get_submodule_states dest
                  else ret []) ;;
  ex' <- ask (path_exists dest) ;;
  (if negb ex' then clone url dest branch recursive lfs ssh_key
   else update_existing dest branch recursive lfs ssh_key reset clean) ;;
  main_after <- get_head dest ;;
  subs_after <- get_submodule_states dest ;;
  commits <- (if truthy_opt main_before
              then get_commits_between dest (default_to [] main_before)
                     main_after
              else ret []) ;;
  subs <- fold_each subs_after (submodule_change dest subs_before) [] ;;
  ret (mkGitSyncResult (mkRepoInfo dest main_before main_after commits)
         subs).

(** A call of [update_repo] that may leave out the arguments that have
    a default *)
Definition update_repo_call (url dest : str) (branch : option str)
    (recursive lfs : option bool) (ssh_key : option str)
    (reset clean : option bool) : M GitSyncResult :=
  update_repo url dest branch
    (arg_or default_recursive recursive) (arg_or default_lfs lfs)
    ssh_key
    (arg_or default_reset reset) (arg_or default_clean clean).

End GitOps.

(** *** Finite external graphs

    [externals_at p st]: what [get_externals] reports for the path [p] in
    the state [st]. A list [univ] of paths carries an external graph when
    every existing directory reported as an external of one of its paths
    is again one of its paths. Paths are the strings the code builds and
    compares. *)
Definition externals_at {os : OS} (p : str) (st : state) : list str :=
  match fst (get_externals (SvnOps_init p) st) with
  | Ok ex => ex
  | _ => []
  end.

Definition externals_closed {os : OS} (univ : list str) : Prop :=
  forall (p e : str) (st st' : state),
    In p univ -> In e (externals_at p st) ->
    path_isdir e (st_world st') = true -> In e univ.

(** The paths of [univ] not yet in the set [seen] *)
Definition unvisited (univ seen : list str) : list str :=
  filter (fun p => negb (in_set p seen)) univ.

(** The announcement of the externals query in the path [p] *)
Definition propget_in (p : str) : str * list str := (p, propget_externals).

(** What is known of a traversal that started with the variables [v] in
    the state [st] and ended as [r]: it came back; [order] lists the
    paths it added to [visited], first to last, and these are exactly the
    paths in which it asked for the externals, once each; everything it
    appended to [result] is in [visited] at the end, and so is every path
    of [must]. *)
Definition scan_post {os : OS} (univ must : list str) (v : ScanVars)
    (st : state) (r : res ScanVars * state) : Prop :=
  exists (v' : ScanVars) (order added : list str) (st' : state),
    r = (Ok v', st')
    /\ visited v' = rev order ++ visited v
    /\ NoDup order
    /\ (forall p, In p order -> In p univ /\ ~ In p (visited v))
    /\ announced (st_trace st')
       = announced (st_trace st) ++ map propget_in order
    /\ result v' = result v ++ added
    /\ (forall e, In e added -> In e (visited v'))
    /\ (forall p, In p must -> In p (visited v')).

(** *** The aggregation, as the specification words it

    "All [RevisionChange] records (main + every external) are
    concatenated and sorted ascending": [per_external] holds the records
    of every external, one list for each. *)
Definition spec_aggregate (main : list RevisionChange)
    (per_external : list (list RevisionChange)) : list RevisionChange :=
  sorted _key (main ++ List.concat per_external).

(** What the loop over the externals leaves in [summary["ext"]] after it
    collected the pairs [collected] (URL, records), one for each external
    in turn. *)
Definition store_all (collected : list (str * list RevisionChange))
    : list (str * list RevisionChange) :=
  fold_left (fun d kv => dict_set d (fst kv) (snd kv)) collected [].

(** [kv] is the pair (URL, records) collected for the external [e] over
    the window from [t_start] to [t_end], in some state. *)
Definition collected_for {os : OS} (t_start t_end : str)
    (include_diff : bool) (max_diff_lines : Z) (e : str)
    (kv : str * list RevisionChange) : Prop :=
  exists st st' : state,
    collect_external t_start t_end include_diff max_diff_lines e [] st
    = (Ok [kv], st').

(** An identifier that, without the white space around it, starts with a
    minus sign *)
Definition has_minus_sign (s : str) : Prop :=
  match strip_by int_space s with
  | 45 :: _ => True
  | _ => False
  end.

(** The events of one call of [_svn] with the arguments [args] in the
    working copy [self]: the announcement and the processes spawned, the
    command once, or twice around a plain cleanup when its first run
    failed on a locked working copy. *)
Definition svn_block (self : SvnOps) (args : list str) (evs : list event)
    : Prop :=
  evs = [EvSvn (repo_path self) args; EvRun (svn_call self args)]
  \/ evs = [EvSvn (repo_path self) args; EvRun (svn_call self args);
            EvRun (cleanup_call self); EvRun (svn_call self args)].

(** The working copy of a project below the workspace of [self], the
    arguments of the checkout of its root, and the test on [repo_url] and
    [root_path] *)
Definition project_ops (self : SvnOps) (proj : Project) : SvnOps :=
  SvnOps_init (path_join (repo_path self) (default_to [] (root_path proj))).

Definition root_checkout_args (self : SvnOps) (proj : Project) : list str :=
  [u8 "checkout"; default_to [] (repo_url proj);
   repo_path (project_ops self proj); u8 "--depth";
   default_to (u8 "infinity") (root_depth proj)].

Definition project_valid (proj : Project) : bool :=
  truthy_opt (repo_url proj) && truthy_opt (root_path proj).

(** The events of the expansions of the rules [done] in the working copy
    [ops]: one block for each rule, in turn *)
Definition expansion_blocks (ops : SvnOps) (done : list PathRule)
    (blocks : list (list event)) : Prop :=
  Forall2 (fun item evs => svn_block ops (expand_args item) evs) done blocks.

(** [seg] holds the events of a run of the project [np] (name and
    description) that got as far as the rules [done]: at most one
    checkout of the root, then the expansions of [done]. *)
Definition project_events (self : SvnOps) (np : str * Project)
    (done : list PathRule) (seg : list event) : Prop :=
  exists co blocks,
    seg = co ++ List.concat blocks
    /\ expansion_blocks (project_ops self (snd np)) done blocks
    /\ (co = []
        \/ svn_block (project_ops self (snd np))
             (root_checkout_args self (snd np)) co).

(** A run of the project that got as far as some of its rules, in the
    sorted order, and a run that got through all of them *)
Definition project_segment (self : SvnOps) (np : str * Project)
    (seg : list event) : Prop :=
  exists done rest,
    sorted_paths (paths (snd np)) = done ++ rest
    /\ project_events self np done seg.

Definition project_complete (self : SvnOps) (np : str * Project)
    (seg : list event) : Prop :=
  project_events self np (sorted_paths (paths (snd np))) seg.

(** What is known of an entry [s] the loop over [subs_after.items()]
    appends to [info["submodules"]] *)
Definition reported {os : OS} (dest : str) (subs_before subs_after : list (str * str))
    (s : SubmoduleInfo) : Prop :=
  dict_get subs_before (si_path s) = Some (si_from s)
  /\ In (si_path s, si_to s) subs_after
  /\ si_from s <> []
  /\ si_from s <> si_to s
  /\ exists sa sb,
       get_commits_between (path_join dest (si_path s)) (si_from s) (si_to s)
         sa = (Ok (si_commits s), sb).

(** ** Scripted worlds

    An implementation of [OS] for examples: the world is the list of the
    processes spawned so far; what a process answers and what exists on
    disk are functions of that history. *)

Definition scripted_os
    (respond : list Call -> Call -> CompletedProcess)
    (isdir exists_ : list Call -> str -> bool)
    (getenv : str -> option str)
    (xml : str -> option (list XmlLogEntry)) : OS :=
  {| world := list Call;
     subprocess_run := fun c w => (respond w c, w ++ [c]);
     path_isdir := fun p w => isdir w p;
     path_exists := fun p w => exists_ w p;
     shutil_rmtree := fun _ w => w;
     os_remove := fun _ w => w;
     os_makedirs := fun _ w => w;
     os_getenv := fun k _ => getenv k;
     expanduser := fun p => p;
     os_name_nt := false;
     utcnow_isoformat := fun _ => u8 "2025-12-10T08:23:11";
     ET_logentries := xml |}.

Definition initial_state (os : OS) (w : @world os) : @state os :=
  mkState w [].

Definition exit_with (code : Z) (out err : string) : CompletedProcess :=
  mkProc code (u8 out) (u8 err).

(** A working copy whose first command finds the lock of an interrupted
    run; the lock is gone once [svn cleanup] has been run. *)
Definition locked_once_os : OS :=
  scripted_os
    (fun history c =>
       if existsb (fun h => strs_eqb (argv h) [u8 "svn"; u8 "cleanup"])
            history
       then exit_with 0 "At revision 7." ""
       else exit_with 1 ""
              "svn: E155004: Working copy '/wc' locked; run 'svn cleanup'")
    (fun _ _ => true) (fun _ _ => true) (fun _ => None) (fun _ => None).

(** A command that fails for another reason, every time. *)
Definition failing_os : OS :=
  scripted_os
    (fun _ _ => exit_with 1 "" "svn: E170013: Unable to connect")
    (fun _ _ => true) (fun _ _ => true) (fun _ => None) (fun _ => None).

(** A working copy in which every [svn] command prints the same three
    lines and exits with 0. *)
Definition three_line_diff : str :=
  join NL [u8 "--- a.txt"; u8 "+++ a.txt"; u8 "+new line"].

Definition diff_os : OS :=
  scripted_os
    (fun _ _ => mkProc 0 three_line_diff [])
    (fun _ _ => true) (fun _ _ => true) (fun _ => None) (fun _ => None).

(** Two working copies that name each other as an external: [/A] has the
    external [/B] and [/B] has the external [/A]. Every other command
    prints nothing and exits with 0. *)
Definition cyclic_respond (c : Call) : CompletedProcess :=
  if strs_eqb (argv c) (u8 "svn" :: propget_externals)
  then
    match cwd c with
    | Some d =>
        if str_eqb d (u8 "/A") then exit_with 0 "/B - ^/b b" ""
        else if str_eqb d (u8 "/B") then exit_with 0 "/A - ^/a a" ""
        else exit_with 0 "" ""
    | None => exit_with 0 "" ""
    end
  else exit_with 0 "" "".

Definition cyclic_isdir (p : str) : bool :=
  str_eqb p (u8 "/A") || str_eqb p (u8 "/B").

Definition cyclic_os : OS :=
  scripted_os (fun _ c => cyclic_respond c)
    (fun _ p => cyclic_isdir p) (fun _ p => cyclic_isdir p)
    (fun _ => None) (fun _ => None).

(** A working copy [/wc] at revision 7 that was at revision 4 before the
    update, with the externals named in [exts] (all of the same
    repository). The main repository has the revisions 5 and 7 in the
    window, the repository of the externals has the revision 6. The XML
    reader is scripted on the documents the commands print. *)
Definition log_entry (rev day : string) : XmlLogEntry :=
  mkXmlLogEntry (Some (u8 rev)) (Some (u8 "dev"))
    (Some (u8 "2025-01-" ++ u8 day ++ u8 "T00:00:00.000000Z"))
    (Some (u8 "change")) (Some [mkXmlPath (Some (u8 "M")) (Some (u8 "/trunk/f"))]).

Definition aggregation_xml (doc : str) : option (list XmlLogEntry) :=
  if str_eqb doc (u8 "<log r=4/>") then Some [log_entry "4" "04"]
  else if str_eqb doc (u8 "<log r=7/>") then Some [log_entry "7" "07"]
  else if str_eqb doc (u8 "<log main/>") then
         Some [log_entry "5" "05"; log_entry "7" "07"]
  else if str_eqb doc (u8 "<log lib/>") then Some [log_entry "6" "06"]
  else if str_eqb doc (u8 "<log/>") then Some []
  else None.

Definition aggregation_respond (exts : list str) (c : Call)
    : CompletedProcess :=
  let at_root :=
    match cwd c with Some d => str_eqb d (u8 "/wc") | None => false end in
  match argv c with
  | [_; a1; a2; a3; a4] =>
      if strs_eqb [a1; a2; a3] [u8 "log"; u8 "--xml"; u8 "-r"]
      then mkProc 0 (u8 "<log r=" ++ a4 ++ u8 "/>") []
      else exit_with 0 "" ""
  | [_; a1; a2; a3; a4; _] =>
      if strs_eqb [a1; a2; a3; a4] [u8 "log"; u8 "-v"; u8 "--xml"; u8 "-r"]
      then if at_root then exit_with 0 "<log main/>" ""
           else exit_with 0 "<log lib/>" ""
      else exit_with 0 "" ""
  | [_; a1; a2; a3] =>
      if strs_eqb [a1; a2; a3] propget_externals
      then if at_root
           then mkProc 0
                  (join NL (map (fun n => n ++ u8 " - ^/lib " ++ n) exts)) []
           else exit_with 0 "" ""
      else if strs_eqb [a1; a2; a3] [u8 "info"; u8 "--show-item"; u8 "url"]
      then exit_with 0 "https://svn.example.com/lib" ""
      else exit_with 0 "" ""
  | _ => exit_with 0 "" ""
  end.

Definition aggregation_os (exts : list str) : OS :=
  scripted_os (fun _ c => aggregation_respond exts c)
    (fun _ _ => true) (fun _ _ => true) (fun _ => None) aggregation_xml.

Definition updated_wc : SvnOps :=
  mkSvnOps (u8 "/wc") (Some (u8 "4")) (Some (u8 "7")).

Definition change_of (rev day : string) : RevisionChange :=
  change_of_entry (log_entry rev day).

Definition t_before : str := u8 "2025-01-04T00:00:00.000000Z".
Definition t_after : str := u8 "2025-01-07T00:00:00.000000Z".

Definition r5 : RevisionChange := change_of "5" "05".
Definition r6 : RevisionChange := change_of "6" "06".
Definition r7 : RevisionChange := change_of "7" "07".

(** The argument vectors of the processes spawned, in order *)
Fixpoint spawned (tr : list event) : list (list str) :=
  match tr with
  | [] => []
  | EvRun c :: tr' => argv c :: spawned tr'
  | EvSvn _ _ :: tr' => spawned tr'
  end.

(** A Git host: the key file and every other path exist, except that the
    destination [/build/repo] exists only once a [git clone] has been
    run. The head is [c0ffee] before a [git pull] or [git clone] and
    [decaf] after; the one submodule [lib] moves from [1111] to [2222]. *)
Definition git_dest : str := u8 "/build/repo".
Definition git_url : str := u8 "git@example.com:team/repo.git".

Definition is_git (sub : string) (c : Call) : bool :=
  match argv c with
  | _ :: a :: _ => str_eqb a (u8 sub)
  | _ => false
  end.

Definition git_respond (history : list Call) (c : Call) : CompletedProcess :=
  let moved := existsb (is_git "pull") history
               || existsb (is_git "clone") history in
  if strs_eqb (argv c) [u8 "git"; u8 "rev-parse"; u8 "HEAD"]
  then if moved then exit_with 0 "decaf" "" else exit_with 0 "c0ffee" ""
  else if strs_eqb (argv c)
            [u8 "git"; u8 "submodule"; u8 "status"; u8 "--recursive"]
  then if moved then exit_with 0 " 2222 lib (heads/main)" ""
       else exit_with 0 " 1111 lib (heads/main)" ""
  else if is_git "log" c
  then exit_with 0 "2222|dev|dev@example.com|2025-01-07 10:00:00 +0000|fix" ""
  else exit_with 0 "" "".

Definition git_existing_os : OS :=
  scripted_os git_respond (fun _ _ => true) (fun _ _ => true)
    (fun _ => None) (fun _ => None).

Definition git_fresh_os : OS :=
  scripted_os git_respond (fun _ _ => true)
    (fun history p =>
       if startswith git_dest p then existsb (is_git "clone") history
       else true)
    (fun _ => None) (fun _ => None).

Definition git_reset_cmd : list str :=
  [u8 "git"; u8 "reset"; u8 "--hard"; u8 "HEAD"].
Definition git_clean_cmd : list str := [u8 "git"; u8 "clean"; u8 "-fd"].

Definition has_cmd (cmd : list str) (tr : list event) : bool :=
  existsb (strs_eqb cmd) (spawned tr).

(** A project whose rules list the child before the parent *)
Definition rule_a : PathRule := mkPathRule (u8 "a") (Some (u8 "files")).
Definition rule_a_b : PathRule := mkPathRule (u8 "a/b") None.

Definition child_first_project : Project :=
  mkProject (Some (u8 "https://svn.example.com/repo")) (Some (u8 "proj"))
    (Some (u8 "empty")) [rule_a_b; rule_a].

(** The rule of the root of the project, listed after a rule of a
    directory below it; and two rules of one depth, the path of the
    second a prefix of the path of the first *)
Definition rule_root : PathRule := mkPathRule [] (Some (u8 "immediates")).
Definition rule_ab : PathRule := mkPathRule (u8 "ab") None.

Definition root_last_project : Project :=
  mkProject (Some (u8 "https://svn.example.com/repo")) (Some (u8 "proj"))
    (Some (u8 "empty")) [rule_a; rule_root].

Definition longer_first_project : Project :=
  mkProject (Some (u8 "https://svn.example.com/repo")) (Some (u8 "proj"))
    (Some (u8 "empty")) [rule_ab; rule_a].

(** ** Further operations of [svn_ops.py] *)

(** [os.path.dirname(p)] (POSIX flavour): the text up to the last slash,
    without the slashes at its end unless it consists of slashes only. *)
Definition path_dirname (p : str) : str :=
  let head := rev (dropwhile (fun c => negb (c =? 47)) (rev p)) in
  if truthy head && negb (forallb (N.eqb 47) head)
  then rstrip_by (N.eqb 47) head
  else head.

(** One entry of the path-revision document: [rule.get("path")] and
    [rule.get("revision")] *)
Record PathRevision := mkPathRevision {
  rule_path : option str;
  rule_revision : option str
}.

(** The arguments of the checkout and of the switch, with [-r] only for a
    revision that is given and not empty *)
Definition revision_args (revision : option str) : list str :=
  if truthy_opt revision then [u8 "-r"; default_to [] revision] else [].

(** The update a valid rule of [update_paths_to_revision] issues *)
Definition path_revision_args (rel rev : str) : list str :=
  [u8 "update"; rel; u8 "-r"; rev; u8 "--depth=infinity"].

(** The rules [update_paths_to_revision] does not skip, as the pairs of
    path and revision it uses *)
Definition valid_rules (rules : list PathRevision) : list (str * str) :=
  flat_map
    (fun rule =>
       if truthy_opt (rule_path rule) && truthy_opt (rule_revision rule)
       then [(default_to [] (rule_path rule),
              default_to [] (rule_revision rule))]
       else [])
    rules.

Section SvnOpsMore.
Context {os : OS}.

(** [SvnOps.checkout]. The process is to run in [base_dir], which
    [os.path.dirname] makes the empty string for a path of one component
    (a relative [repo_path] such as [wc]); [subprocess.run] starts no
    process in the directory [""]: it raises [FileNotFoundError]. *)
Definition SvnOps_checkout (self : SvnOps) (url : str)
    (revision : option str) : M unit :=
  wc <- is_working_copy self ;;
  if wc then ret tt
  else
    let base_dir := path_dirname (repo_path self) in
    let cmd := [u8 "checkout"; url; repo_path self] ++ revision_args revision in
    if negb (truthy base_dir) then raise FileNotFoundError
    else
      run_cmd (u8 "svn" :: cmd) (Some base_dir) true ;;
      ret tt.

(** [SvnOps.switch_to] *)
Definition switch_to (fuel : nat) (self : SvnOps) (url : str)
    (revision : option str) : M unit :=
  cur <- get_current_url self ;;
  if str_eqb cur url then ret tt
  else
    ensure_clean_workspace fuel self ;;
    _svn self ([u8 "switch"; url] ++ revision_args revision) true ;;
    ret tt.

(** [SvnOps.get_remote_head_revision] *)
Definition get_remote_head_revision (self : SvnOps) : M str :=
  url <- get_current_url self ;;
  '(_, out, _) <-
    _svn self [u8 "info"; u8 "--show-item"; u8 "revision"; url] true ;;
  ret (strip out).

(** The body of the loop of [update_paths_to_revision] *)
Definition update_path_rule (self : SvnOps) (rule : PathRevision) : M unit :=
  if negb (truthy_opt (rule_path rule))
     || negb (truthy_opt (rule_revision rule))
  then ret tt
  else
    let rel := default_to [] (rule_path rule) in
    let rev := default_to [] (rule_revision rule) in
    let full := path_join (repo_path self) rel in
    e <- ask (path_exists full) ;;
    (if negb e then change (os_makedirs full) else ret tt) ;;
    _svn self (path_revision_args rel rev) true ;;
    ret tt.

(** [SvnOps.update_paths_to_revision] *)
Definition update_paths_to_revision (self : SvnOps)
    (rules : list PathRevision) : M unit :=
  for_each rules (update_path_rule self).

(** [SvnOps.get_revision_list] *)
Definition revision_range (from_rev : option str) (to_rev : str) : str :=
  if truthy_opt from_rev then default_to [] from_rev ++ u8 ":" ++ to_rev
  else to_rev.

Definition get_revision_list (self : SvnOps) (from_rev : option str)
    (to_rev : str) : M (list RevisionChange) :=
  '(_, out, _) <-
    _svn self [u8 "log"; u8 "-v"; u8 "--xml"; u8 "-r";
               revision_range from_rev to_rev] true ;;
  match ET_logentries out with
  | None => raise ParseError
  | Some entries => ret (map change_of_entry entries)
  end.

End SvnOpsMore.

(** *** Acyclic external graphs

    [rank] numbers the paths of [univ] so that every existing directory
    reported as an external of a path of [univ] is a path of [univ] of
    smaller rank: the graph has no cycle. *)
Definition externals_ranked {os : OS} (univ : list str) (rank : str -> nat)
    : Prop :=
  forall (p e : str) (st st' : state),
    In p univ -> In e (externals_at p st) ->
    path_isdir e (st_world st') = true ->
    In e univ /\ (rank e < rank p)%nat.

(** The announcement of the revert in the working copy [p] *)
Definition revert_in (p : str) : str * list str :=
  (p, [u8 "revert"; u8 "-R"; u8 "."]).

(** The ranks of [/wc] and of everything else *)
Definition wc_rank (p : str) : nat :=
  if str_eqb p (u8 "/wc") then 1%nat else 0%nat.

(** What is known of a traversal that goes through [univ] below a path of
    rank [bound]: it came back, and everything it appended to [result]
    is a path of [univ] of a rank below [bound]. *)
Definition ranked_post {os : OS} (univ : list str) (rank : str -> nat)
    (bound : nat) (v : ScanVars) (st : state) (r : res ScanVars * state)
    : Prop :=
  exists v' st' added delta,
    r = (Ok v', st')
    /\ result v' = result v ++ added
    /\ Forall (fun e => In e univ /\ (rank e < bound)%nat) added
    /\ announced (st_trace st') = announced (st_trace st) ++ delta.

(** What is known of a cleaning of [self] that started in [st]: it came
    back and announced the revert in the working copy. *)
Definition cleaned_post {os : OS} (self : SvnOps) (st : state)
    (r : res unit * state) : Prop :=
  exists st' delta,
    r = (Ok tt, st')
    /\ announced (st_trace st') = announced (st_trace st) ++ delta
    /\ In (revert_in (repo_path self)) delta.

(** The entry a status line makes [revert_local_changes] remove: the
    line is flagged [?] in its first column, is longer than eight
    characters and names, from the ninth on, a path that is not blank. *)
Definition unversioned_target (self : SvnOps) (line : str) : option str :=
  match line with
  | 63 :: _ =>
      if (8 <? List.length line)%nat && truthy (strip (slice_from line 8))
      then Some (path_join (repo_path self) (strip (slice_from line 8)))
      else None
  | _ => None
  end.

(** The removal of the entry [full]: a directory goes with all below it,
    another existing entry is removed as a file, an entry that is not
    there is left alone. *)
Definition remove_entry {os : OS} (full : str) (w : world) : world :=
  if path_isdir full w then shutil_rmtree full w
  else if path_exists full w then os_remove full w
  else w.

(** A path that is no working copy; every [svn] command fails there with
    a lock signature in its stderr. *)
Definition locked_always_os : OS :=
  scripted_os
    (fun _ _ => exit_with 1 ""
                  "svn: E155004: Working copy '/wc' locked; run 'svn cleanup'")
    (fun _ _ => false) (fun _ _ => false) (fun _ => None) (fun _ => None).

(** Every command fails and prints nothing; the XML reader is the one of
    [aggregation_os]. *)
Definition silent_os : OS :=
  scripted_os (fun _ _ => exit_with 1 "" "svn: E170013: Unable to connect")
    (fun _ _ => true) (fun _ _ => true) (fun _ => None) aggregation_xml.

(** The process [SvnOps.checkout] spawns *)
Definition checkout_call (self : SvnOps) (url : str) (revision : option str)
    : Call :=
  mkCall (u8 "svn" :: [u8 "checkout"; url; repo_path self]
          ++ revision_args revision)
    (Some (path_dirname (repo_path self))) None.

(** The announcement of the update of one valid path-revision rule *)
Definition path_revision_in (self : SvnOps) (pr : str * str)
    : str * list str :=
  (repo_path self, path_revision_args (fst pr) (snd pr)).

(** The arguments of the log query over a window of time *)
Definition time_range (t_start : option str) (t_end : str) : str :=
  if truthy_opt t_start
  then u8 "{" ++ default_to [] t_start ++ u8 "}:{" ++ t_end ++ u8 "}"
  else u8 "{" ++ t_end ++ u8 "}".

Definition time_log_args (t_start : option str) (t_end : str) : list str :=
  [u8 "log"; u8 "-v"; u8 "--xml"; u8 "-r"; time_range t_start t_end].

(** A record without the diffs of its files *)
Definition without_diffs (rev : RevisionChange) : RevisionChange :=
  mkRevisionChange (revision rev) (author rev) (date rev) (message rev)
    (map (fun f => mkFileChange (fc_path f) (fc_action f) None) (files rev)).

(** The announcements of the diffs of all files of the records [revs],
    record after record, in the working copy [ops] *)
Definition diffs_of (ops : SvnOps) (revs : list RevisionChange)
    : list (str * list str) :=
  flat_map
    (fun rev =>
       map (fun f => (repo_path ops,
                      diff_args (revision rev) (Some (fc_path f))))
         (files rev))
    revs.

(** What a loop that builds a list is known to do when its element [x]
    is run in the state [st] with the outcome [r]: it comes back; it
    announces a prefix of [tr x], all of it when it ends normally, and
    then [P] relates the element and the value built from it. *)
Definition loop_post {os : OS} {A B : Type} (P : A -> B -> Prop)
    (tr : A -> list (str * list str)) (x : A) (st : state)
    (r : res B * state) : Prop :=
  fst r <> OutOfFuel
  /\ exists done rest,
       tr x = done ++ rest
       /\ announced (st_trace (snd r)) = announced (st_trace st) ++ done
       /\ forall y, fst r = Ok y -> rest = [] /\ P x y.

(** The file [f'] is the file [f] with a diff; the record [rev'] is the
    record [rev] with a diff on every file. *)
Definition file_diffed (f f' : FileChange) : Prop :=
  fc_path f' = fc_path f /\ fc_action f' = fc_action f
  /\ fc_diff f' <> None.

Definition record_diffed (rev rev' : RevisionChange) : Prop :=
  without_diffs rev' = without_diffs rev
  /\ Forall (fun f => fc_diff f <> None) (files rev').

(** ** [git_ops.py]: the remaining operation and the commands it plans *)

Section GitOpsMore.
Context {os : OS}.

(** [reset_repo_and_submodules] *)
Definition reset_repo_and_submodules (path : str) (ssh_key : option str)
    : M unit :=
  reset_hard path ssh_key ;;
  clean_untracked path ssh_key ;;
  run_git foreach_reset (Some path) ssh_key ;;
  run_git foreach_clean (Some path) ssh_key ;;
  ret tt.

(** The value [_build_ssh_env] gives [GIT_SSH_COMMAND] for the key file
    [key], and the process [run_git] spawns with it *)
Definition ssh_command_of (key : str) : str :=
  u8 "ssh -i '" ++ key ++ u8 "' " ++ u8 "-o StrictHostKeyChecking=no "
  ++ u8 "-o UserKnownHostsFile="
  ++ (if os_name_nt then u8 "NUL" else u8 "/dev/null").

Definition git_call (args : list str) (cwd : option str) (key : str) : Call :=
  mkCall (u8 "git" :: args) cwd (Some (ssh_command_of key)).

(** What is known of a run that started in [st] and ended as [r], for a
    list [plan] of argument vectors: it came back, and the processes it
    spawned are a prefix of the plan, all of it when it ended normally. *)
Definition plan_post {A : Type} (plan : list (list str)) (st : state)
    (r : res A * state) : Prop :=
  fst r <> OutOfFuel
  /\ exists done rest,
       plan = done ++ rest
       /\ spawned (st_trace (snd r)) = spawned (st_trace st) ++ done
       /\ forall a, fst r = Ok a -> rest = [].

End GitOpsMore.

Definition not_a_repo (path : str) : exn :=
  GitError (u8 "不是 Git 仓库: " ++ path).

(** The commands of the update of an existing working tree, in order *)
Definition existing_plan (branch : option str)
    (recursive lfs reset clean : bool) : list (list str) :=
  (if reset
   then [git_reset_cmd]
        ++ (if recursive then [u8 "git" :: foreach_reset] else [])
   else [])
  ++ (if clean
      then [git_clean_cmd]
           ++ (if recursive then [u8 "git" :: foreach_clean] else [])
      else [])
  ++ (if truthy_opt branch
      then [[u8 "git"; u8 "checkout"; default_to [] branch]]
      else [])
  ++ [[u8 "git"; u8 "fetch"; u8 "--all"]; [u8 "git"; u8 "pull"]]
  ++ (if recursive
      then [[u8 "git"; u8 "submodule"; u8 "sync"; u8 "--recursive"];
            [u8 "git"; u8 "submodule"; u8 "update"; u8 "--init";
             u8 "--recursive"]]
      else [])
  ++ (if lfs
      then [[u8 "git"; u8 "lfs"; u8 "install"];
            [u8 "git"; u8 "lfs"; u8 "fetch"; u8 "--all"];
            [u8 "git"; u8 "lfs"; u8 "pull"];
            [u8 "git"; u8 "submodule"; u8 "foreach"; u8 "--recursive";
             u8 "git lfs pull"]]
      else []).

(** The commands that discard local work *)
Definition destructive (cmd : list str) : bool :=
  strs_eqb cmd git_reset_cmd || strs_eqb cmd git_clean_cmd
  || strs_eqb cmd (u8 "git" :: foreach_reset)
  || strs_eqb cmd (u8 "git" :: foreach_clean).

(** The line [git log --pretty=format:%H|%an|%ae|%ad|%s] prints for a
    commit *)
Definition BAR : N := 124.

Definition commit_line (c : CommitInfo) : str :=
  ci_commit c ++ BAR :: ci_author c ++ BAR :: ci_email c ++ BAR :: ci_date c
  ++ BAR :: ci_message c.

Definition bar_free (s : str) : Prop := Forall (fun c => c <> BAR) s.

(** A directory that exists and is no Git repository: nothing else
    exists, no key file either. *)
Definition plain_dir_os : OS :=
  scripted_os (fun _ _ => exit_with 0 "" "") (fun _ _ => true)
    (fun _ p => str_eqb p git_dest) (fun _ => None) (fun _ => None).

(** The commands of [clone] and of [reset_repo_and_submodules], in
    order *)
Definition clone_plan (url dest : str) (branch : option str)
    (recursive lfs : bool) : list (list str) :=
  [u8 "git"
   :: ([u8 "clone"; url; dest]
       ++ (if truthy_opt branch then [u8 "-b"; default_to [] branch] else [])
       ++ (if recursive then [u8 "--recursive"] else []))]
  ++ (if lfs
      then [[u8 "git"; u8 "lfs"; u8 "install"];
            [u8 "git"; u8 "lfs"; u8 "fetch"; u8 "--all"];
            [u8 "git"; u8 "lfs"; u8 "pull"]]
      else []).

Definition reset_plan : list (list str) :=
  [git_reset_cmd; git_clean_cmd; u8 "git" :: foreach_reset;
   u8 "git" :: foreach_clean].

(** The arguments [update_to] gives to [svn] for a target *)
Definition update_args (target : option str) : list str :=
  if is_head target then [u8 "update"]
  else [u8 "update"; u8 "-r"; default_to [] target].

Definition info_revision : list str :=
  [u8 "info"; u8 "--show-item"; u8 "revision"].

(** ** [svn_cli.py]

    A command gives back the texts it prints, one for each call of
    [print]. The commands embedded here print only after their last step
    that can raise: the list is the whole output of a command that ends
    normally, and a command that raises has printed nothing. *)

Section SvnCli.
Context {os : OS}.

(** [build_ops] *)
Definition build_ops (repo : str) : M SvnOps :=
  if negb (truthy repo)
  then raise (VCSException (u8 "缺少 --repo 参数。"))
  else
    d <- ask (path_isdir repo) ;;
    if negb d
    then raise (VCSException (u8 "repo 路径不存在: " ++ repo))
    else ret (SvnOps_init repo).

(** The lines printed for one record *)
Definition render_rev (rev : RevisionChange) : list str :=
  [u8 "[r" ++ revision rev ++ u8 "] " ++ author rev ++ u8 " " ++ date rev;
   u8 "  " ++ message rev]
  ++ map (fun f => u8 "    " ++ fc_action f ++ u8 " " ++ fc_path f)
       (files rev).

Definition cmd_info (repo : str) : M (list str) :=
  ops <- build_ops repo ;;
  url <- get_current_url ops ;;
  rev <- get_current_revision ops ;;
  ret [u8 "URL : " ++ url; u8 "REV : " ++ rev].

Definition cmd_checkout (repo url : str) (revision : option str)
    : M (list str) :=
  SvnOps_checkout (SvnOps_init repo) url revision ;;
  ret [u8 "Checkout 完成。"].

Definition cmd_switch (fuel : nat) (repo url : str) (revision : option str)
    : M (list str) :=
  ops <- build_ops repo ;;
  switch_to fuel ops url revision ;;
  ret [u8 "Switch 完成。"].

Definition cmd_clean (fuel : nat) (repo : str) : M (list str) :=
  ops <- build_ops repo ;;
  ensure_clean_workspace fuel ops ;;
  ret [u8 "工作副本已清理干净。"].

Definition cmd_summary (fuel : nat) (repo : str)
    (start_time end_time : option str) (no_ext : bool) : M (list str) :=
  ops <- build_ops repo ;;
  summary <- collect_change_summary fuel ops start_time end_time false 200
               (negb no_ext) ;;
  ret ([u8 "主仓库变更："]
       ++ flat_map render_rev (sum_main summary)
       ++ match sum_ext summary with
          | [] => []
          | ext =>
              [NL ++ u8 "External 仓库变更："]
              ++ flat_map
                   (fun kv =>
                      [NL ++ u8 "== " ++ fst kv ++ u8 " =="]
                      ++ flat_map render_rev (snd kv))
                   ext
          end).

End SvnCli.

(** The status [main] returns for the outcome of a command: 0, 1 for the
    exception of [svn_ops], 2 for any other exception *)
Definition exit_status {A : Type} (r : res A) : option Z :=
  match r with
  | Ok _ => Some 0%Z
  | Raise (VCSException _) => Some 1%Z
  | Raise _ => Some 2%Z
  | OutOfFuel => None
  end.

(** *** Static external graphs

    The externals as [get_externals] reports them and the directories as
    [os.path.isdir] sees them, when neither changes while a traversal
    runs: [graph p] lists the paths reported for the path [p] of [univ],
    [isdir] tells the directories, and the directories reported for a
    path of [univ] are paths of [univ]. Paths are the strings the code
    builds and compares. *)
Definition static_externals {os : OS} (graph : str -> list str)
    (isdir : str -> bool) (univ : list str) : Prop :=
  (forall (p : str) (st : state), In p univ -> externals_at p st = graph p)
  /\ (forall (e : str) (w : world), path_isdir e w = isdir e)
  /\ (forall p e : str,
        In p univ -> In e (graph p) -> isdir e = true -> In e univ).

(** The paths a traversal from [root] reaches: the root and, from a path
    it reaches, the externals of that path that are directories. *)
Inductive reachable (graph : str -> list str) (isdir : str -> bool)
    (root : str) : str -> Prop :=
| reach_root : reachable graph isdir root root
| reach_step (p e : str) :
    reachable graph isdir root p -> In e (graph p) -> isdir e = true ->
    reachable graph isdir root e.

(** What is known of a part of a traversal of a static graph that
    started with the variables [v] in the state [st] and ended as [r].
    The part is a call of [scan] on the path of [starts], or the loop
    over the externals [direct] of one path, whose directories are
    [starts]. It came back; [order] lists the paths it added to
    [visited], first to last, which are the paths in which it asked for
    the externals, once each, and each is reached from a path of
    [starts]; [added] is what it appended to [result]: the directories
    of [direct] and the directories among the externals of the paths of
    [order]; all of these and the paths of [starts] are in [visited] at
    the end. *)
Definition dfs_post {os : OS} (graph : str -> list str)
    (isdir : str -> bool) (univ starts direct : list str) (v : ScanVars)
    (st : state) (r : res ScanVars * state) : Prop :=
  exists (v' : ScanVars) (order added : list str) (st' : state),
    r = (Ok v', st')
    /\ visited v' = rev order ++ visited v
    /\ NoDup order
    /\ (forall p, In p order -> In p univ /\ ~ In p (visited v))
    /\ announced (st_trace st')
       = announced (st_trace st) ++ map propget_in order
    /\ result v' = result v ++ added
    /\ (forall p e, In p order -> In e (graph p) -> isdir e = true ->
        In e (visited v') /\ In e added)
    /\ (forall s, In s starts -> In s (visited v'))
    /\ (forall e, In e direct -> isdir e = true -> In e added)
    /\ (forall p, In p order ->
        exists s, In s starts /\ reachable graph isdir s p)
    /\ (forall e, In e added ->
        isdir e = true
        /\ (In e direct \/ exists p, In p order /\ In e (graph p))).

(** A working copy whose externals are set on its own root, which
    [svn propget -R] reports on a line that starts with a dot; and a
    working copy that names the directory [b] twice, once through
    [c/..]. Everything is a directory. *)
Definition dot_os : OS :=
  scripted_os
    (fun _ c =>
       if strs_eqb (argv c) (u8 "svn" :: propget_externals)
       then exit_with 0 ". - ^/lib lib" ""
       else exit_with 0 "" "")
    (fun _ _ => true) (fun _ _ => true) (fun _ => None) (fun _ => None).

Definition two_names_os : OS :=
  scripted_os
    (fun _ c =>
       if strs_eqb (argv c) (u8 "svn" :: propget_externals)
       then match cwd c with
            | Some d =>
                if str_eqb d (u8 "/wc")
                then mkProc 0 (join NL [u8 "b - ^/lib lib";
                                        u8 "c/../b - ^/lib lib"]) []
                else exit_with 0 "" ""
            | None => exit_with 0 "" ""
            end
       else exit_with 0 "" "")
    (fun _ _ => true) (fun _ _ => true) (fun _ => None) (fun _ => None).

(** The graph of [cyclic_os] *)
Definition cyclic_graph (p : str) : list str :=
  if str_eqb p (u8 "/A") then [u8 "/B"]
  else if str_eqb p (u8 "/B") then [u8 "/A"]
  else [].

(** *** Worlds that answer the aggregation

    The world answers the queries of the aggregation for the working copy
    [self] updated from the revision [b] to the revision [a]: every
    process exits with 0, the log of either revision is a document with an
    entry, and the log over a window, in any working copy, is a document
    the XML reader accepts. *)
Definition history_available {os : OS} (self : SvnOps) (b a : str) : Prop :=
  (forall (c : Call) (w : world),
      returncode (fst (subprocess_run c w)) = 0%Z)
  /\ (forall (rev : str) (w : world),
        In rev [b; a] ->
        exists entry entries,
          ET_logentries
            (proc_stdout
               (fst (subprocess_run
                       (svn_call self [u8 "log"; u8 "--xml"; u8 "-r"; rev])
                       w)))
          = Some (entry :: entries))
  /\ (forall (ops : SvnOps) (range : str) (w : world),
        let out :=
          proc_stdout
            (fst (subprocess_run
                    (svn_call ops
                       [u8 "log"; u8 "-v"; u8 "--xml"; u8 "-r"; range])
                    w)) in
        ET_logentries (if truthy out then out else u8 "<log/>") <> None).

(** The working copy of [aggregation_os] without externals, where the
    log of the main repository over the window has a record whose
    identifier is no number and a record whose identifier is [-1]. *)
Definition signed_xml (doc : str) : option (list XmlLogEntry) :=
  if str_eqb doc (u8 "<log main/>")
  then Some [log_entry "x" "05"; log_entry "-1" "07"]
  else aggregation_xml doc.

Definition signed_os : OS :=
  scripted_os (fun _ c => aggregation_respond [] c)
    (fun _ _ => true) (fun _ _ => true) (fun _ => None) signed_xml.

Definition r_word : RevisionChange := change_of "x" "05".
Definition r_minus : RevisionChange := change_of "-1" "07".

(* ================================================================== *)
(** * Part II: properties                                              *)
(* ================================================================== *)

Unset Implicit Arguments.
Arguments u8 : simpl never.

(** ** The monad *)

Section MonadFacts.
Context {os : OS}.

Lemma bind_Ok {A B} (m : M A) (k : A -> M B) (st st1 : state) (a : A) :
  m st = (Ok a, st1) -> bind m k st = k a st1.
Proof. intros E. unfold bind. rewrite E. reflexivity. Qed.

Lemma bind_Raise {A B} (m : M A) (k : A -> M B) (st st1 : state) (e : exn) :
  m st = (Raise e, st1) -> bind m k st = (Raise e, st1).
Proof. intros E. unfold bind. rewrite E. reflexivity. Qed.

Lemma bind_OutOfFuel {A B} (m : M A) (k : A -> M B) (st st1 : state) :
  m st = (OutOfFuel, st1) -> bind m k st = (OutOfFuel, st1).
Proof. intros E. unfold bind. rewrite E. reflexivity. Qed.

Lemma bind_ask {A B} (f : world -> A) (k : A -> M B) (st : state) :
  bind (ask f) k st = k (f (st_world st)) st.
Proof. reflexivity. Qed.

Lemma bind_Ok_inv {A B} (m : M A) (k : A -> M B) (st st' : state) (b : B) :
  bind m k st = (Ok b, st') ->
  exists a st1, m st = (Ok a, st1) /\ k a st1 = (Ok b, st').
Proof.
  unfold bind. destruct (m st) as [[a|e|] st1]; intros H;
    try discriminate H. eauto.
Qed.

End MonadFacts.

(** ** The command executor *)

Section ExecutorFacts.
Context {os : OS}.

Lemma run_cmd_unfold (args : list str) (cwd : option str) (check : bool)
    (st : state) :
  run_cmd args cwd check st =
  let call := mkCall args cwd None in
  let proc := fst (subprocess_run call (st_world st)) in
  let st' := mkState (snd (subprocess_run call (st_world st)))
               (st_trace st ++ [EvRun call]) in
  if check && negb (returncode proc =? 0)%Z
  then (Raise (VCSException
                 (run_cmd_message args (returncode proc)
                    (proc_stdout proc) (proc_stderr proc))), st')
  else (Ok (returncode proc, proc_stdout proc, proc_stderr proc), st').
Proof.
  unfold run_cmd, bind, emit; simpl.
  destruct (subprocess_run _ _) as [proc w']; simpl.
  destruct (check && _); reflexivity.
Qed.

Lemma run_cmd_trace (args : list str) (cwd : option str) (check : bool)
    (st : state) :
  st_trace (snd (run_cmd args cwd check st))
  = st_trace st ++ [EvRun (mkCall args cwd None)].
Proof.
  rewrite run_cmd_unfold; simpl.
  destruct (check && _); reflexivity.
Qed.

Lemma run_cmd_unchecked (args : list str) (cwd : option str) (st : state) :
  exists code out err st',
    run_cmd args cwd false st = (Ok (code, out, err), st')
    /\ (code, out, err)
       = (let proc := fst (subprocess_run (mkCall args cwd None)
                             (st_world st)) in
          (returncode proc, proc_stdout proc, proc_stderr proc))
    /\ st_trace st' = st_trace st ++ [EvRun (mkCall args cwd None)].
Proof.
  rewrite run_cmd_unfold; simpl. do 4 eexists. repeat split.
Qed.

End ExecutorFacts.

(** C8. [run_cmd] spawns one process and, when [check] is not requested,
    returns its exit code with the captured stdout and stderr whatever
    the exit code is; with [check], a nonzero exit raises the executor's
    exception, whose message ends with the captured stderr; a zero exit
    returns normally in both modes. *)
Theorem run_cmd_exit_policy :
  forall (os : OS) (args : list str) (cwd : option str) (check : bool)
         (st : state),
    let proc := fst (subprocess_run (mkCall args cwd None) (st_world st)) in
    let outcome := fst (run_cmd args cwd check st) in
    st_trace (snd (run_cmd args cwd check st))
      = st_trace st ++ [EvRun (mkCall args cwd None)]
    /\ (check = false ->
        outcome = Ok (returncode proc, proc_stdout proc, proc_stderr proc))
    /\ (returncode proc = 0%Z ->
        outcome = Ok (returncode proc, proc_stdout proc, proc_stderr proc))
    /\ (check = true -> returncode proc <> 0%Z ->
        exists prefix,
          outcome = Raise (VCSException (prefix ++ proc_stderr proc))).
Proof.
  intros os args cwd check st proc outcome.
  split; [apply run_cmd_trace|].
  subst outcome proc. rewrite run_cmd_unfold. cbv zeta.
  repeat split.
  - intros ->. reflexivity.
  - intros H. rewrite H. simpl. rewrite andb_false_r. reflexivity.
  - intros -> Hne. apply Z.eqb_neq in Hne. rewrite Hne. simpl.
    unfold run_cmd_message.
    eexists. repeat rewrite app_assoc. reflexivity.
Qed.

Lemma run_cmd_exit_policy_witness :
  let call := mkCall [u8 "svn"; u8 "update"] (Some (u8 "/wc")) None in
  let proc := fst (@subprocess_run failing_os call []) in
  returncode proc <> 0%Z
  /\ fst (@run_cmd failing_os (argv call) (cwd call) false
            (initial_state failing_os []))
     = Ok (returncode proc, proc_stdout proc, proc_stderr proc)
  /\ exists prefix,
       fst (@run_cmd failing_os (argv call) (cwd call) true
              (initial_state failing_os []))
       = Raise (VCSException (prefix ++ proc_stderr proc)).
Proof.
  intros call proc.
  pose proof (@run_cmd_exit_policy failing_os (argv call) (cwd call) false
                (initial_state failing_os [])) as Hplain.
  pose proof (@run_cmd_exit_policy failing_os (argv call) (cwd call) true
                (initial_state failing_os [])) as Hstrict.
  assert (Hne : returncode proc <> 0%Z) by (vm_compute; discriminate).
  split; [exact Hne|]. split.
  - exact (proj1 (proj2 Hplain) eq_refl).
  - exact (proj2 (proj2 (proj2 Hstrict)) eq_refl Hne).
Defined.

(** ** The lock recovery *)

Section LockRecoveryFacts.
Context {os : OS}.

Lemma cleanup_plain_trace (self : SvnOps) (st : state) :
  exists st', cleanup self false st = (Ok tt, st')
    /\ st_trace st' = st_trace st ++ [EvRun (cleanup_call self)].
Proof.
  unfold cleanup, bind.
  destruct (run_cmd_unchecked [u8 "svn"; u8 "cleanup"]
              (Some (repo_path self)) st)
    as (code & out & err & st' & -> & _ & Htr).
  exists st'. split; [reflexivity | exact Htr].
Qed.

Lemma svn_trace (self : SvnOps) (args : list str) (check : bool)
    (st : state) :
  st_trace (snd (_svn self args check st))
  = st_trace st
    ++ svn_events self args
         (fst (subprocess_run (svn_call self args) (st_world st))).
Proof.
  unfold _svn, svn_events, bind at 1. simpl.
  unfold bind at 1.
  set (st0 := mkState (st_world st)
                (st_trace st ++ [EvSvn (repo_path self) args])).
  rewrite (run_cmd_unfold (u8 "svn" :: args) (Some (repo_path self)) false
             st0).
  simpl. fold (svn_call self args).
  set (first := fst (subprocess_run (svn_call self args) (st_world st))).
  set (st1 := mkState _ _).
  unfold bind at 1.
  destruct (negb (returncode first =? 0)%Z && locked (proc_stderr first)).
  - unfold bind at 1.
    destruct (cleanup_plain_trace self st1) as (st2 & -> & Htr2).
    rewrite run_cmd_unfold. simpl.
    match goal with
    | |- context [if ?c then _ else _] => destruct c
    end; simpl; rewrite Htr2; subst st1; simpl;
      rewrite <- !app_assoc; reflexivity.
  - unfold ret at 1.
    match goal with
    | |- context [if ?c then _ else _] => destruct c
    end; simpl; rewrite <- !app_assoc; reflexivity.
Qed.

End LockRecoveryFacts.

(** The outcome and the trace of [_svn], in one equation *)

Section SvnOutcomeFacts.
Context {os : OS}.

Lemma svn_unfold (self : SvnOps) (args : list str) (check : bool)
    (st : state) :
  let cmd := svn_call self args in
  let first := fst (subprocess_run cmd (st_world st)) in
  let w1 := snd (subprocess_run cmd (st_world st)) in
  let recover := negb (returncode first =? 0)%Z && locked (proc_stderr first) in
  let w2 := snd (subprocess_run (cleanup_call self) w1) in
  let second := fst (subprocess_run cmd w2) in
  let w3 := snd (subprocess_run cmd w2) in
  let final := if recover then second else first in
  _svn self args check st
  = (if check && negb (returncode final =? 0)%Z
     then Raise (VCSException
                   (svn_message (u8 "svn" :: args) (returncode final)
                      (proc_stdout final) (proc_stderr final)))
     else Ok (returncode final, proc_stdout final, proc_stderr final),
     mkState (if recover then w3 else w1)
       (st_trace st ++ svn_events self args first)).
Proof.
  intros cmd first w1 recover w2 second w3 final.
  subst final second w3 w2 recover w1 first cmd.
  unfold svn_events, svn_call, cleanup_call.
  cbn [argv cwd ssh_command].
  unfold _svn, cleanup, bind, emit. cbn [st_world st_trace].
  rewrite run_cmd_unfold. cbn [andb st_world st_trace fst snd].
  destruct (negb _ && locked _); cbv beta iota.
  - rewrite run_cmd_unfold. cbn [andb st_world st_trace fst snd].
    unfold ret at 1.
    rewrite run_cmd_unfold. cbn [andb st_world st_trace fst snd].
    match goal with
    | |- context [if ?c then _ else _] => destruct c
    end; unfold raise, ret; rewrite <- !app_assoc; reflexivity.
  - unfold ret at 1.
    match goal with
    | |- context [if ?c then _ else _] => destruct c
    end; unfold raise, ret; rewrite <- !app_assoc; reflexivity.
Qed.

Lemma svn_returns (self : SvnOps) (args : list str) (check : bool)
    (st : state) :
  fst (_svn self args check st) <> OutOfFuel.
Proof.
  rewrite svn_unfold. cbv zeta. cbn [fst].
  match goal with
  | |- context [if ?c then _ else _] => destruct c
  end; discriminate.
Qed.

End SvnOutcomeFacts.



(** ** Lines *)

Lemma not_linebreak_not_cr (c : N) :
  is_linebreak c = false -> (c =? 13) = false.
Proof.
  intros H. destruct (N.eqb_spec c 13) as [->|]; [discriminate H | reflexivity].
Qed.

Lemma splitlines_go_one_line (l cur rest : str) :
  one_line l ->
  splitlines_go cur (l ++ rest) = splitlines_go (rev l ++ cur) rest.
Proof.
  intros Hl. revert cur.
  induction Hl as [|c l Hc Hl IH]; intros cur; [reflexivity|].
  cbn [app splitlines_go]. rewrite (not_linebreak_not_cr _ Hc), Hc, IH.
  cbn [rev]. rewrite <- app_assoc. reflexivity.
Qed.

Lemma splitlines_go_lf (cur rest : str) :
  splitlines_go cur (LF :: rest) = rev cur :: splitlines_go [] rest.
Proof. reflexivity. Qed.

Lemma splitlines_go_join (l : str) (ls : list str) (cur : str) :
  Forall one_line (l :: ls) ->
  last (l :: ls) [] <> [] ->
  splitlines_go cur (join NL (l :: ls)) = (rev cur ++ l) :: ls.
Proof.
  revert l cur. induction ls as [|l' ls IH]; intros l cur Hall Hlast.
  - cbn [join]. rewrite <- (app_nil_r l) at 1.
    rewrite splitlines_go_one_line by (inversion Hall; assumption).
    cbn [splitlines_go]. cbn [last] in Hlast.
    destruct (rev l ++ cur) eqn:E.
    + apply app_eq_nil in E. destruct E as [E _].
      apply (f_equal (@rev N)) in E. rewrite rev_involutive in E.
      contradiction.
    + rewrite <- E, rev_app_distr, rev_involutive. reflexivity.
  - change (join NL (l :: l' :: ls)) with (l ++ NL ++ join NL (l' :: ls)).
    rewrite splitlines_go_one_line by (inversion Hall; assumption).
    unfold NL. cbn [app]. rewrite splitlines_go_lf.
    rewrite IH.
    + rewrite rev_app_distr, rev_involutive. reflexivity.
    + inversion Hall; assumption.
    + exact Hlast.
Qed.

Lemma splitlines_join (ls : list str) (final : str) :
  Forall one_line ls -> one_line final -> final <> [] ->
  splitlines (join NL (ls ++ [final])) = ls ++ [final].
Proof.
  intros Hls Hf Hne. unfold splitlines.
  destruct ls as [|l ls].
  - apply (splitlines_go_join final [] []); [repeat constructor; assumption|].
    exact Hne.
  - cbn [app]. apply (splitlines_go_join l (ls ++ [final]) []).
    + inversion Hls; subst. constructor; [assumption|].
      apply Forall_app. split; [assumption | repeat constructor; assumption].
    + change (l :: ls ++ [final]) with ((l :: ls) ++ [final]).
      rewrite last_last. exact Hne.
Qed.

(** Every line [splitlines] produces is free of line boundaries. *)
Lemma splitlines_go_lines (n : nat) :
  forall (s cur : str), (List.length s <= n)%nat ->
    one_line cur -> Forall one_line (splitlines_go cur s).
Proof.
  induction n as [|n IH]; intros s cur Hlen Hcur.
  - destruct s; [|simpl in Hlen; lia]. simpl.
    destruct cur; [constructor|].
    repeat constructor. apply Forall_rev. exact Hcur.
  - destruct s as [|c s].
    + simpl. destruct cur; [constructor|].
      repeat constructor. apply Forall_rev. exact Hcur.
    + assert (Hrev : one_line (rev cur)) by (apply Forall_rev; exact Hcur).
      simpl in Hlen. cbn [splitlines_go].
      destruct (c =? 13) eqn:Ecr.
      * destruct s as [|d s].
        -- constructor; [exact Hrev|]. apply IH; [simpl; lia | constructor].
        -- assert (Hrest : Forall one_line (splitlines_go [] (d :: s)))
             by (apply IH; [simpl in *; lia | constructor]).
           assert (Hrest' : Forall one_line (splitlines_go [] s))
             by (apply IH; [simpl in *; lia | constructor]).
           destruct d as [|p]; [constructor; assumption|].
           repeat (destruct p as [p|p|]; try (constructor; assumption)).
      * destruct (is_linebreak c) eqn:Elb.
        -- constructor; [exact Hrev|]. apply IH; [lia | constructor].
        -- apply IH; [lia|]. constructor; assumption.
Qed.

Lemma splitlines_lines (s : str) : Forall one_line (splitlines s).
Proof.
  apply (splitlines_go_lines (List.length s)); [lia | constructor].
Qed.

Lemma str_of_uint_one_line (u : Decimal.uint) : one_line (str_of_uint u).
Proof.
  induction u; simpl; constructor; try reflexivity; assumption.
Qed.

Lemma str_of_Z_one_line (z : Z) : one_line (str_of_Z z).
Proof.
  unfold str_of_Z. destruct (Z.to_int z).
  - apply str_of_uint_one_line.
  - constructor; [reflexivity | apply str_of_uint_one_line].
Qed.

Lemma truncation_marker_one_line (k : Z) :
  one_line (truncation_marker k) /\ truncation_marker k <> [].
Proof.
  unfold truncation_marker. split.
  - apply Forall_app. split.
    + vm_compute. repeat constructor.
    + apply Forall_app. split; [apply str_of_Z_one_line|].
      vm_compute. repeat constructor.
  - vm_compute. discriminate.
Qed.

(** ** Decimal numerals *)

Lemma dropwhile_head (p : N -> bool) (c : N) (s : str) :
  p c = false -> dropwhile p (c :: s) = c :: s.
Proof. intros H. simpl. rewrite H. reflexivity. Qed.

Lemma strip_by_clean (p : N -> bool) (s : str) :
  Forall (fun c => p c = false) s -> strip_by p s = s.
Proof.
  intros H. unfold strip_by, rstrip_by, lstrip_by.
  assert (Hd : forall t, Forall (fun c => p c = false) t -> dropwhile p t = t).
  { intros t Ht. destruct Ht; [reflexivity|]. apply dropwhile_head.
    assumption. }
  rewrite (Hd s H), (Hd (rev s)) by (apply Forall_rev; exact H).
  apply rev_involutive.
Qed.

Lemma str_of_uint_digits (u : Decimal.uint) :
  Forall (fun c => is_digit c = true) (str_of_uint u).
Proof. induction u; simpl; constructor; try reflexivity; assumption. Qed.

Lemma digit_not_space (c : N) : is_digit c = true -> is_space c = false.
Proof.
  unfold is_digit, is_space. intros H.
  apply andb_true_iff in H. destruct H as [H1 H2].
  apply N.leb_le in H1. apply N.leb_le in H2.
  repeat match goal with
         | |- context [(?a <=? ?b)] =>
             destruct (N.leb_spec a b); try lia
         | |- context [(?a =? ?b)] =>
             destruct (N.eqb_spec a b); try lia
         end; reflexivity.
Qed.

Lemma digit_not_int_space (c : N) :
  is_digit c = true -> int_space c = false.
Proof.
  unfold is_digit, int_space. intros H.
  apply andb_true_iff in H. destruct H as [H1 H2].
  apply N.leb_le in H1. apply N.leb_le in H2.
  destruct (N.leb_spec 9 c), (N.leb_spec c 13), (N.eqb_spec c 32),
    (N.leb_spec 128 c); try lia; reflexivity.
Qed.

Lemma parse_digits_digit (acc d : Z) (b : bool) (c : N) (s : str) :
  digit_val c = Some d -> (c =? 95) = false ->
  parse_digits acc b (c :: s) = parse_digits (acc * 10 + d) true s.
Proof. intros Hd H95. cbn [parse_digits]. rewrite H95, Hd. reflexivity. Qed.

Lemma parse_digits_numeral (u : Decimal.uint) :
  forall (acc : Z) (b : bool),
    (u <> Decimal.Nil \/ b = true) ->
    parse_digits acc b (str_of_uint u) = Some (uint_val acc u).
Proof.
  induction u; intros acc b Hb; cbn [str_of_uint uint_val];
    try (erewrite parse_digits_digit by (vm_compute; reflexivity);
         apply IHu; right; reflexivity).
  simpl. destruct Hb as [Hb| ->]; [contradiction | reflexivity].
Qed.

Lemma of_uint_acc_val (u : Decimal.uint) :
  forall acc : positive,
    Z.pos (Pos.of_uint_acc u acc) = uint_val (Z.pos acc) u.
Proof.
  induction u; intros acc; cbn [Pos.of_uint_acc uint_val];
    try reflexivity; rewrite IHu; f_equal; lia.
Qed.

Lemma of_uint_val (u : Decimal.uint) :
  Z.of_N (Pos.of_uint u) = uint_val 0 u.
Proof.
  induction u; cbn [Pos.of_uint uint_val]; try reflexivity;
    try exact IHu; cbn [Z.of_N]; rewrite of_uint_acc_val; reflexivity.
Qed.

Lemma int_of_numeral (p : positive) :
  parse_digits 0 false (str_of_uint (Pos.to_uint p)) = Some (Z.pos p).
Proof.
  rewrite parse_digits_numeral by (left; apply Unsigned.to_uint_nonnil).
  rewrite <- of_uint_val, Unsigned.of_to. reflexivity.
Qed.

(** [int(str(z)) == z] *)
Lemma int_str_of_Z (z : Z) : int (str_of_Z z) = Some z.
Proof.
  destruct z as [|p|p]; [reflexivity| |]; unfold int, str_of_Z;
    cbn [Z.to_int].
  - rewrite strip_by_clean.
    2:{ eapply Forall_impl; [|apply str_of_uint_digits].
        intros c. apply digit_not_int_space. }
    pose proof (str_of_uint_digits (Pos.to_uint p)) as Hd.
    pose proof (int_of_numeral p) as Hp.
    destruct (str_of_uint (Pos.to_uint p)) as [|c s]; [exact Hp|].
    inversion Hd as [|? ? Hc _]; subst.
    unfold is_digit in Hc. apply andb_true_iff in Hc.
    destruct Hc as [H1 H2]. apply N.leb_le in H1. apply N.leb_le in H2.
    destruct (N.eq_dec c 43) as [->|]; [lia|].
    destruct (N.eq_dec c 45) as [->|]; [lia|].
    destruct c as [|q]; [lia|].
    do 6 (destruct q as [q|q|]; try exact Hp); lia.
  - rewrite strip_by_clean.
    2:{ constructor; [reflexivity|].
        eapply Forall_impl; [|apply str_of_uint_digits].
        intros c. apply digit_not_int_space. }
    rewrite int_of_numeral. reflexivity.
Qed.

Lemma Forall_firstn_keeps (A : Type) (P : A -> Prop) (n : nat) (l : list A) :
  Forall P l -> Forall P (firstn n l).
Proof.
  intros H. revert n. induction H; intros [|n]; simpl; auto.
Qed.

Lemma cap_diff_over (out : str) (n : Z) :
  (0 <= n)%Z -> (n < Z.of_nat (List.length (splitlines out)))%Z ->
  cap_diff out n
  = join NL (firstn (Z.to_nat n) (splitlines out)
             ++ [truncation_marker
                   (Z.of_nat (List.length (splitlines out)) - n)]).
Proof.
  intros H0 Hlt. unfold cap_diff, slice_to.
  apply Z.ltb_lt in Hlt. rewrite Hlt.
  apply Z.leb_le in H0. rewrite H0. reflexivity.
Qed.

Lemma cap_diff_within (out : str) (n : Z) :
  (Z.of_nat (List.length (splitlines out)) <= n)%Z -> cap_diff out n = out.
Proof.
  intros Hle. unfold cap_diff.
  destruct (Z.ltb_spec n (Z.of_nat (List.length (splitlines out))));
    [lia | reflexivity].
Qed.

(** C7. For a line cap [n] (a count, so not negative) and a diff of [m]
    lines: when [m > n], [get_diff] returns the first [n] lines followed
    by one marker line that carries the decimal numeral of [m - n],
    joined by line feeds, and that text splits back into exactly these
    [n + 1] lines;
    when [m <= n], it returns the output of [svn diff] unchanged. *)
Theorem get_diff_line_cap :
  forall (os : OS) (self : SvnOps) (revision : str) (file_path : option str)
         (n : Z) (st st' : state) (code : Z) (out err : str),
    (0 <= n)%Z ->
    _svn self (diff_args revision file_path) true st
      = (Ok (code, out, err), st') ->
    let lines := splitlines out in
    let m := Z.of_nat (List.length lines) in
    ((n < m)%Z ->
       let content := firstn (Z.to_nat n) lines in
       let text := join NL (content ++ [truncation_marker (m - n)]) in
       get_diff self revision file_path n st = (Ok text, st')
       /\ Z.of_nat (List.length content) = n
       /\ splitlines text = content ++ [truncation_marker (m - n)]
       /\ truncation_marker (m - n)
          = u8 "...(剩余 " ++ str_of_Z (m - n) ++ u8 " 行已截断)"
       /\ int (str_of_Z (m - n)) = Some (m - n)%Z)
    /\ ((m <= n)%Z ->
        get_diff self revision file_path n st = (Ok out, st')).
Proof.
  intros os self revision file_path n st st' code out err H0 Hsvn lines m.
  assert (Hget : get_diff self revision file_path n st
                 = (Ok (cap_diff out n), st')).
  { unfold get_diff, bind. rewrite Hsvn. reflexivity. }
  split.
  - intros Hlt content text. repeat split.
    + rewrite Hget. unfold text, content, m, lines.
      rewrite cap_diff_over by assumption. reflexivity.
    + unfold content. rewrite length_firstn. subst m. lia.
    + unfold text. apply splitlines_join.
      * unfold content. apply Forall_firstn_keeps, splitlines_lines.
      * apply truncation_marker_one_line.
      * apply truncation_marker_one_line.
    + apply int_str_of_Z.
  - intros Hle. rewrite Hget, cap_diff_within by assumption. reflexivity.
Qed.

Lemma get_diff_line_cap_witness :
  let self := SvnOps_init (u8 "/wc") in
  let st := initial_state diff_os [] in
  let st' := snd (@_svn diff_os self (diff_args (u8 "7") None) true st) in
  let lines := splitlines three_line_diff in
  (List.length lines = 3%nat)
  /\ @get_diff diff_os self (u8 "7") None 2 st
     = (Ok (join NL (firstn 2 lines ++ [truncation_marker (3 - 2)])), st')
  /\ @get_diff diff_os self (u8 "7") None 5 st = (Ok three_line_diff, st').
Proof.
  intros self st st' lines.
  assert (Hsvn : @_svn diff_os self (diff_args (u8 "7") None) true st
                 = (Ok (0%Z, three_line_diff, []), st'))
    by (vm_compute; reflexivity).
  split; [reflexivity|]. split.
  - apply (proj1 (@get_diff_line_cap diff_os self (u8 "7") None 2%Z st st'
                    0%Z three_line_diff [] ltac:(lia) Hsvn)).
    vm_compute. reflexivity.
  - apply (proj2 (@get_diff_line_cap diff_os self (u8 "7") None 5%Z st st'
                    0%Z three_line_diff [] ltac:(lia) Hsvn)).
    vm_compute. discriminate.
Defined.

(** ** The stable sort *)

Section SortedFacts.
Context {A : Type} (key : A -> Z).

Lemma insert_by_perm (x : A) (l : list A) :
  Permutation (insert_by key x l) (x :: l).
Proof.
  induction l as [|y l IH]; simpl; [reflexivity|].
  destruct (key x <=? key y)%Z; [reflexivity|].
  rewrite IH. apply perm_swap.
Qed.

Lemma sorted_perm (l : list A) : Permutation (sorted key l) l.
Proof.
  induction l as [|x l IH]; simpl; [reflexivity|].
  rewrite insert_by_perm. constructor. exact IH.
Qed.

Lemma insert_by_sorted (x : A) (l : list A) :
  StronglySorted (key_le key) l -> StronglySorted (key_le key) (insert_by key x l).
Proof.
  induction 1 as [|y l Hs IH Hall]; simpl.
  - repeat constructor.
  - destruct (Z.leb_spec (key x) (key y)) as [Hle|Hgt].
    + constructor; [constructor; assumption|].
      constructor; [exact Hle|].
      eapply Forall_impl; [|exact Hall].
      unfold key_le; intros; lia.
    + constructor; [exact IH|].
      eapply Permutation_Forall; [symmetry; apply insert_by_perm|].
      constructor; [unfold key_le; lia | exact Hall].
Qed.

Lemma sorted_sorted (l : list A) : StronglySorted (key_le key) (sorted key l).
Proof.
  induction l as [|x l IH]; simpl; [constructor|].
  apply insert_by_sorted. exact IH.
Qed.

(** Stability: the elements of any one key keep their input order. *)
Lemma insert_by_stable (k : Z) (x : A) (l : list A) :
  StronglySorted (key_le key) l ->
  filter (fun y => (key y =? k)%Z) (insert_by key x l)
  = filter (fun y => (key y =? k)%Z) (x :: l).
Proof.
  induction 1 as [|y l Hs IH Hall]; [reflexivity|].
  cbn [insert_by].
  destruct (Z.leb_spec (key x) (key y)) as [Hle|Hgt]; [reflexivity|].
  cbn [filter] in *. rewrite IH.
  destruct (Z.eqb_spec (key x) k) as [Hx|Hx];
    destruct (Z.eqb_spec (key y) k) as [Hy|Hy]; try reflexivity.
  lia.
Qed.

Lemma sorted_stable (k : Z) (l : list A) :
  filter (fun y => (key y =? k)%Z) (sorted key l)
  = filter (fun y => (key y =? k)%Z) l.
Proof.
  induction l as [|x l IH]; [reflexivity|].
  cbn [sorted]. rewrite insert_by_stable by apply sorted_sorted.
  cbn [filter]. rewrite IH. reflexivity.
Qed.

Lemma strongly_sorted_precedes (x y : A) (l : list A) :
  StronglySorted (key_le key) l -> precedes x y l -> (key x <= key y)%Z.
Proof.
  intros Hs (l1 & l2 & l3 & ->).
  induction l1 as [|z l1 IH]; simpl in Hs.
  - inversion Hs as [|? ? _ Hall]; subst.
    rewrite Forall_forall in Hall. apply Hall.
    apply in_or_app. right. left. reflexivity.
  - inversion Hs; subst. auto.
Qed.

Lemma smaller_key_first (x y : A) (l : list A) :
  In x l -> In y l -> (key x < key y)%Z ->
  precedes x y (sorted key l) /\ ~ precedes y x (sorted key l).
Proof.
  intros Hx Hy Hlt.
  assert (Hnot : ~ precedes y x (sorted key l)).
  { intros Hp. apply strongly_sorted_precedes in Hp; [lia|].
    apply sorted_sorted. }
  split; [|exact Hnot].
  assert (Hx' : In x (sorted key l))
    by (eapply Permutation_in; [symmetry; apply sorted_perm | exact Hx]).
  assert (Hy' : In y (sorted key l))
    by (eapply Permutation_in; [symmetry; apply sorted_perm | exact Hy]).
  destruct (in_split _ _ Hx') as (l1 & l2 & E).
  rewrite E in Hy'. apply in_app_or in Hy'.
  destruct Hy' as [Hy1 | [Hyx | Hy2]].
  - exfalso. apply Hnot. destruct (in_split _ _ Hy1) as (a & b & ->).
    exists a, b, l2. rewrite E, <- app_assoc. reflexivity.
  - subst y. lia.
  - destruct (in_split _ _ Hy2) as (a & b & ->).
    exists l1, a, b. exact E.
Qed.

End SortedFacts.

(** ** Path depth *)

Lemma count_char_app (c : N) (a b : str) :
  count_char c (a ++ b) = (count_char c a + count_char c b)%nat.
Proof. unfold count_char. rewrite filter_app, length_app. reflexivity. Qed.

Lemma parent_path_is_shallower (p q : str) :
  parent_path p q -> (_depth p < _depth q)%Z.
Proof.
  intros (rest & E). unfold _depth. rewrite E.
  rewrite !count_char_app.
  change (count_char SLASH [SLASH]) with 1%nat. lia.
Qed.

(** ** The order of the expansions *)

Section SparseFacts.
Context {os : OS}.

Lemma announced_app (a b : list event) :
  announced (a ++ b) = announced a ++ announced b.
Proof.
  induction a as [|[c|r x] a IH]; simpl; [reflexivity | exact IH|].
  rewrite IH. reflexivity.
Qed.

Lemma announced_svn_events (self : SvnOps) (args : list str)
    (first : CompletedProcess) :
  announced (svn_events self args first) = [(repo_path self, args)].
Proof.
  unfold svn_events. destruct (_ && _); reflexivity.
Qed.

Lemma svn_announced (self : SvnOps) (args : list str) (check : bool)
    (st : state) :
  announced (st_trace (snd (_svn self args check st)))
  = announced (st_trace st) ++ [(repo_path self, args)].
Proof.
  rewrite svn_trace, announced_app, announced_svn_events. reflexivity.
Qed.

Lemma svn_block_events (self : SvnOps) (args : list str)
    (first : CompletedProcess) :
  svn_block self args (svn_events self args first).
Proof.
  unfold svn_block, svn_events. destruct (_ && _); [right | left];
    reflexivity.
Qed.

Lemma svn_block_trace (self : SvnOps) (args : list str) (check : bool)
    (st : state) :
  exists evs,
    svn_block self args evs
    /\ st_trace (snd (_svn self args check st)) = st_trace st ++ evs.
Proof.
  eexists. split; [apply svn_block_events | apply svn_trace].
Qed.

Lemma expand_loop_trace (ops : SvnOps) (l : list PathRule) :
  forall st : state,
    let r := for_each l (fun item => _svn ops (expand_args item) true ;; ret tt)
               st in
    exists blocks done rest,
      l = done ++ rest
      /\ st_trace (snd r) = st_trace st ++ List.concat blocks
      /\ expansion_blocks ops done blocks
      /\ (fst r = Ok tt -> rest = [])
      /\ fst r <> OutOfFuel.
Proof.
  unfold expansion_blocks.
  induction l as [|x l IH]; intros st; cbv zeta in *.
  - exists [], [], []. simpl. rewrite app_nil_r.
    repeat split; [constructor | discriminate].
  - cbn [for_each].
    destruct (svn_block_trace ops (expand_args x) true st) as (evs & Hb & Hx).
    pose proof (svn_returns ops (expand_args x) true st) as Hfuel.
    destruct (_svn ops (expand_args x) true st) as [[v|e|] st1] eqn:E;
      cbn [fst snd] in Hx, Hfuel.
    + rewrite (bind_Ok _ _ st st1 tt)
        by (rewrite (bind_Ok _ _ _ _ _ E); reflexivity).
      destruct (IH st1) as (blocks & done & rest & Hl & Htr & Hbs & Hok & Hf).
      exists (evs :: blocks), (x :: done), rest.
      split; [rewrite Hl; reflexivity|].
      split; [rewrite Htr, Hx; cbn [List.concat];
              rewrite <- app_assoc; reflexivity|].
      split; [constructor; assumption|].
      split; assumption.
    + rewrite (bind_Raise _ _ st st1 e)
        by (rewrite (bind_Raise _ _ _ _ _ E); reflexivity).
      exists [evs], [x], l. cbn [fst snd List.concat]. rewrite app_nil_r.
      split; [reflexivity|]. split; [exact Hx|].
      split; [constructor; [exact Hb | constructor]|].
      split; discriminate.
    + exfalso. apply Hfuel. reflexivity.
Qed.

(** What is known of a run of one project with a repository and a root
    path, started in [st] and ended as [r] *)
Lemma sparse_project_trace (self : SvnOps) (name : str) (proj : Project)
    (st : state) :
  let ops := project_ops self proj in
  let r := sparse_project self name proj st in
  (project_valid proj = false ->
   r = (Raise (VCSException
                 (u8 "project " ++ name ++ u8 " 缺少 repo_url 或 root_path")),
        st))
  /\ (project_valid proj = true ->
      exists co blocks done rest,
        sorted_paths (paths proj) = done ++ rest
        /\ st_trace (snd r) = st_trace st ++ co ++ List.concat blocks
        /\ expansion_blocks ops done blocks
        /\ (path_isdir (path_join (repo_path ops) (u8 ".svn")) (st_world st)
            = true -> co = [])
        /\ (path_isdir (path_join (repo_path ops) (u8 ".svn")) (st_world st)
            = false -> svn_block ops (root_checkout_args self proj) co)
        /\ (fst r = Ok tt -> rest = [])
        /\ fst r <> OutOfFuel).
Proof.
  intros ops r. subst ops r.
  unfold sparse_project, project_valid, project_ops, root_checkout_args,
    project_ops, expansion_blocks.
  destruct (repo_url proj) as [url|];
    [|split; [reflexivity | discriminate]].
  destruct (root_path proj) as [root|] eqn:Eroot;
    [|split; [intros _; reflexivity
             | cbn [truthy_opt]; rewrite andb_false_r; discriminate]].
  cbn [truthy_opt default_to].
  destruct (truthy url); cbn [negb orb andb];
    [|split; [reflexivity | discriminate]].
  destruct (truthy root); cbn [negb];
    [|split; [reflexivity | discriminate]].
  split; [discriminate|]. intros _.
  set (ops := SvnOps_init (path_join (repo_path self) root)).
  change (path_join (repo_path self) root) with (repo_path ops).
  set (loop := match paths proj with
               | [] => ret tt
               | _ :: _ =>
                   for_each (sorted_paths (paths proj))
                     (fun item => _svn ops (expand_args item) true ;; ret tt)
               end).
  assert (Hloop : forall st1 : state,
            exists blocks done rest,
              sorted_paths (paths proj) = done ++ rest
              /\ st_trace (snd (loop st1))
                 = st_trace st1 ++ List.concat blocks
              /\ expansion_blocks ops done blocks
              /\ (fst (loop st1) = Ok tt -> rest = [])
              /\ fst (loop st1) <> OutOfFuel).
  { intros st1. subst loop. destruct (paths proj) as [|p ps] eqn:Ep.
    - exists [], [], []. simpl. rewrite app_nil_r.
      repeat split; [constructor | discriminate].
    - apply expand_loop_trace. }
  unfold is_working_copy. rewrite bind_ask.
  destruct (path_isdir _ _) eqn:Ewc; cbn [negb].
  - rewrite (bind_Ok _ _ st st tt) by reflexivity.
    destruct (Hloop st) as (blocks & done & rest & Hs & Htr & Hbs & Hok & Hf).
    exists [], blocks, done, rest. cbn [app].
    repeat split; auto. discriminate.
  - set (st0 := mkState (os_makedirs (repo_path ops) (st_world st))
                  (st_trace st)).
    set (co_args := [u8 "checkout"; url; repo_path ops; u8 "--depth";
                     default_to (u8 "infinity") (root_depth proj)]).
    destruct (svn_block_trace ops co_args true st0) as (co & Hb & Hco).
    pose proof (svn_returns ops co_args true st0) as Hfuel.
    destruct (_svn ops co_args true st0) as [[v|e|] st1] eqn:E;
      cbn [fst snd] in Hco, Hfuel.
    + rewrite (bind_Ok _ _ st st1 tt).
      * destruct (Hloop st1)
          as (blocks & done & rest & Hs & Htr & Hbs & Hok & Hf).
        exists co, blocks, done, rest.
        split; [exact Hs|].
        split; [rewrite Htr, Hco; cbn [st0 st_trace];
                rewrite <- app_assoc; reflexivity|].
        split; [exact Hbs|]. split; [discriminate|].
        split; [intros _; exact Hb|]. split; assumption.
      * rewrite (bind_Ok _ _ st st0 tt) by reflexivity.
        rewrite (bind_Ok _ _ _ _ _ E). reflexivity.
    + rewrite (bind_Raise _ _ st st1 e).
      * exists co, [], [], (sorted_paths (paths proj)).
        cbn [fst snd List.concat app]. rewrite app_nil_r.
        split; [reflexivity|]. split; [exact Hco|].
        split; [constructor|]. split; [discriminate|].
        split; [intros _; exact Hb|]. split; discriminate.
      * rewrite (bind_Ok _ _ st st0 tt) by reflexivity.
        rewrite (bind_Raise _ _ _ _ _ E). reflexivity.
    + exfalso. apply Hfuel. reflexivity.
Qed.

Lemma sparse_project_segment (self : SvnOps) (np : str * Project)
    (st : state) :
  let r := sparse_project self (fst np) (snd np) st in
  fst r <> OutOfFuel
  /\ exists seg,
       st_trace (snd r) = st_trace st ++ seg
       /\ project_segment self np seg
       /\ (fst r = Ok tt -> project_complete self np seg).
Proof.
  intros r. subst r. unfold project_complete, project_segment, project_events.
  destruct (sparse_project_trace self (fst np) (snd np) st) as (Hbad & Hgood).
  destruct (project_valid (snd np)) eqn:Ev.
  - destruct (Hgood eq_refl)
      as (co & blocks & done & rest & Hs & Htr & Hbs & Hwc & Hco & Hok & Hf).
    split; [exact Hf|].
    assert (Hev : project_events self np done (co ++ List.concat blocks)).
    { exists co, blocks. split; [reflexivity|]. split; [exact Hbs|].
      destruct (path_isdir _ _); [left; apply Hwc | right; apply Hco];
        reflexivity. }
    exists (co ++ List.concat blocks). split; [exact Htr|].
    split; [exists done, rest; split; assumption|].
    intros Hr. unfold project_complete. rewrite Hs, (Hok Hr), app_nil_r.
    exact Hev.
  - rewrite (Hbad eq_refl). cbn [fst snd]. split; [discriminate|].
    exists []. rewrite app_nil_r. split; [reflexivity|].
    split; [|discriminate].
    exists [], (sorted_paths (paths (snd np))). split; [reflexivity|].
    exists [], []. split; [reflexivity|]. split; [constructor|].
    left. reflexivity.
Qed.

Lemma profile_trace (self : SvnOps) (ps : list (str * Project)) :
  forall st : state,
    let r := for_each ps (fun np => sparse_project self (fst np) (snd np))
               st in
    exists segs : list (list event),
      st_trace (snd r) = st_trace st ++ List.concat segs
      /\ Forall2 (project_segment self) (firstn (List.length segs) ps) segs
      /\ (fst r = Ok tt -> Forall2 (project_complete self) ps segs)
      /\ fst r <> OutOfFuel.
Proof.
  induction ps as [|np ps IH]; intros st r; subst r.
  - exists []. simpl. rewrite app_nil_r.
    repeat split; [constructor | constructor | discriminate].
  - cbn [for_each].
    destruct (sparse_project_segment self np st)
      as (Hf & seg & Htr & Hseg & Hdone).
    destruct (sparse_project self (fst np) (snd np) st) as [[[]|e|] st1] eqn:E;
      cbn [fst snd] in Htr, Hdone, Hf.
    + rewrite (bind_Ok _ _ _ _ _ E).
      destruct (IH st1) as (segs & Htr' & Hall & Hcomp & Hf').
      exists (seg :: segs). split; [|split; [|split]].
      * rewrite Htr', Htr. cbn [List.concat].
        rewrite <- app_assoc. reflexivity.
      * cbn [List.length firstn]. constructor; [exact Hseg | exact Hall].
      * intros Hok. constructor; [apply Hdone; reflexivity | apply Hcomp, Hok].
      * exact Hf'.
    + rewrite (bind_Raise _ _ _ _ _ E).
      exists [seg]. split; [|split; [|split]].
      * cbn [List.concat snd]. rewrite app_nil_r. exact Htr.
      * cbn [List.length firstn]. constructor; [exact Hseg | constructor].
      * discriminate.
      * discriminate.
    + exfalso. apply Hf. reflexivity.
Qed.

End SparseFacts.

(** C6 (amended). For every project and every order in which its rules
    are listed. A project without a repository or a root path is refused
    before anything runs. Otherwise the run checks the root out when it
    is no working copy yet, and then calls [_svn] for the depth-expanding
    update of each rule, in the order [sorted(paths, key=depth)]: every
    call announces the update and spawns it (twice, around a cleanup,
    when the working copy was locked); all rules are gone through when
    the run ends normally, the ones up to the failing update otherwise.
    That order is a stable ascending rearrangement of the rules by path
    depth, so a rule whose path is a parent directory of another rule's
    path, the other path going on below it with a slash, comes before it
    and never after it; rules of one depth keep the order in which they
    are listed. Rules "a" and "a/b" are expanded in this order whichever
    way they are listed. A run over a whole profile goes through the
    projects in turn, one such sequence for each project it reaches, all
    of them complete when it ends normally. *)
Theorem sparse_expansion_parent_first :
  forall (os : OS) (self : SvnOps) (name : str) (proj : Project)
         (st : state),
    let ops := project_ops self proj in
    let r := sparse_project self name proj st in
    let order := sorted_paths (paths proj) in
    let wc := path_isdir (path_join (repo_path ops) (u8 ".svn"))
                (st_world st) in
    (project_valid proj = false ->
     r = (Raise (VCSException
                   (u8 "project " ++ name ++ u8 " 缺少 repo_url 或 root_path")),
          st))
    /\ (project_valid proj = true ->
        exists co blocks done rest,
          order = done ++ rest
          /\ st_trace (snd r) = st_trace st ++ co ++ List.concat blocks
          /\ expansion_blocks ops done blocks
          /\ (wc = true -> co = [])
          /\ (wc = false -> svn_block ops (root_checkout_args self proj) co)
          /\ (fst r = Ok tt -> rest = [])
          /\ fst r <> OutOfFuel)
    /\ Permutation order (paths proj)
    /\ StronglySorted (key_le (fun x => _depth (pr_path x))) order
    /\ (forall k : Z,
          filter (fun x => (_depth (pr_path x) =? k)%Z) order
          = filter (fun x => (_depth (pr_path x) =? k)%Z) (paths proj))
    /\ (forall x y : PathRule,
          In x (paths proj) -> In y (paths proj) ->
          parent_path (pr_path x) (pr_path y) ->
          precedes x y order /\ ~ precedes y x order)
    /\ (forall da db : option str,
          let a := mkPathRule (u8 "a") da in
          let ab := mkPathRule (u8 "a/b") db in
          sorted_paths [a; ab] = [a; ab] /\ sorted_paths [ab; a] = [a; ab])
    /\ (forall ps : list (str * Project),
          let whole := ensure_sparse_workspace self
                         (mkSparseProfile (Some ps)) st in
          exists segs : list (list event),
            st_trace (snd whole) = st_trace st ++ List.concat segs
            /\ Forall2 (project_segment self)
                 (firstn (List.length segs) ps) segs
            /\ (fst whole = Ok tt -> Forall2 (project_complete self) ps segs)
            /\ fst whole <> OutOfFuel).
Proof.
  intros os self name proj st ops r order wc.
  destruct (sparse_project_trace self name proj st) as (Hbad & Hgood).
  split; [exact Hbad|]. split; [exact Hgood|].
  split; [apply sorted_perm|].
  split; [apply sorted_sorted|].
  split; [intros k; apply sorted_stable|].
  split.
  - intros x y Hx Hy Hp. apply smaller_key_first; try assumption.
    apply parent_path_is_shallower. exact Hp.
  - split; [intros da db a ab; split; reflexivity|].
    intros ps. apply profile_trace.
Qed.

Lemma sparse_expansion_parent_first_witness :
  let self := SvnOps_init (u8 "/ws") in
  let st := initial_state diff_os [] in
  let ops := project_ops self child_first_project in
  project_valid child_first_project = true
  /\ In rule_a (paths child_first_project)
  /\ In rule_a_b (paths child_first_project)
  /\ parent_path (pr_path rule_a) (pr_path rule_a_b)
  /\ precedes rule_a rule_a_b (sorted_paths (paths child_first_project))
  /\ ~ precedes rule_a_b rule_a (sorted_paths (paths child_first_project))
  /\ (exists co blocks done rest,
        sorted_paths (paths child_first_project) = done ++ rest
        /\ st_trace (snd (@sparse_project diff_os self (u8 "core")
                            child_first_project st))
           = st_trace st ++ co ++ List.concat blocks
        /\ expansion_blocks ops done blocks)
  /\ spawned (st_trace (snd (@sparse_project diff_os self (u8 "core")
                               child_first_project st)))
     = [u8 "svn" :: expand_args rule_a; u8 "svn" :: expand_args rule_a_b].
Proof.
  intros self st ops.
  assert (Hv : project_valid child_first_project = true) by reflexivity.
  assert (Ha : In rule_a (paths child_first_project))
    by (right; left; reflexivity).
  assert (Hab : In rule_a_b (paths child_first_project))
    by (left; reflexivity).
  assert (Hp : parent_path (pr_path rule_a) (pr_path rule_a_b))
    by (exists (u8 "b"); reflexivity).
  pose proof (sparse_expansion_parent_first diff_os self (u8 "core")
                child_first_project st) as H.
  cbv zeta in H. destruct H as (_ & Hrun & _ & _ & _ & H & _ & _).
  destruct (Hrun Hv) as (co & blocks & done & rest & Hs & Htr & Hbs & _).
  split; [exact Hv|]. split; [exact Ha|]. split; [exact Hab|].
  split; [exact Hp|].
  split; [apply (H rule_a rule_a_b Ha Hab Hp)|].
  split; [apply (H rule_a rule_a_b Ha Hab Hp)|].
  split; [exists co, blocks, done, rest; repeat split; assumption|].
  vm_compute. reflexivity.
Defined.

(** C6 (as stated). A rule whose path is a prefix of the path of another
    rule is not always expanded before it. The rule of the root of the
    project, whose path is empty, has the depth of a rule of a directory
    at the top: listed after the rule "a", it is expanded after it. The
    rules "ab" and "a" have one depth too: listed in this order, they are
    expanded in this order. *)
Lemma sparse_expansion_prefix_counterexample :
  let self := SvnOps_init (u8 "/ws") in
  let st := initial_state diff_os [] in
  let run := fun proj => @sparse_project diff_os self (u8 "core") proj st in
  (exists more, pr_path rule_a = pr_path rule_root ++ more)
  /\ fst (run root_last_project) = Ok tt
  /\ spawned (st_trace (snd (run root_last_project)))
     = [u8 "svn" :: expand_args rule_a; u8 "svn" :: expand_args rule_root]
  /\ ~ precedes rule_root rule_a (sorted_paths (paths root_last_project))
  /\ (exists more, pr_path rule_ab = pr_path rule_a ++ more)
  /\ fst (run longer_first_project) = Ok tt
  /\ spawned (st_trace (snd (run longer_first_project)))
     = [u8 "svn" :: expand_args rule_ab; u8 "svn" :: expand_args rule_a]
  /\ ~ precedes rule_a rule_ab (sorted_paths (paths longer_first_project)).
Proof.
  intros self st run.
  assert (Hno : forall x y : PathRule,
             x <> y -> ~ precedes x y [y; x]).
  { intros x y Hxy (l1 & l2 & l3 & E).
    pose proof (f_equal (@List.length PathRule) E) as Hlen.
    rewrite length_app in Hlen. cbn [List.length] in Hlen.
    rewrite length_app in Hlen. cbn [List.length] in Hlen.
    destruct l1; [|cbn [List.length] in Hlen; lia].
    cbn [app] in E. inversion E as [[Hx E']]. symmetry in Hx.
    contradiction. }
  split; [exists (u8 "a"); reflexivity|].
  split; [vm_compute; reflexivity|].
  split; [vm_compute; reflexivity|].
  split.
  { change (sorted_paths (paths root_last_project))
      with [rule_a; rule_root].
    apply Hno. intros E. apply (f_equal pr_path) in E.
    vm_compute in E. discriminate E. }
  split; [exists (u8 "b"); reflexivity|].
  split; [vm_compute; reflexivity|].
  split; [vm_compute; reflexivity|].
  change (sorted_paths (paths longer_first_project)) with [rule_ab; rule_a].
  apply Hno. intros E. apply (f_equal pr_path) in E.
  vm_compute in E. discriminate E.
Qed.

(** ** The external resolver *)

Lemma str_eqb_eq (a b : str) : str_eqb a b = true <-> a = b.
Proof.
  unfold str_eqb. destruct (list_eq_dec N.eq_dec a b); split; intros;
    try reflexivity; try assumption; try discriminate; contradiction.
Qed.

Lemma in_set_In (p : str) (s : list str) : in_set p s = true <-> In p s.
Proof.
  unfold in_set. rewrite existsb_exists. split.
  - intros (x & Hx & E). apply str_eqb_eq in E. subst. exact Hx.
  - intros H. exists p. split; [exact H | apply str_eqb_eq; reflexivity].
Qed.

Lemma filter_length_le (A : Type) (f g : A -> bool) (l : list A) :
  (forall x, In x l -> f x = true -> g x = true) ->
  (List.length (filter f l) <= List.length (filter g l))%nat.
Proof.
  induction l as [|x l IH]; intros H; simpl; [lia|].
  assert (IH' := IH (fun y Hy => H y (or_intror Hy))).
  destruct (f x) eqn:Ef.
  - rewrite (H x (or_introl eq_refl) Ef). simpl. lia.
  - destruct (g x); simpl; lia.
Qed.

Lemma filter_length_lt (A : Type) (f g : A -> bool) (l : list A) (a : A) :
  (forall x, In x l -> f x = true -> g x = true) ->
  In a l -> f a = false -> g a = true ->
  (List.length (filter f l) < List.length (filter g l))%nat.
Proof.
  induction l as [|x l IH]; intros H Ha Hf Hg; [contradiction|].
  simpl. destruct Ha as [->|Ha].
  - rewrite Hf, Hg. simpl.
    pose proof (filter_length_le A f g l (fun y Hy => H y (or_intror Hy))).
    lia.
  - assert (IH' := IH (fun y Hy => H y (or_intror Hy)) Ha Hf Hg).
    destruct (f x) eqn:Ef.
    + rewrite (H x (or_introl eq_refl) Ef). simpl. lia.
    + destruct (g x); simpl; lia.
Qed.

Lemma unvisited_mono (univ s s' : list str) :
  incl s s' ->
  (List.length (unvisited univ s') <= List.length (unvisited univ s))%nat.
Proof.
  intros Hincl. apply filter_length_le. intros x _ Hx.
  apply negb_true_iff in Hx. apply negb_true_iff.
  destruct (in_set x s) eqn:E; [|reflexivity].
  apply in_set_In in E. apply Hincl in E. apply in_set_In in E. congruence.
Qed.

Lemma unvisited_shrinks (univ s : list str) (p : str) :
  In p univ -> ~ In p s ->
  (List.length (unvisited univ (p :: s)) < List.length (unvisited univ s))%nat.
Proof.
  intros Hp Hn. apply filter_length_lt with (a := p).
  - intros x _ Hx. apply negb_true_iff in Hx. apply negb_true_iff.
    destruct (in_set x s) eqn:E; [|reflexivity].
    apply in_set_In in E.
    assert (In x (p :: s)) as E' by (right; exact E).
    apply in_set_In in E'. congruence.
  - exact Hp.
  - apply negb_false_iff. apply in_set_In. left. reflexivity.
  - apply negb_true_iff. destruct (in_set p s) eqn:E; [|reflexivity].
    apply in_set_In in E. contradiction.
Qed.

Section ResolverFacts.
Context {os : OS}.

Lemma svn_unchecked_ok (self : SvnOps) (args : list str) (st : state) :
  exists v st', _svn self args false st = (Ok v, st').
Proof.
  unfold _svn.
  rewrite (bind_Ok _ _ st (mkState (st_world st)
                             (st_trace st ++ [EvSvn (repo_path self) args]))
             tt) by reflexivity.
  cbv beta.
  match goal with
  | |- context [bind (run_cmd ?a ?c false) _ ?s] =>
      destruct (run_cmd_unchecked a c s)
        as (code & out & err & st1 & E1 & _ & _)
  end.
  rewrite (bind_Ok _ _ _ _ _ E1).
  destruct (negb (code =? 0)%Z && locked err).
  - destruct (cleanup_plain_trace self st1) as (st2 & E2 & _).
    match goal with
    | |- context [run_cmd ?a ?c false] =>
        destruct (run_cmd_unchecked a c st2)
          as (code' & out' & err' & st3 & E3 & _ & _)
    end.
    erewrite bind_Ok; [| erewrite bind_Ok; [exact E3 | exact E2]].
    simpl. unfold ret. eauto.
  - rewrite (bind_Ok _ _ st1 st1 (code, out, err)) by reflexivity.
    simpl. unfold ret. eauto.
Qed.

Lemma get_externals_ok (self : SvnOps) (st : state) :
  exists ex st',
    get_externals self st = (Ok ex, st')
    /\ announced (st_trace st')
       = announced (st_trace st) ++ [propget_in (repo_path self)].
Proof.
  unfold get_externals.
  pose proof (svn_announced self propget_externals false st) as Han.
  destruct (svn_unchecked_ok self propget_externals st)
    as ([[code out] err] & st' & E).
  rewrite E in Han. simpl in Han.
  rewrite (bind_Ok _ _ _ _ _ E). unfold ret.
  eexists. exists st'. split; [reflexivity | exact Han].
Qed.

Variable univ : list str.
Hypothesis Hclosed : externals_closed univ.

Lemma scan_loop_post (fuel : nat)
    (Hscan : forall (path : str) (v : ScanVars) (st : state),
        In path univ ->
        (List.length (unvisited univ (visited v)) < fuel)%nat ->
        scan_post univ [path] v st (scan fuel path v st))
    (ex : list str) :
  (forall (e : str) (st' : state),
      In e ex -> path_isdir e (st_world st') = true -> In e univ) ->
  forall (v : ScanVars) (st : state),
    (List.length (unvisited univ (visited v)) < fuel)%nat ->
    scan_post univ [] v st (scan_loop (scan fuel) ex v st).
Proof.
  induction ex as [|e ex IH]; intros Hex v st Hfuel.
  - exists v, [], [], st. simpl. rewrite !app_nil_r.
    repeat split; try constructor; try contradiction.
  - cbn [scan_loop]. rewrite bind_ask.
    assert (Hex' : forall (e0 : str) (st' : state),
               In e0 ex -> path_isdir e0 (st_world st') = true -> In e0 univ)
      by (intros e0 st' H0; apply Hex; right; exact H0).
    destruct (path_isdir e (st_world st)) eqn:Hdir.
    + assert (He : In e univ) by (apply (Hex e st); [left; reflexivity|exact Hdir]).
      destruct (Hscan e (mkScanVars (visited v) (result v ++ [e])) st He Hfuel)
        as (v1 & order1 & added1 & st1 & E1 & Hv1 & Hnd1 & Hin1 & Htr1
            & Hres1 & Hadd1 & Hmust1).
      cbn [visited result] in *.
      rewrite (bind_Ok _ _ _ _ _ E1).
      assert (Hincl1 : incl (visited v) (visited v1))
        by (rewrite Hv1; apply incl_appr, incl_refl).
      assert (Hfuel1 : (List.length (unvisited univ (visited v1)) < fuel)%nat)
        by (pose proof (unvisited_mono univ _ _ Hincl1); lia).
      destruct (IH Hex' v1 st1 Hfuel1)
        as (v2 & order2 & added2 & st2 & E2 & Hv2 & Hnd2 & Hin2 & Htr2
            & Hres2 & Hadd2 & _).
      assert (Hincl2 : incl (visited v1) (visited v2))
        by (rewrite Hv2; apply incl_appr, incl_refl).
      exists v2, (order1 ++ order2), ([e] ++ added1 ++ added2), st2.
      split; [exact E2|]. split.
      { rewrite Hv2, Hv1, rev_app_distr, <- app_assoc. reflexivity. }
      split.
      { apply NoDup_app; [exact Hnd1 | exact Hnd2 |].
        intros p Hp1 Hp2. destruct (Hin2 p Hp2) as [_ Hn]. apply Hn.
        rewrite Hv1. apply in_or_app. left. apply in_rev in Hp1. exact Hp1. }
      split.
      { intros p Hp. apply in_app_or in Hp. destruct Hp as [Hp|Hp].
        - apply Hin1. exact Hp.
        - destruct (Hin2 p Hp) as [Hu Hn]. split; [exact Hu|].
          intros Hv. apply Hn, Hincl1, Hv. }
      split.
      { rewrite Htr2, Htr1, map_app, <- app_assoc. reflexivity. }
      split.
      { rewrite Hres2, Hres1, <- !app_assoc. reflexivity. }
      split; [|intros p []].
      intros x Hx. apply in_app_or in Hx. destruct Hx as [[<-|[]]|Hx].
      * apply Hincl2, Hmust1. left. reflexivity.
      * apply in_app_or in Hx. destruct Hx as [Hx|Hx].
        -- apply Hincl2, Hadd1, Hx.
        -- apply Hadd2, Hx.
    + rewrite (bind_Ok _ _ st st v) by reflexivity.
      apply IH; assumption.
Qed.

Lemma scan_terminates (fuel : nat) :
  forall (path : str) (v : ScanVars) (st : state),
    In path univ ->
    (List.length (unvisited univ (visited v)) < fuel)%nat ->
    scan_post univ [path] v st (scan fuel path v st).
Proof.
  induction fuel as [|fuel IH]; intros path v st Hpath Hfuel; [lia|].
  cbn [scan].
  destruct (in_set path (visited v)) eqn:Hseen.
  - apply in_set_In in Hseen.
    exists v, [], [], st. simpl. rewrite !app_nil_r.
    repeat split; try constructor; try contradiction.
    intros p [<-|[]]. exact Hseen.
  - assert (Hnew : ~ In path (visited v)).
    { intros H. apply in_set_In in H. congruence. }
    destruct (get_externals_ok (SvnOps_init path) st)
      as (ex & st1 & E1 & Htr1).
    rewrite (bind_Ok _ _ _ _ _ E1).
    set (v1 := mkScanVars (path :: visited v) (result v)).
    assert (Hfuel1 : (List.length (unvisited univ (visited v1)) < fuel)%nat).
    { pose proof (unvisited_shrinks univ (visited v) path Hpath Hnew).
      cbn [v1 visited]. lia. }
    assert (Hex : forall (e : str) (st' : state),
               In e ex -> path_isdir e (st_world st') = true -> In e univ).
    { intros e st' He Hdir. apply (Hclosed path e st st' Hpath); [|exact Hdir].
      unfold externals_at. rewrite E1. exact He. }
    destruct (scan_loop_post fuel IH ex Hex v1 st1 Hfuel1)
      as (v2 & order2 & added2 & st2 & E2 & Hv2 & Hnd2 & Hin2 & Htr2
          & Hres2 & Hadd2 & _).
    cbn [v1 visited result] in *.
    exists v2, (path :: order2), added2, st2.
    split; [exact E2|]. split.
    { rewrite Hv2. cbn [rev]. rewrite <- app_assoc. reflexivity. }
    split.
    { constructor; [|exact Hnd2].
      intros Hp. destruct (Hin2 path Hp) as [_ Hn]. apply Hn.
      left. reflexivity. }
    split.
    { intros p [<-|Hp]; [split; assumption|].
      destruct (Hin2 p Hp) as [Hu Hn]. split; [exact Hu|].
      intros Hv. apply Hn. right. exact Hv. }
    split.
    { rewrite Htr2, Htr1. cbn [map repo_path SvnOps_init].
      rewrite <- app_assoc. reflexivity. }
    split; [exact Hres2|]. split; [exact Hadd2|].
    intros p [<-|[]]. rewrite Hv2. apply in_or_app. right. left. reflexivity.
Qed.

End ResolverFacts.

(** *** The traversal of a static graph *)

Lemma reachable_trans (graph : str -> list str) (isdir : str -> bool)
    (a b c : str) :
  reachable graph isdir a b -> reachable graph isdir b c ->
  reachable graph isdir a c.
Proof.
  intros Hab Hbc. induction Hbc; [exact Hab|].
  eapply reach_step; eassumption.
Qed.

Section StaticFacts.
Context {os : OS}.
Variable graph : str -> list str.
Variable isdir : str -> bool.
Variable univ : list str.
Hypothesis Hstatic : static_externals graph isdir univ.

Lemma static_loop (fuel : nat)
    (Hscan : forall (path : str) (v : ScanVars) (st : state),
        In path univ ->
        (List.length (unvisited univ (visited v)) < fuel)%nat ->
        dfs_post graph isdir univ [path] [] v st (scan fuel path v st))
    (ex : list str) :
  (forall e : str, In e ex -> isdir e = true -> In e univ) ->
  forall (v : ScanVars) (st : state),
    (List.length (unvisited univ (visited v)) < fuel)%nat ->
    dfs_post graph isdir univ (filter isdir ex) ex v st
      (scan_loop (scan fuel) ex v st).
Proof.
  destruct Hstatic as (_ & Hisdir & _).
  induction ex as [|e ex IH]; intros Hex v st Hfuel.
  - exists v, [], [], st. cbn [scan_loop map rev app filter].
    rewrite !app_nil_r.
    repeat split; try constructor; try contradiction.
  - cbn [scan_loop]. rewrite bind_ask, Hisdir.
    assert (Hex' : forall e0 : str,
               In e0 ex -> isdir e0 = true -> In e0 univ)
      by (intros e0 H0; apply Hex; right; exact H0).
    cbn [filter].
    destruct (isdir e) eqn:Hdir.
    + assert (He : In e univ) by (apply Hex; [left; reflexivity | exact Hdir]).
      destruct (Hscan e (mkScanVars (visited v) (result v ++ [e])) st He Hfuel)
        as (v1 & order1 & added1 & st1 & E1 & Hv1 & Hnd1 & Hin1 & Htr1
            & Hres1 & Hclo1 & Hst1 & _ & Hreach1 & Hsound1).
      cbn [visited result] in *.
      rewrite (bind_Ok _ _ _ _ _ E1).
      assert (Hincl1 : incl (visited v) (visited v1))
        by (rewrite Hv1; apply incl_appr, incl_refl).
      assert (Hfuel1 : (List.length (unvisited univ (visited v1)) < fuel)%nat)
        by (pose proof (unvisited_mono univ _ _ Hincl1); lia).
      destruct (IH Hex' v1 st1 Hfuel1)
        as (v2 & order2 & added2 & st2 & E2 & Hv2 & Hnd2 & Hin2 & Htr2
            & Hres2 & Hclo2 & Hst2 & Hdir2 & Hreach2 & Hsound2).
      assert (Hincl2 : incl (visited v1) (visited v2))
        by (rewrite Hv2; apply incl_appr, incl_refl).
      exists v2, (order1 ++ order2), (e :: added1 ++ added2), st2.
      split; [exact E2|]. split.
      { rewrite Hv2, Hv1, rev_app_distr, <- app_assoc. reflexivity. }
      split.
      { apply NoDup_app; [exact Hnd1 | exact Hnd2 |].
        intros p Hp1 Hp2. destruct (Hin2 p Hp2) as [_ Hn]. apply Hn.
        rewrite Hv1. apply in_or_app. left. apply in_rev in Hp1. exact Hp1. }
      split.
      { intros p Hp. apply in_app_or in Hp. destruct Hp as [Hp|Hp].
        - apply Hin1. exact Hp.
        - destruct (Hin2 p Hp) as [Hu Hn]. split; [exact Hu|].
          intros Hv. apply Hn, Hincl1, Hv. }
      split.
      { rewrite Htr2, Htr1, map_app, <- app_assoc. reflexivity. }
      split.
      { rewrite Hres2, Hres1, <- !app_assoc. reflexivity. }
      split.
      { intros p e' Hp He' Hd'. apply in_app_or in Hp. destruct Hp as [Hp|Hp].
        - destruct (Hclo1 p e' Hp He' Hd') as [Hvis Hadd]. split.
          + apply Hincl2, Hvis.
          + right. apply in_or_app. left. exact Hadd.
        - destruct (Hclo2 p e' Hp He' Hd') as [Hvis Hadd]. split.
          + exact Hvis.
          + right. apply in_or_app. right. exact Hadd. }
      split.
      { intros s [<-|Hs].
        - apply Hincl2, Hst1. left. reflexivity.
        - apply Hst2, Hs. }
      split.
      { intros e' [<-|He'] Hd'; [left; reflexivity|].
        right. apply in_or_app. right. apply Hdir2; assumption. }
      split.
      { intros p Hp. apply in_app_or in Hp. destruct Hp as [Hp|Hp].
        - destruct (Hreach1 p Hp) as (s & [<-|[]] & Hr).
          exists e. split; [left; reflexivity | exact Hr].
        - destruct (Hreach2 p Hp) as (s & Hs & Hr).
          exists s. split; [right; exact Hs | exact Hr]. }
      intros e' [<-|He'].
      * split; [exact Hdir|]. left. left. reflexivity.
      * apply in_app_or in He'. destruct He' as [He'|He'].
        -- destruct (Hsound1 e' He') as (Hd' & [[]|(p & Hp & Hg)]).
           split; [exact Hd'|]. right. exists p.
           split; [apply in_or_app; left; exact Hp | exact Hg].
        -- destruct (Hsound2 e' He') as (Hd' & [Hin|(p & Hp & Hg)]).
           ++ split; [exact Hd'|]. left. right. exact Hin.
           ++ split; [exact Hd'|]. right. exists p.
              split; [apply in_or_app; right; exact Hp | exact Hg].
    + rewrite (bind_Ok _ _ st st v) by reflexivity.
      destruct (IH Hex' v st Hfuel)
        as (v2 & order2 & added2 & st2 & E2 & Hv2 & Hnd2 & Hin2 & Htr2
            & Hres2 & Hclo2 & Hst2 & Hdir2 & Hreach2 & Hsound2).
      exists v2, order2, added2, st2.
      repeat (split; [assumption|]).
      split.
      { intros e' [<-|He'] Hd'; [congruence|]. apply Hdir2; assumption. }
      split; [exact Hreach2|].
      intros e' He'. destruct (Hsound2 e' He') as (Hd' & [Hin|Hp]).
      * split; [exact Hd'|]. left. right. exact Hin.
      * split; [exact Hd'|]. right. exact Hp.
Qed.

Lemma static_scan (fuel : nat) :
  forall (path : str) (v : ScanVars) (st : state),
    In path univ ->
    (List.length (unvisited univ (visited v)) < fuel)%nat ->
    dfs_post graph isdir univ [path] [] v st (scan fuel path v st).
Proof.
  induction fuel as [|fuel IH]; intros path v st Hpath Hfuel; [lia|].
  cbn [scan].
  destruct (in_set path (visited v)) eqn:Hseen.
  - apply in_set_In in Hseen.
    exists v, [], [], st. cbn [map rev app]. rewrite !app_nil_r.
    repeat split; try constructor; try contradiction.
    intros s [<-|[]]. exact Hseen.
  - assert (Hnew : ~ In path (visited v)).
    { intros H. apply in_set_In in H. congruence. }
    destruct (get_externals_ok (SvnOps_init path) st)
      as (ex & st1 & E1 & Htr1).
    rewrite (bind_Ok _ _ _ _ _ E1).
    destruct Hstatic as (Hgraph & _ & Hclosed).
    assert (Hex_eq : ex = graph path).
    { rewrite <- (Hgraph path st Hpath). unfold externals_at.
      rewrite E1. reflexivity. }
    subst ex.
    set (v1 := mkScanVars (path :: visited v) (result v)).
    assert (Hfuel1 : (List.length (unvisited univ (visited v1)) < fuel)%nat).
    { pose proof (unvisited_shrinks univ (visited v) path Hpath Hnew).
      cbn [v1 visited]. lia. }
    assert (Hex : forall e : str,
               In e (graph path) -> isdir e = true -> In e univ)
      by (intros e He Hd; apply (Hclosed path e Hpath He Hd)).
    destruct (static_loop fuel IH (graph path) Hex v1 st1 Hfuel1)
      as (v2 & order2 & added2 & st2 & E2 & Hv2 & Hnd2 & Hin2 & Htr2
          & Hres2 & Hclo2 & Hst2 & Hdir2 & Hreach2 & Hsound2).
    cbn [v1 visited result] in *.
    exists v2, (path :: order2), added2, st2.
    split; [exact E2|]. split.
    { rewrite Hv2. cbn [rev]. rewrite <- app_assoc. reflexivity. }
    split.
    { constructor; [|exact Hnd2].
      intros Hp. destruct (Hin2 path Hp) as [_ Hn]. apply Hn.
      left. reflexivity. }
    split.
    { intros p [<-|Hp]; [split; assumption|].
      destruct (Hin2 p Hp) as [Hu Hn]. split; [exact Hu|].
      intros Hv. apply Hn. right. exact Hv. }
    split.
    { rewrite Htr2, Htr1. cbn [map repo_path SvnOps_init].
      rewrite <- app_assoc. reflexivity. }
    split; [exact Hres2|].
    split.
    { intros p e [<-|Hp] He Hd.
      - split; [|apply Hdir2; assumption].
        apply Hst2. apply filter_In. split; assumption.
      - apply (Hclo2 p e Hp He Hd). }
    split.
    { intros s [<-|[]]. rewrite Hv2. apply in_or_app. right. left.
      reflexivity. }
    split; [intros e []|].
    split.
    { intros p [<-|Hp].
      - exists path. split; [left; reflexivity | apply reach_root].
      - destruct (Hreach2 p Hp) as (s & Hs & Hr).
        apply filter_In in Hs. destruct Hs as [Hs Hd].
        exists path. split; [left; reflexivity|].
        eapply reachable_trans; [|exact Hr].
        eapply reach_step; [apply reach_root | exact Hs | exact Hd]. }
    intros e He. destruct (Hsound2 e He) as (Hd & [Hin|(p & Hp & Hg)]).
    + split; [exact Hd|]. right. exists path.
      split; [left; reflexivity | exact Hin].
    + split; [exact Hd|]. right. exists p.
      split; [right; exact Hp | exact Hg].
Qed.

End StaticFacts.

(** *** Paths that never stop growing *)

Lemma dot_externals (path : str) (st : @state dot_os) :
  exists st1,
    @get_externals dot_os (SvnOps_init path) st
    = (Ok [path_join path (u8 ".")], st1).
Proof.
  destruct (@get_externals_ok dot_os (SvnOps_init path) st)
    as (ex & st1 & E & _).
  exists st1. rewrite E. f_equal. f_equal.
  assert (H : fst (@get_externals dot_os (SvnOps_init path) st)
              = Ok [path_join path (u8 ".")])
    by (vm_compute; reflexivity).
  rewrite E in H. cbn [fst] in H. inversion H. reflexivity.
Qed.

Lemma path_join_dot (path : str) (c : N) (r : str) :
  rev path = c :: r -> c <> SLASH ->
  path_join path (u8 ".") = path ++ [SLASH; 46].
Proof.
  intros Hrev Hc. unfold path_join.
  change (u8 ".") with [46]. cbv iota. rewrite Hrev.
  unfold SLASH in Hc.
  destruct c as [|q]; [reflexivity|].
  do 6 (destruct q as [q|q|]; try reflexivity).
  contradiction.
Qed.

Lemma dot_scan (fuel : nat) :
  forall (path : str) (c : N) (r : str) (v : ScanVars) (st : @state dot_os),
    rev path = c :: r -> c <> SLASH ->
    (forall x, In x (visited v) ->
               (List.length x < List.length path)%nat) ->
    fst (@scan dot_os fuel path v st) = OutOfFuel.
Proof.
  induction fuel as [|fuel IH]; intros path c r v st Hrev Hc Hshort;
    [reflexivity|].
  cbn [scan].
  destruct (in_set path (visited v)) eqn:Hseen.
  { apply in_set_In in Hseen. apply Hshort in Hseen. lia. }
  destruct (dot_externals path st) as (st1 & E1).
  rewrite (bind_Ok _ _ _ _ _ E1).
  rewrite (path_join_dot path c r Hrev Hc).
  cbn [scan_loop]. rewrite bind_ask.
  change (@path_isdir dot_os (path ++ [SLASH; 46]) (st_world st1)) with true.
  cbv iota.
  set (v1 := mkScanVars (visited (mkScanVars (path :: visited v) (result v)))
               (result (mkScanVars (path :: visited v) (result v))
                ++ [path ++ [SLASH; 46]])).
  assert (Hnext : fst (@scan dot_os fuel (path ++ [SLASH; 46]) v1 st1)
                  = OutOfFuel).
  { apply (IH _ 46 (SLASH :: rev path)).
    - rewrite rev_app_distr. reflexivity.
    - discriminate.
    - intros x Hx. rewrite length_app. cbn [List.length].
      cbn [v1 visited] in Hx. destruct Hx as [<-|Hx]; [lia|].
      apply Hshort in Hx. lia. }
  destruct (@scan dot_os fuel (path ++ [SLASH; 46]) v1 st1)
    as [[v2|e|] st2] eqn:E2; cbn [fst] in Hnext; try discriminate Hnext.
  rewrite (bind_OutOfFuel _ _ _ _ E2). reflexivity.
Qed.




(** ** The workspace cleaner *)

Section CleanerFacts.
Context {os : OS}.

Lemma remove_unversioned_ok (self : SvnOps) (line : str) (st : state) :
  exists st', remove_unversioned self line st = (Ok tt, st').
Proof.
  unfold remove_unversioned.
  destruct (negb (truthy (strip line))) eqn:Eblank; [eexists; reflexivity|].
  destruct line as [|status line]; [discriminate Eblank|].
  clear Eblank.
  destruct (negb (status =? 63)); [eexists; reflexivity|].
  destruct (negb (truthy _)); [eexists; reflexivity|].
  rewrite bind_ask. destruct (path_isdir _ _); [eexists; reflexivity|].
  rewrite bind_ask. destruct (path_exists _ _); eexists; reflexivity.
Qed.

Lemma for_each_ok {A : Type} (body : A -> M unit) (l : list A) :
  (forall x st, exists st', body x st = (Ok tt, st')) ->
  forall st, exists st', for_each l body st = (Ok tt, st').
Proof.
  intros Hbody. induction l as [|x l IH]; intros st.
  - eexists; reflexivity.
  - cbn [for_each]. destruct (Hbody x st) as (st1 & E1).
    rewrite (bind_Ok _ _ _ _ _ E1). apply IH.
Qed.

Lemma revert_local_changes_ok (self : SvnOps) (st : state) :
  exists st', revert_local_changes self st = (Ok tt, st').
Proof.
  unfold revert_local_changes.
  destruct (svn_unchecked_ok self [u8 "revert"; u8 "-R"; u8 "."] st)
    as (v1 & st1 & E1).
  rewrite (bind_Ok _ _ _ _ _ E1).
  destruct (svn_unchecked_ok self [u8 "status"; u8 "--no-ignore"] st1)
    as ([[code out] err] & st2 & E2).
  rewrite (bind_Ok _ _ _ _ _ E2).
  apply for_each_ok. apply remove_unversioned_ok.
Qed.

(** More fuel does not change a result. *)
Lemma scan_loop_fuel_mono (fuel : nat)
    (Hscan : forall path v st v' st',
        scan fuel path v st = (Ok v', st') ->
        scan (S fuel) path v st = (Ok v', st'))
    (ex : list str) :
  forall v st v' st',
    scan_loop (scan fuel) ex v st = (Ok v', st') ->
    scan_loop (scan (S fuel)) ex v st = (Ok v', st').
Proof.
  induction ex as [|e ex IH]; intros v st v' st' H; [exact H|].
  cbn [scan_loop] in *. rewrite bind_ask in *.
  destruct (path_isdir e (st_world st)).
  - destruct (scan fuel e (mkScanVars (visited v) (result v ++ [e])) st)
      as [[v1|x|] st1] eqn:E1.
    + rewrite (bind_Ok _ _ _ _ _ E1) in H.
      rewrite (bind_Ok _ _ _ _ _ (Hscan _ _ _ _ _ E1)). apply IH. exact H.
    + rewrite (bind_Raise _ _ _ _ _ E1) in H. discriminate H.
    + rewrite (bind_OutOfFuel _ _ _ _ E1) in H. discriminate H.
  - rewrite (bind_Ok _ _ st st v) in * by reflexivity. apply IH. exact H.
Qed.

Lemma scan_S (fuel : nat) (path : str) (v : ScanVars) :
  scan (S fuel) path v
  = if in_set path (visited v) then ret v
    else ex <- get_externals (SvnOps_init path) ;;
         scan_loop (scan fuel) ex
           (mkScanVars (path :: visited v) (result v)).
Proof. reflexivity. Qed.

Lemma scan_fuel_mono (fuel : nat) :
  forall path v st v' st',
    scan fuel path v st = (Ok v', st') ->
    scan (S fuel) path v st = (Ok v', st').
Proof.
  induction fuel as [|fuel IH]; intros path v st v' st' H;
    [discriminate H|].
  rewrite scan_S in H. rewrite (scan_S (S fuel)).
  destruct (in_set path (visited v)); [exact H|].
  destruct (get_externals (SvnOps_init path) st) as [[ex|x|] st1] eqn:E1.
  - rewrite (bind_Ok _ _ _ _ _ E1) in H. rewrite (bind_Ok _ _ _ _ _ E1).
    apply scan_loop_fuel_mono; [exact IH | exact H].
  - rewrite (bind_Raise _ _ _ _ _ E1) in H. discriminate H.
  - rewrite (bind_OutOfFuel _ _ _ _ E1) in H. discriminate H.
Qed.

Lemma get_all_externals_fuel_more (k fuel : nat) (self : SvnOps)
    (st st' : state) (found : list str) :
  get_all_externals fuel self st = (Ok found, st') ->
  get_all_externals (k + fuel) self st = (Ok found, st').
Proof.
  unfold get_all_externals. intros H.
  destruct (scan fuel (repo_path self) (mkScanVars [] []) st)
    as [[v|x|] st1] eqn:E.
  - rewrite (bind_Ok _ _ _ _ _ E) in H.
    assert (Hk : scan (k + fuel) (repo_path self) (mkScanVars [] []) st
                 = (Ok v, st1)).
    { induction k as [|k IHk]; [exact E|]. apply scan_fuel_mono. exact IHk. }
    rewrite (bind_Ok _ _ _ _ _ Hk). exact H.
  - rewrite (bind_Raise _ _ _ _ _ E) in H. discriminate H.
  - rewrite (bind_OutOfFuel _ _ _ _ E) in H. discriminate H.
Qed.

End CleanerFacts.

(** In the two working copies that name each other, discovery from either
    one returns both paths as soon as three nested calls are allowed. *)
Lemma cyclic_discovery (fuel : nat) (p : str) (st : @state cyclic_os) :
  p = u8 "/A" \/ p = u8 "/B" ->
  fst (@get_all_externals cyclic_os fuel (SvnOps_init p) st) = OutOfFuel
  \/ exists q st',
       (q = u8 "/A" \/ q = u8 "/B")
       /\ @get_all_externals cyclic_os fuel (SvnOps_init p) st
          = (Ok [q; p], st').
Proof.
  intros Hp.
  destruct fuel as [|[|[|k]]].
  1-3: left; destruct Hp as [-> | ->]; vm_compute; reflexivity.
  right.
  replace (S (S (S k))) with (k + 3)%nat by lia.
  destruct Hp as [-> | ->].
  - exists (u8 "/B"),
      (snd (@get_all_externals cyclic_os 3 (SvnOps_init (u8 "/A")) st)).
    split; [right; reflexivity|].
    apply (@get_all_externals_fuel_more cyclic_os).
    vm_compute. reflexivity.
  - exists (u8 "/A"),
      (snd (@get_all_externals cyclic_os 3 (SvnOps_init (u8 "/B")) st)).
    split; [left; reflexivity|].
    apply (@get_all_externals_fuel_more cyclic_os).
    vm_compute. reflexivity.
Qed.

Lemma cyclic_cleaning (fuel : nat) :
  forall (p : str) (st : @state cyclic_os),
    p = u8 "/A" \/ p = u8 "/B" ->
    fst (@ensure_clean_workspace cyclic_os fuel (SvnOps_init p) st)
    = OutOfFuel.
Proof.
  induction fuel as [|fuel IH]; intros p st Hp; [reflexivity|].
  cbn [ensure_clean_workspace].
  destruct (@revert_local_changes_ok cyclic_os (SvnOps_init p) st)
    as (st1 & E1).
  rewrite (bind_Ok _ _ _ _ _ E1).
  destruct (@cleanup_plain_trace cyclic_os (SvnOps_init p) st1)
    as (st2 & E2 & _).
  rewrite (bind_Ok _ _ _ _ _ E2).
  unfold clean_externals_with.
  destruct (cyclic_discovery fuel p st2 Hp) as [Hout | (q & st3 & Hq & E3)].
  - destruct (@get_all_externals cyclic_os fuel (SvnOps_init p) st2)
      as [[l|x|] st3] eqn:E3; try discriminate Hout.
    rewrite (bind_OutOfFuel _ _ _ _ E3). reflexivity.
  - rewrite (bind_Ok _ _ _ _ _ E3). cbn [for_each].
    assert (Hdir : @path_isdir cyclic_os q (st_world st3) = true)
      by (destruct Hq as [-> | ->]; reflexivity).
    specialize (IH q st3 Hq).
    destruct (@ensure_clean_workspace cyclic_os fuel (SvnOps_init q) st3)
      as [[u|x|] st4] eqn:E4; try discriminate IH.
    rewrite (bind_OutOfFuel _ _ st3 st4); [reflexivity|].
    rewrite bind_ask, Hdir. exact E4.
Qed.

(** C5 (what the code does). In the two working copies that name each
    other as an external, [ensure_clean_workspace] never comes back,
    whatever depth of nested calls is allowed, from either of them: the
    set [visited] lives for one call of [get_all_externals] only, and
    every external that is cleaned starts a discovery of its own. The
    discovery alone does come back there. *)
Theorem ensure_clean_workspace_cycle_never_returns :
  forall (fuel : nat) (st : @state cyclic_os),
    fst (@ensure_clean_workspace cyclic_os fuel (SvnOps_init (u8 "/A")) st)
    = OutOfFuel
    /\ fst (@ensure_clean_workspace cyclic_os fuel (SvnOps_init (u8 "/B")) st)
       = OutOfFuel
    /\ fst (@get_all_externals cyclic_os 3 (SvnOps_init (u8 "/A")) st)
       = Ok [u8 "/B"; u8 "/A"].
Proof.
  intros fuel st. split; [|split].
  - apply cyclic_cleaning. left. reflexivity.
  - apply cyclic_cleaning. right. reflexivity.
  - vm_compute. reflexivity.
Qed.

(** ** The change aggregator *)

Section AggregatorFacts.
Context {os : OS}.

Lemma truthy_nonempty (s : str) : truthy s = true -> s <> [].
Proof. destruct s; [discriminate | discriminate]. Qed.

Lemma collect_update_result_guard (fuel : nat) (self : SvnOps)
    (include_diff : bool) (max_diff_lines : Z) (include_externals : bool)
    (st : state) :
  truthy_opt (before_update_rev self) = false
  \/ truthy_opt (after_update_rev self) = false ->
  collect_update_result fuel self include_diff max_diff_lines
    include_externals st
  = (Raise (VCSException not_updated_message), st).
Proof.
  unfold collect_update_result.
  destruct (before_update_rev self) as [b|], (after_update_rev self) as [a|];
    cbn [truthy_opt]; intros [H|H]; try discriminate H; try reflexivity.
  - rewrite H. reflexivity.
  - rewrite H, orb_true_r. reflexivity.
Qed.

Lemma collect_update_result_proceeds (fuel : nat) (self : SvnOps)
    (include_diff : bool) (max_diff_lines : Z) (include_externals : bool)
    (st : state) :
  collect_update_result fuel self include_diff max_diff_lines
    include_externals st
  <> (Raise (VCSException not_updated_message), st) ->
  exists b a,
    before_update_rev self = Some b /\ after_update_rev self = Some a
    /\ b <> [] /\ a <> [].
Proof.
  intros Hrun.
  destruct (truthy_opt (before_update_rev self)) eqn:Eb.
  - destruct (truthy_opt (after_update_rev self)) eqn:Ea.
    + destruct (before_update_rev self) as [b|]; [|discriminate Eb].
      destruct (after_update_rev self) as [a|]; [|discriminate Ea].
      exists b, a. repeat split; apply truthy_nonempty; assumption.
    + exfalso. apply Hrun. apply collect_update_result_guard. right.
      exact Ea.
  - exfalso. apply Hrun. apply collect_update_result_guard. left.
    exact Eb.
Qed.

Lemma collect_update_result_inv (fuel : nat) (self : SvnOps)
    (include_diff : bool) (max_diff_lines : Z) (include_externals : bool)
    (st st' : state) (r : UpdateResult) :
  collect_update_result fuel self include_diff max_diff_lines
    include_externals st = (Ok r, st') ->
  exists b a t_start t_end summary st1 st2,
    before_update_rev self = Some b /\ after_update_rev self = Some a
    /\ b <> [] /\ a <> []
    /\ collect_change_summary fuel self (Some t_start) (Some t_end)
         include_diff max_diff_lines include_externals st1
       = (Ok summary, st2)
    /\ r = mkUpdateResult b a (sorted _key (all_changes summary)).
Proof.
  intros Hrun.
  destruct (collect_update_result_proceeds fuel self include_diff
              max_diff_lines include_externals st)
    as (b & a & Eb & Ea & Hb & Ha).
  { rewrite Hrun. discriminate. }
  unfold collect_update_result in Hrun. rewrite Eb, Ea in Hrun.
  destruct (negb (truthy b) || negb (truthy a)); [discriminate Hrun|].
  apply bind_Ok_inv in Hrun. destruct Hrun as (t_start & st1 & _ & Hrun).
  apply bind_Ok_inv in Hrun. destruct Hrun as (t_end & st2 & _ & Hrun).
  apply bind_Ok_inv in Hrun. destruct Hrun as (summary & st3 & Hsum & Hrun).
  inversion Hrun; subst.
  exists b, a, t_start, t_end, summary, st2, st'. repeat split; assumption.
Qed.

Lemma update_to_records (fuel : nat) (path : str) (target : option str)
    (st : state) :
  let '(r, self', _) := update_to fuel (SvnOps_init path) target st in
  (r = Ok tt ->
   exists b a,
     before_update_rev self' = Some b /\ after_update_rev self' = Some a)
  /\ (r <> Ok tt -> after_update_rev self' = None).
Proof.
  unfold update_to.
  destruct (get_current_revision (SvnOps_init path) st) as [[r0|e|] st1].
  - match goal with
    | |- context [match ?m st1 with _ => _ end] =>
        destruct (m st1) as [[r2|e|] st2]
    end; cbn [before_update_rev after_update_rev SvnOps_init].
    + split; [eauto | intros H; contradiction].
    + split; [discriminate | reflexivity].
    + split; [discriminate | reflexivity].
  - split; [discriminate | reflexivity].
  - split; [discriminate | reflexivity].
Qed.

End AggregatorFacts.

(** C3. [collect_update_result] raises the exception of [svn_ops], with
    the message that [update_to()] has not been run, and does nothing
    else, whenever [before_update_rev] or [after_update_rev] is unset (or
    empty); so it does on a fresh [SvnOps] object, before any
    [update_to], and after an [update_to] that failed. It runs commands
    or returns a result only when both are set, and a result carries the
    two identifiers. *)
Theorem collect_update_result_needs_both_revisions :
  forall (os : OS) (fuel : nat) (self : SvnOps) (include_diff : bool)
         (max_diff_lines : Z) (include_externals : bool) (st : state),
    let run := collect_update_result fuel self include_diff max_diff_lines
                 include_externals st in
    let refused := (Raise (VCSException not_updated_message), st) in
    (before_update_rev self = None \/ after_update_rev self = None ->
     run = refused)
    /\ (forall path : str,
          collect_update_result fuel (SvnOps_init path) include_diff
            max_diff_lines include_externals st = refused)
    /\ (forall (path : str) (target : option str) (st0 : state),
          let '(r, self', _) := update_to fuel (SvnOps_init path) target st0 in
          r <> Ok tt ->
          collect_update_result fuel self' include_diff max_diff_lines
            include_externals st = refused)
    /\ (run <> refused ->
        exists b a,
          before_update_rev self = Some b /\ after_update_rev self = Some a
          /\ b <> [] /\ a <> [])
    /\ (forall (r : UpdateResult) (st' : state),
          run = (Ok r, st') ->
          before_update_rev self = Some (from_rev r)
          /\ after_update_rev self = Some (to_rev r)).
Proof.
  intros os fuel self include_diff max_diff_lines include_externals st
         run refused.
  split.
  { intros [H|H]; apply collect_update_result_guard; rewrite H; auto. }
  split.
  { intros path. apply collect_update_result_guard. left. reflexivity. }
  split.
  { intros path target st0.
    pose proof (update_to_records fuel path target st0) as H.
    destruct (update_to fuel (SvnOps_init path) target st0) as [[r self'] st'].
    intros Hr. apply collect_update_result_guard. right.
    rewrite (proj2 H Hr). reflexivity. }
  split.
  { apply collect_update_result_proceeds. }
  intros r st' Hrun.
  destruct (collect_update_result_inv _ _ _ _ _ _ _ _ Hrun)
    as (b & a & ts & te & summary & st1 & st2 & Eb & Ea & _ & _ & _ & ->).
  split; assumption.
Qed.

Lemma collect_update_result_needs_both_revisions_witness :
  let os := aggregation_os [u8 "ext"] in
  let st := initial_state os [] in
  before_update_rev (SvnOps_init (u8 "/wc")) = None
  /\ @collect_update_result os 5 (SvnOps_init (u8 "/wc")) false 200 true st
     = (Raise (VCSException not_updated_message), st)
  /\ exists (r : UpdateResult) (st' : state),
       @collect_update_result os 5 updated_wc false 200 true st
       = (Ok r, st')
       /\ before_update_rev updated_wc = Some (from_rev r)
       /\ after_update_rev updated_wc = Some (to_rev r).
Proof.
  intros os st.
  split; [reflexivity|]. split.
  - apply (proj1 (collect_update_result_needs_both_revisions os 5
                    (SvnOps_init (u8 "/wc")) false 200%Z true st)).
    left. reflexivity.
  - assert (Hrun : exists r st',
               @collect_update_result os 5 updated_wc false 200 true st
               = (Ok r, st'))
      by (vm_compute; eexists; eexists; reflexivity).
    destruct Hrun as (r & st' & Hrun).
    exists r, st'. split; [exact Hrun|].
    apply (proj2 (proj2 (proj2 (proj2
             (collect_update_result_needs_both_revisions os 5 updated_wc
                false 200%Z true st)))) r st' Hrun).
Defined.

(** *** Merging *)

Lemma dict_set_fresh (V : Type) (d : list (str * V)) (k : str) (v : V) :
  ~ In k (map fst d) -> dict_set d k v = d ++ [(k, v)].
Proof.
  induction d as [|[k' v'] d IH]; intros Hn; [reflexivity|].
  cbn [dict_set]. destruct (str_eqb k' k) eqn:E.
  - apply str_eqb_eq in E. subst. exfalso. apply Hn. left. reflexivity.
  - cbn [app]. rewrite IH; [reflexivity|].
    intros H. apply Hn. right. exact H.
Qed.

Lemma dict_set_keys (V : Type) (d : list (str * V)) (k : str) (v : V) :
  map fst (dict_set d k v)
  = if in_set k (map fst d) then map fst d else map fst d ++ [k].
Proof.
  induction d as [|[k' v'] d IH]; [reflexivity|].
  cbn [dict_set map fst in_set existsb].
  destruct (str_eqb k' k) eqn:E.
  - apply str_eqb_eq in E. subst k'.
    assert (E' : str_eqb k k = true) by (apply str_eqb_eq; reflexivity).
    rewrite E'. reflexivity.
  - assert (E' : str_eqb k k' = false).
    { destruct (str_eqb k k') eqn:E2; [|reflexivity].
      apply str_eqb_eq in E2. subst.
      assert (str_eqb k' k' = true) by (apply str_eqb_eq; reflexivity).
      congruence. }
    rewrite E'. cbn [orb map fst]. rewrite IH.
    fold (in_set k (map fst d)). destruct (in_set k (map fst d)); reflexivity.
Qed.

Lemma dict_set_NoDup (V : Type) (d : list (str * V)) (k : str) (v : V) :
  NoDup (map fst d) -> NoDup (map fst (dict_set d k v)).
Proof.
  intros Hd. rewrite dict_set_keys.
  destruct (in_set k (map fst d)) eqn:E; [exact Hd|].
  apply NoDup_app; [exact Hd | repeat constructor; intros [] |].
  intros x Hx [<-|[]]. apply in_set_In in Hx. congruence.
Qed.

Lemma store_from_NoDup (collected acc : list (str * list RevisionChange)) :
  NoDup (map fst acc) ->
  NoDup (map fst (fold_left (fun d kv => dict_set d (fst kv) (snd kv))
                    collected acc)).
Proof.
  revert acc. induction collected as [|kv l IH]; intros acc Hacc;
    [exact Hacc|].
  cbn [fold_left]. apply IH. apply dict_set_NoDup. exact Hacc.
Qed.

Lemma store_from_distinct (collected acc : list (str * list RevisionChange)) :
  NoDup (map fst (acc ++ collected)) ->
  fold_left (fun d kv => dict_set d (fst kv) (snd kv)) collected acc
  = acc ++ collected.
Proof.
  revert acc. induction collected as [|[k v] l IH]; intros acc Hnd.
  - rewrite app_nil_r. reflexivity.
  - cbn [fold_left fst snd]. rewrite dict_set_fresh.
    + rewrite IH; rewrite <- app_assoc; [reflexivity | exact Hnd].
    + rewrite map_app in Hnd. cbn [map fst] in Hnd.
      apply NoDup_remove_2 in Hnd. intros H. apply Hnd.
      apply in_or_app. left. exact H.
Qed.

Lemma store_all_distinct (collected : list (str * list RevisionChange)) :
  NoDup (map fst collected) -> store_all collected = collected.
Proof. intros H. apply (store_from_distinct collected []). exact H. Qed.

(** *** The sort key *)

Lemma digit_val_nonneg (c : N) (d : Z) :
  digit_val c = Some d -> (0 <= d)%Z.
Proof.
  unfold digit_val. destruct (find _ _); intros H; inversion H. lia.
Qed.

Lemma parse_digits_nonneg (s : str) :
  forall (acc : Z) (b : bool) (z : Z),
    parse_digits acc b s = Some z -> (0 <= acc)%Z -> (0 <= z)%Z.
Proof.
  induction s as [|c s IH]; intros acc b z H Hacc; cbn [parse_digits] in H.
  - destruct b; [inversion H; subst; exact Hacc | discriminate H].
  - destruct (c =? 95).
    + destruct b; [|discriminate H]. apply (IH _ _ _ H Hacc).
    + destruct (digit_val c) as [d|] eqn:Ed; [|discriminate H].
      apply digit_val_nonneg in Ed. apply (IH _ _ _ H). nia.
Qed.

Lemma int_nonneg (s : str) (z : Z) :
  ~ has_minus_sign s -> int s = Some z -> (0 <= z)%Z.
Proof.
  unfold has_minus_sign, int. intros Hsign.
  destruct (strip_by int_space s) as [|x t] eqn:E.
  { intros P. apply (parse_digits_nonneg _ _ _ _ P). lia. }
  destruct (N.eq_dec x 45) as [->|H45];
    [exfalso; apply Hsign; exact I|].
  destruct (N.eq_dec x 43) as [->|H43].
  { intros P. apply (parse_digits_nonneg _ _ _ _ P). lia. }
  assert (Hplain : forall o : option Z,
             match x :: t with
             | 43 :: r => parse_digits 0 false r
             | 45 :: r => option_map Z.opp (parse_digits 0 false r)
             | r => parse_digits 0 false r
             end = o -> parse_digits 0 false (x :: t) = o).
  { intros o. destruct x as [|q]; [exact (fun H => H)|].
    do 6 (destruct q as [q|q|]; try exact (fun H => H));
      contradiction. }
  intros P. apply Hplain in P. apply (parse_digits_nonneg _ _ _ _ P). lia.
Qed.

Lemma int_limited_some (m : nat) (s : str) (z : Z) :
  int_limited m s = Some z -> int s = Some z.
Proof.
  unfold int_limited. destruct (int s) as [z'|]; [|discriminate].
  destruct (_ && _); [discriminate | exact (fun H => H)].
Qed.

Lemma key_nonneg (c : RevisionChange) :
  ~ has_minus_sign (revision c) -> (0 <= _key c)%Z.
Proof.
  unfold _key. intros Hsign.
  destruct (int_limited default_max_str_digits (revision c)) as [z|] eqn:E;
    [|lia].
  apply int_limited_some in E. apply (int_nonneg _ _ Hsign E).
Qed.

Section MergeFacts.
Context {os : OS}.

Lemma collect_external_inv (t_start t_end : str) (include_diff : bool)
    (max_diff_lines : Z) (e : str) (acc acc' : list (str * list RevisionChange))
    (st st' : state) :
  collect_external t_start t_end include_diff max_diff_lines e acc st
  = (Ok acc', st') ->
  exists kv,
    collect_external t_start t_end include_diff max_diff_lines e [] st
    = (Ok [kv], st')
    /\ acc' = dict_set acc (fst kv) (snd kv).
Proof.
  unfold collect_external. intros H.
  apply bind_Ok_inv in H. destruct H as (url & st1 & E1 & H).
  apply bind_Ok_inv in H. destruct H as (l0 & st2 & E2 & H).
  apply bind_Ok_inv in H. destruct H as (l & st3 & E3 & H).
  inversion H; subst.
  exists (url, l). split; [|reflexivity].
  rewrite (bind_Ok _ _ _ _ _ E1), (bind_Ok _ _ _ _ _ E2),
    (bind_Ok _ _ _ _ _ E3).
  reflexivity.
Qed.

Lemma externals_loop_inv (t_start t_end : str) (include_diff : bool)
    (max_diff_lines : Z) (es : list str) :
  forall (acc ext : list (str * list RevisionChange)) (st st' : state),
    fold_each es
      (collect_external t_start t_end include_diff max_diff_lines) acc st
    = (Ok ext, st') ->
    exists collected,
      Forall2 (collected_for t_start t_end include_diff max_diff_lines)
        es collected
      /\ ext = fold_left (fun d kv => dict_set d (fst kv) (snd kv))
                 collected acc.
Proof.
  induction es as [|e es IH]; intros acc ext st st' H.
  - inversion H; subst. exists []. split; [constructor | reflexivity].
  - cbn [fold_each] in H. apply bind_Ok_inv in H.
    destruct H as (acc1 & st1 & E1 & H).
    apply collect_external_inv in E1. destruct E1 as (kv & Ekv & ->).
    destruct (IH _ _ _ _ H) as (collected & Hall & ->).
    exists (kv :: collected). split; [|reflexivity].
    constructor; [|exact Hall]. exists st, st1. exact Ekv.
Qed.

Lemma collect_change_summary_inv (fuel : nat) (self : SvnOps)
    (t_start t_end : str) (include_diff : bool) (max_diff_lines : Z)
    (include_externals : bool) (st st' : state) (summary : Summary) :
  collect_change_summary fuel self (Some t_start) (Some t_end) include_diff
    max_diff_lines include_externals st = (Ok summary, st') ->
  exists (main0 : list RevisionChange) (es : list str)
         (collected : list (str * list RevisionChange)),
    (exists sa sb sc,
        get_external_revision_list_by_time self (Some t_start) t_end sa
        = (Ok main0, sb)
        /\ (if include_diff then attach_diffs self max_diff_lines main0
            else ret main0) sb = (Ok (sum_main summary), sc))
    /\ (if include_externals
        then exists sa sb, get_all_externals fuel self sa = (Ok es, sb)
        else es = [])
    /\ Forall2 (collected_for t_start t_end include_diff max_diff_lines)
         es collected
    /\ sum_ext summary = store_all collected.
Proof.
  unfold collect_change_summary. intros H.
  rewrite (bind_Ok _ _ st st t_start) in H by reflexivity.
  rewrite (bind_Ok _ _ st st t_end) in H by reflexivity.
  apply bind_Ok_inv in H. destruct H as (main0 & st1 & E1 & H).
  apply bind_Ok_inv in H. destruct H as (main & st2 & E2 & H).
  apply bind_Ok_inv in H. destruct H as (ext & st3 & E3 & H).
  inversion H; subst. cbn [sum_main sum_ext].
  destruct include_externals.
  - apply bind_Ok_inv in E3. destruct E3 as (es & st4 & E4 & E3).
    destruct (externals_loop_inv _ _ _ _ _ _ _ _ _ E3)
      as (collected & Hall & ->).
    exists main0, es, collected.
    split; [exists st, st1, st2; split; assumption|].
    split; [exists st2, st4; exact E4|].
    split; [exact Hall | reflexivity].
  - inversion E3; subst. exists main0, [], [].
    split; [do 3 eexists; split; eassumption|].
    split; [reflexivity|].
    split; [constructor | reflexivity].
Qed.

End MergeFacts.

(** *** The result is produced *)

Lemma map_each_ok {os : OS} {A B : Type} (body : A -> M B) (l : list A) :
  (forall x st, exists y st', body x st = (Ok y, st')) ->
  forall st, exists ys st', map_each l body st = (Ok ys, st').
Proof.
  intros Hbody. induction l as [|x l IH]; intros st.
  - exists [], st. reflexivity.
  - cbn [map_each]. destruct (Hbody x st) as (y & st1 & E1).
    rewrite (bind_Ok _ _ _ _ _ E1).
    destruct (IH st1) as (ys & st2 & E2).
    rewrite (bind_Ok _ _ _ _ _ E2). exists (y :: ys), st2. reflexivity.
Qed.

Lemma fold_each_ok {os : OS} {A S : Type} (body : A -> S -> M S)
    (l : list A) :
  (forall x acc st, exists acc' st', body x acc st = (Ok acc', st')) ->
  forall acc st, exists acc' st', fold_each l body acc st = (Ok acc', st').
Proof.
  intros Hbody. induction l as [|x l IH]; intros acc st.
  - exists acc, st. reflexivity.
  - cbn [fold_each]. destruct (Hbody x acc st) as (acc1 & st1 & E1).
    rewrite (bind_Ok _ _ _ _ _ E1). apply IH.
Qed.

Section ProductionFacts.
Context {os : OS}.
Hypothesis Hexit :
  forall (c : Call) (w : world), returncode (fst (subprocess_run c w)) = 0%Z.
Hypothesis Hlog :
  forall (ops : SvnOps) (range : str) (w : world),
    let out :=
      proc_stdout
        (fst (subprocess_run
                (svn_call ops [u8 "log"; u8 "-v"; u8 "--xml"; u8 "-r"; range])
                w)) in
    ET_logentries (if truthy out then out else u8 "<log/>") <> None.

Lemma svn_exit_zero (self : SvnOps) (args : list str) (check : bool)
    (st : state) :
  exists err st',
    _svn self args check st
    = (Ok (0%Z,
           proc_stdout
             (fst (subprocess_run (svn_call self args) (st_world st))),
           err), st').
Proof.
  rewrite svn_unfold. cbv zeta. rewrite Hexit.
  cbn [Z.eqb negb andb]. rewrite Hexit. cbn [Z.eqb negb andb].
  rewrite Bool.andb_false_r. eexists. eexists. reflexivity.
Qed.

Lemma get_rev_time_ok (self : SvnOps) (rev : str) (st : state) :
  (exists entry entries,
      ET_logentries
        (proc_stdout
           (fst (subprocess_run
                   (svn_call self [u8 "log"; u8 "--xml"; u8 "-r"; rev])
                   (st_world st))))
      = Some (entry :: entries)) ->
  exists t st', get_rev_time self rev st = (Ok t, st').
Proof.
  intros (entry & entries & Hparse). unfold get_rev_time.
  destruct (svn_exit_zero self [u8 "log"; u8 "--xml"; u8 "-r"; rev] true st)
    as (err & st1 & E).
  rewrite (bind_Ok _ _ _ _ _ E). cbv beta iota. rewrite Hparse.
  eexists. eexists. reflexivity.
Qed.

Lemma revision_list_ok (self : SvnOps) (t_start t_end : str) (st : state) :
  exists l st',
    get_external_revision_list_by_time self (Some t_start) t_end st
    = (Ok l, st').
Proof.
  unfold get_external_revision_list_by_time. cbv zeta.
  match goal with
  | |- context [_svn self ?args false] =>
      destruct (svn_exit_zero self args false st) as (err & st1 & E);
      rewrite (bind_Ok _ _ _ _ _ E)
  end.
  cbv beta iota.
  match goal with
  | |- context [ET_logentries ?doc] =>
      destruct (ET_logentries doc) as [entries|] eqn:Hparse
  end.
  - eexists. eexists. reflexivity.
  - exfalso. revert Hparse. apply Hlog.
Qed.

Lemma get_diff_ok (self : SvnOps) (revision : str) (file_path : option str)
    (max_lines : Z) (st : state) :
  exists d st', get_diff self revision file_path max_lines st = (Ok d, st').
Proof.
  unfold get_diff. cbv zeta.
  destruct (svn_exit_zero self (diff_args revision file_path) true st)
    as (err & st1 & E).
  rewrite (bind_Ok _ _ _ _ _ E). cbv beta iota.
  eexists. eexists. reflexivity.
Qed.

Lemma attach_diffs_ok (ops : SvnOps) (max_diff_lines : Z)
    (revs : list RevisionChange) (st : state) :
  exists l st', attach_diffs ops max_diff_lines revs st = (Ok l, st').
Proof.
  unfold attach_diffs. apply map_each_ok. intros rev st0.
  match goal with
  | |- context [map_each ?l ?body] =>
      destruct (map_each_ok body l) with (st := st0) as (fs & st1 & E)
  end.
  { intros f st2.
    destruct (get_diff_ok ops (revision rev) (Some (fc_path f))
                max_diff_lines st2) as (d & st3 & Ed).
    rewrite (bind_Ok _ _ _ _ _ Ed). eexists. eexists. reflexivity. }
  rewrite (bind_Ok _ _ _ _ _ E). eexists. eexists. reflexivity.
Qed.

Lemma diffs_or_not_ok (ops : SvnOps) (include_diff : bool)
    (max_diff_lines : Z) (revs : list RevisionChange) (st : state) :
  exists l st',
    (if include_diff then attach_diffs ops max_diff_lines revs
     else ret revs) st = (Ok l, st').
Proof.
  destruct include_diff; [apply attach_diffs_ok|].
  exists revs, st. reflexivity.
Qed.

Lemma collect_external_ok (t_start t_end : str) (include_diff : bool)
    (max_diff_lines : Z) (e : str) (acc : list (str * list RevisionChange))
    (st : state) :
  exists acc' st',
    collect_external t_start t_end include_diff max_diff_lines e acc st
    = (Ok acc', st').
Proof.
  unfold collect_external. cbv zeta.
  assert (Hurl : exists u st1,
             get_current_url (SvnOps_init e) st = (Ok u, st1)).
  { unfold get_current_url.
    destruct (svn_exit_zero (SvnOps_init e)
                [u8 "info"; u8 "--show-item"; u8 "url"] true st)
      as (err & st1 & E).
    rewrite (bind_Ok _ _ _ _ _ E). cbv beta iota.
    eexists. eexists. reflexivity. }
  destruct Hurl as (u & st1 & E1). rewrite (bind_Ok _ _ _ _ _ E1).
  destruct (revision_list_ok (SvnOps_init e) t_start t_end st1)
    as (l & st2 & E2).
  rewrite (bind_Ok _ _ _ _ _ E2).
  destruct (diffs_or_not_ok (SvnOps_init e) include_diff max_diff_lines l st2)
    as (l' & st3 & E3).
  rewrite (bind_Ok _ _ _ _ _ E3). eexists. eexists. reflexivity.
Qed.

Lemma collect_change_summary_ok (fuel : nat) (self : SvnOps)
    (t_start t_end : str) (include_diff : bool) (max_diff_lines : Z)
    (include_externals : bool) (univ : list str) (st : state) :
  (include_externals = true ->
   externals_closed univ /\ In (repo_path self) univ
   /\ (List.length univ < fuel)%nat) ->
  exists summary st',
    collect_change_summary fuel self (Some t_start) (Some t_end)
      include_diff max_diff_lines include_externals st
    = (Ok summary, st').
Proof.
  intros Hext. unfold collect_change_summary.
  rewrite (bind_Ok _ _ st st t_start) by reflexivity.
  rewrite (bind_Ok _ _ st st t_end) by reflexivity.
  destruct (revision_list_ok self t_start t_end st) as (l & st1 & E1).
  rewrite (bind_Ok _ _ _ _ _ E1).
  destruct (diffs_or_not_ok self include_diff max_diff_lines l st1)
    as (l' & st2 & E2).
  rewrite (bind_Ok _ _ _ _ _ E2).
  assert (E3 : exists ext st3,
             (if include_externals
              then es <- get_all_externals fuel self ;;
                   fold_each es
                     (collect_external t_start t_end include_diff
                        max_diff_lines) []
              else ret []) st2 = (Ok ext, st3)).
  { destruct include_externals; [|exists [], st2; reflexivity].
    destruct (Hext eq_refl) as (Hclosed & Hroot & Hfuel).
    assert (Hlen : (List.length
                      (unvisited univ (visited (mkScanVars [] [])))
                    < fuel)%nat).
    { unfold unvisited.
      pose proof (filter_length_le str
                    (fun p => negb (in_set p (visited (mkScanVars [] []))))
                    (fun _ => true) univ (fun _ _ _ => eq_refl)) as Hle.
      rewrite (forallb_filter_id (fun _ : str => true) univ) in Hle
        by (apply forallb_forall; reflexivity).
      lia. }
    destruct (scan_terminates univ Hclosed fuel (repo_path self)
                (mkScanVars [] []) st2 Hroot Hlen)
      as (v' & order & added & st3 & E & _).
    unfold get_all_externals at 1.
    rewrite (bind_Ok _ _ st2 st3 (result v')).
    2:{ rewrite (bind_Ok _ _ _ _ _ E). reflexivity. }
    apply fold_each_ok. intros x acc st0. apply collect_external_ok. }
  destruct E3 as (ext & st3 & E3). rewrite (bind_Ok _ _ _ _ _ E3).
  eexists. eexists. reflexivity.
Qed.

End ProductionFacts.




(** ** The Git sync engine *)

(** C9 (what the code does). On an existing destination, a call of
    [update_repo] that leaves out [reset] and [clean] runs the hard reset
    and the forced clean, of the main tree and of the submodules: both
    parameters default to [True]. With the flags given, each step runs if
    and only if its own flag is set. *)
Theorem update_repo_defaults_run_reset_and_clean :
  let os := git_existing_os in
  let st := initial_state os [] in
  let trace_of (reset clean : option bool) :=
    st_trace (snd (@update_repo_call os git_url git_dest None None None None
                     reset clean st)) in
  @path_exists os git_dest (st_world st) = true
  /\ default_reset = true /\ default_clean = true
  /\ has_cmd git_reset_cmd (trace_of None None) = true
  /\ has_cmd (u8 "git" :: foreach_reset) (trace_of None None) = true
  /\ has_cmd git_clean_cmd (trace_of None None) = true
  /\ has_cmd (u8 "git" :: foreach_clean) (trace_of None None) = true
  /\ has_cmd git_reset_cmd (trace_of (Some false) (Some false)) = false
  /\ has_cmd git_clean_cmd (trace_of (Some false) (Some false)) = false
  /\ has_cmd git_reset_cmd (trace_of (Some true) (Some false)) = true
  /\ has_cmd git_clean_cmd (trace_of (Some true) (Some false)) = false
  /\ has_cmd git_reset_cmd (trace_of (Some false) (Some true)) = false
  /\ has_cmd git_clean_cmd (trace_of (Some false) (Some true)) = true.
Proof.
  vm_compute. repeat split.
Qed.

Section GitFacts.
Context {os : OS}.

Lemma submodule_change_inv (dest : str) (subs_before : list (str * str))
    (item : str * str) (acc acc' : list SubmoduleInfo) (st st' : state) :
  submodule_change dest subs_before item acc st = (Ok acc', st') ->
  exists added,
    acc' = acc ++ added
    /\ Forall (reported dest subs_before [item]) added.
Proof.
  unfold submodule_change. destruct item as [sub_path new_commit].
  destruct (dict_get subs_before sub_path) as [old_commit|] eqn:Eold.
  - destruct (truthy old_commit && negb (str_eqb old_commit new_commit))
      eqn:Echg.
    + intros H. apply bind_Ok_inv in H. destruct H as (cs & st1 & Ecs & H).
      inversion H; subst. eexists. split; [reflexivity|].
      apply andb_true_iff in Echg. destruct Echg as [Ht Hne].
      constructor; [|constructor].
      unfold reported; cbn [si_path si_from si_to si_commits].
      split; [exact Eold|]. split; [left; reflexivity|].
      split; [apply truthy_nonempty; exact Ht|].
      split.
      * intros ->. apply negb_true_iff in Hne.
        assert (str_eqb new_commit new_commit = true)
          by (apply str_eqb_eq; reflexivity).
        congruence.
      * do 2 eexists. exact Ecs.
    + intros H. inversion H; subst. exists []. rewrite app_nil_r.
      split; [reflexivity | constructor].
  - intros H. inversion H; subst. exists []. rewrite app_nil_r.
    split; [reflexivity | constructor].
Qed.

Lemma reported_weaken (dest : str) (subs_before a b : list (str * str))
    (s : SubmoduleInfo) :
  incl a b -> reported dest subs_before a s -> reported dest subs_before b s.
Proof.
  intros Hincl (H1 & H2 & H3 & H4 & H5).
  repeat split; auto.
Qed.

Lemma submodule_loop_inv (dest : str) (subs_before : list (str * str))
    (subs_after : list (str * str)) :
  forall (acc subs : list SubmoduleInfo) (st st' : state),
    fold_each subs_after (submodule_change dest subs_before) acc st
    = (Ok subs, st') ->
    exists added,
      subs = acc ++ added
      /\ Forall (reported dest subs_before subs_after) added.
Proof.
  induction subs_after as [|item l IH]; intros acc subs st st' H.
  - inversion H; subst. exists []. rewrite app_nil_r.
    split; [reflexivity | constructor].
  - cbn [fold_each] in H. apply bind_Ok_inv in H.
    destruct H as (acc1 & st1 & E1 & H).
    apply submodule_change_inv in E1. destruct E1 as (add1 & -> & Hadd1).
    destruct (IH _ _ _ _ H) as (add2 & -> & Hadd2).
    exists (add1 ++ add2). split; [rewrite app_assoc; reflexivity|].
    apply Forall_app. split.
    + eapply Forall_impl; [|exact Hadd1]. intros s.
      apply reported_weaken. intros x [<-|[]]. left. reflexivity.
    + eapply Forall_impl; [|exact Hadd2]. intros s.
      apply reported_weaken. intros x Hx. right. exact Hx.
Qed.

End GitFacts.

(** C10. A result of [update_repo] on a destination that did not exist
    records no former head, no commits of the main tree and no submodule,
    whatever submodules the clone brought. In every result, each entry of
    the submodule list is a submodule that had a (non-empty) commit in
    the snapshot taken before the update and has a different one in the
    snapshot taken after it, with these two commits and the log between
    them; the snapshot before the update is empty when the destination
    did not exist. *)
Theorem update_repo_fresh_clone_reports_no_range :
  forall (os : OS) (url dest : str) (branch : option str)
         (recursive lfs : bool) (ssh_key : option str) (reset clean : bool)
         (st st' : state) (info : GitSyncResult),
    update_repo url dest branch recursive lfs ssh_key reset clean st
      = (Ok info, st') ->
    (path_exists dest (st_world st) = false ->
     ri_from (repo info) = None
     /\ ri_commits (repo info) = []
     /\ submodules info = [])
    /\ exists subs_before subs_after : list (str * str),
         (path_exists dest (st_world st) = false -> subs_before = [])
         /\ (subs_before <> [] ->
             exists sa sb,
               get_submodule_states dest sa = (Ok subs_before, sb))
         /\ (exists sa sb, get_submodule_states dest sa = (Ok subs_after, sb))
         /\ Forall (reported dest subs_before subs_after) (submodules info).
Proof.
  intros os url dest branch recursive lfs ssh_key reset clean st st' info H.
  unfold update_repo in H. rewrite bind_ask in H.
  apply bind_Ok_inv in H. destruct H as (main_before & st1 & Emb & H).
  apply bind_Ok_inv in H. destruct H as (subs_before & st2 & Esb & H).
  rewrite bind_ask in H.
  apply bind_Ok_inv in H. destruct H as (u & st3 & _ & H).
  apply bind_Ok_inv in H. destruct H as (main_after & st4 & _ & H).
  apply bind_Ok_inv in H. destruct H as (subs_after & st5 & Esa & H).
  apply bind_Ok_inv in H. destruct H as (commits & st6 & Ecs & H).
  apply bind_Ok_inv in H. destruct H as (subs & st7 & Esubs & H).
  inversion H; subst. cbn [repo submodules ri_from ri_commits].
  destruct (submodule_loop_inv _ _ _ _ _ _ _ Esubs) as (added & -> & Hadd).
  cbn [app].
  assert (Hfresh : path_exists dest (st_world st) = false ->
                   main_before = None /\ subs_before = []).
  { intros Hex. rewrite Hex in Emb. inversion Emb; subst.
    cbn [truthy_opt] in Esb. inversion Esb; subst. split; reflexivity. }
  split.
  - intros Hex. destruct (Hfresh Hex) as [-> ->].
    split; [reflexivity|]. split.
    + cbn [truthy_opt] in Ecs. inversion Ecs; subst. reflexivity.
    + destruct added as [|s added]; [reflexivity|].
      inversion Hadd as [|? ? (Hget & _) _]; subst. discriminate Hget.
  - exists subs_before, subs_after.
    split; [intros Hex; apply (Hfresh Hex)|].
    split.
    + intros Hne. destruct (truthy_opt main_before).
      * exists st1, st2. exact Esb.
      * inversion Esb; subst. contradiction.
    + split; [exists st4, st5; exact Esa | exact Hadd].
Qed.

Lemma update_repo_fresh_clone_reports_no_range_witness :
  let os := git_fresh_os in
  let st := initial_state os [] in
  @path_exists os git_dest (st_world st) = false
  /\ exists (info : GitSyncResult) (st' : state),
       @update_repo os git_url git_dest None true true None true true st
       = (Ok info, st')
       /\ has_cmd [u8 "git"; u8 "clone"; git_url; git_dest; u8 "--recursive"]
            (st_trace st') = true
       /\ ri_from (repo info) = None
       /\ ri_commits (repo info) = []
       /\ submodules info = [].
Proof.
  intros os st.
  assert (Hex : @path_exists os git_dest (st_world st) = false)
    by reflexivity.
  split; [exact Hex|].
  assert (Hrun : exists info st',
             @update_repo os git_url git_dest None true true None true true st
             = (Ok info, st')
             /\ has_cmd [u8 "git"; u8 "clone"; git_url; git_dest;
                         u8 "--recursive"] (st_trace st') = true)
    by (vm_compute; eexists; eexists; split; reflexivity).
  destruct Hrun as (info & st' & Hrun & Hclone).
  exists info, st'. split; [exact Hrun|]. split; [exact Hclone|].
  apply (proj1 (update_repo_fresh_clone_reports_no_range os git_url git_dest
                  None true true None true true st st' info Hrun) Hex).
Defined.

(* ================================================================== *)
(** * Part III: further properties of the code                         *)
(* ================================================================== *)

(** ** [_svn]: the outcome *)


(** X1. The outcome of [_svn] is decided by the last run of the command,
    the retry when there was one and the first run otherwise: with
    [check] and a nonzero exit of that run the call raises, with a message
    that names the command and ends with that run's stderr; in every
    other case it returns that run's exit code, stdout and stderr. So a
    lock that [svn cleanup] clears makes a strict call succeed, and a
    run that exits with 0 never raises. *)
Theorem svn_outcome_is_last_run :
  forall (os : OS) (self : SvnOps) (args : list str) (check : bool)
         (st : state),
    let cmd := svn_call self args in
    let first := fst (subprocess_run cmd (st_world st)) in
    let w1 := snd (subprocess_run cmd (st_world st)) in
    let recover :=
      negb (returncode first =? 0)%Z && locked (proc_stderr first) in
    let w2 := snd (subprocess_run (cleanup_call self) w1) in
    let final := if recover then fst (subprocess_run cmd w2) else first in
    let outcome := fst (_svn self args check st) in
    (check = false \/ returncode final = 0%Z ->
     outcome = Ok (returncode final, proc_stdout final, proc_stderr final))
    /\ (check = true -> returncode final <> 0%Z ->
        exists prefix,
          outcome
          = Raise (VCSException
                     (u8 "svn 执行失败: " ++ join (u8 " ") (u8 "svn" :: args)
                      ++ prefix ++ proc_stderr final))).
Proof.
  intros os self args check st cmd first w1 recover w2 final outcome.
  subst outcome. rewrite svn_unfold. cbv zeta. cbn [fst].
  fold cmd first w1 recover w2 final. split.
  - intros [-> | H]; [reflexivity|]. rewrite H. rewrite andb_false_r.
    reflexivity.
  - intros -> Hne. apply Z.eqb_neq in Hne. rewrite Hne. cbn [negb andb].
    unfold svn_message.
    exists (NL ++ u8 "退出码: " ++ str_of_Z (returncode final) ++ NL
            ++ u8 "OUT:" ++ NL ++ proc_stdout final ++ NL ++ u8 "ERR:" ++ NL).
    repeat rewrite <- app_assoc. reflexivity.
Qed.

Lemma svn_outcome_is_last_run_witness :
  let self := SvnOps_init (u8 "/wc") in
  let st := initial_state locked_once_os [] in
  let cmd := svn_call self [u8 "update"] in
  let first := fst (@subprocess_run locked_once_os cmd (st_world st)) in
  returncode first <> 0%Z
  /\ fst (@_svn locked_once_os self [u8 "update"] true st)
     = Ok (0%Z, u8 "At revision 7.", []).
Proof.
  intros self st cmd first.
  split; [vm_compute; discriminate|].
  pose proof (@svn_outcome_is_last_run locked_once_os self [u8 "update"] true
                st) as H.
  cbv zeta in H. destruct H as [H _].
  rewrite H; [vm_compute; reflexivity|].
  right. vm_compute. reflexivity.
Defined.

(** ** The cleaner and the resolver: what can fail *)

Section BestEffortFacts.
Context {os : OS}.

Lemma cleanup_ok (self : SvnOps) (aggressive : bool) (st : state) :
  exists st', cleanup self aggressive st = (Ok tt, st').
Proof.
  unfold cleanup.
  destruct (run_cmd_unchecked [u8 "svn"; u8 "cleanup"]
              (Some (repo_path self)) st)
    as (c & o & e & st1 & E1 & _ & _).
  rewrite (bind_Ok _ _ _ _ _ E1).
  destruct aggressive; [|eexists; reflexivity].
  match goal with
  | |- context [run_cmd ?a ?c false] =>
      destruct (run_cmd_unchecked a c st1)
        as (c' & o' & e' & st2 & E2 & _ & _)
  end.
  rewrite (bind_Ok _ _ _ _ _ E2). eexists; reflexivity.
Qed.

Lemma scan_loop_no_raise
    (scan_f : str -> ScanVars -> M ScanVars)
    (Hscan : forall path v st e, fst (scan_f path v st) <> Raise e)
    (ex : list str) :
  forall v st e, fst (scan_loop scan_f ex v st) <> Raise e.
Proof.
  induction ex as [|x ex IH]; intros v st e; [discriminate|].
  cbn [scan_loop]. rewrite bind_ask.
  destruct (path_isdir x (st_world st)).
  - pose proof (Hscan x (mkScanVars (visited v) (result v ++ [x])) st) as H.
    destruct (scan_f x (mkScanVars (visited v) (result v ++ [x])) st)
      as [[v1|e1|] st1] eqn:E1.
    + rewrite (bind_Ok _ _ _ _ _ E1). apply IH.
    + exfalso. apply (H e1). reflexivity.
    + rewrite (bind_OutOfFuel _ _ _ _ E1). discriminate.
  - rewrite (bind_Ok _ _ st st v) by reflexivity. apply IH.
Qed.

Lemma scan_no_raise (fuel : nat) :
  forall path v st e, fst (scan fuel path v st) <> Raise e.
Proof.
  induction fuel as [|fuel IH]; intros path v st e; [discriminate|].
  rewrite scan_S. destruct (in_set path (visited v)); [discriminate|].
  destruct (get_externals_ok (SvnOps_init path) st) as (ex & st1 & E1 & _).
  rewrite (bind_Ok _ _ _ _ _ E1). apply scan_loop_no_raise. exact IH.
Qed.

Lemma get_all_externals_no_raise (fuel : nat) (self : SvnOps) (st : state)
    (e : exn) :
  fst (get_all_externals fuel self st) <> Raise e.
Proof.
  unfold get_all_externals.
  pose proof (scan_no_raise fuel (repo_path self) (mkScanVars [] []) st) as H.
  destruct (scan fuel (repo_path self) (mkScanVars [] []) st)
    as [[v|e1|] st1] eqn:E1.
  - rewrite (bind_Ok _ _ _ _ _ E1). discriminate.
  - exfalso. apply (H e1). reflexivity.
  - rewrite (bind_OutOfFuel _ _ _ _ E1). discriminate.
Qed.

Lemma for_each_no_raise {A : Type} (body : A -> M unit) (l : list A) :
  (forall x st e, fst (body x st) <> Raise e) ->
  forall st e, fst (for_each l body st) <> Raise e.
Proof.
  intros Hbody. induction l as [|x l IH]; intros st e; [discriminate|].
  cbn [for_each]. pose proof (Hbody x st) as H.
  destruct (body x st) as [[[]|e1|] st1] eqn:E1.
  - rewrite (bind_Ok _ _ _ _ _ E1). apply IH.
  - exfalso. apply (H e1). reflexivity.
  - rewrite (bind_OutOfFuel _ _ _ _ E1). discriminate.
Qed.

Lemma ensure_clean_workspace_no_raise (fuel : nat) :
  forall self st e, fst (ensure_clean_workspace fuel self st) <> Raise e.
Proof.
  induction fuel as [|fuel IH]; intros self st e; [discriminate|].
  cbn [ensure_clean_workspace].
  destruct (revert_local_changes_ok self st) as (st1 & E1).
  rewrite (bind_Ok _ _ _ _ _ E1).
  destruct (cleanup_ok self false st1) as (st2 & E2).
  rewrite (bind_Ok _ _ _ _ _ E2).
  unfold clean_externals_with.
  pose proof (get_all_externals_no_raise fuel self st2) as H.
  destruct (get_all_externals fuel self st2) as [[es|e1|] st3] eqn:E3.
  - rewrite (bind_Ok _ _ _ _ _ E3). apply for_each_no_raise.
    intros x s e0. rewrite bind_ask.
    destruct (path_isdir x (st_world s)); [apply IH | discriminate].
  - exfalso. apply (H e1). reflexivity.
  - rewrite (bind_OutOfFuel _ _ _ _ E3). discriminate.
Qed.

End BestEffortFacts.

(** X2. A failing [svn] does not make the workspace cleaner or the
    external resolver fail. Whatever the [svn] processes answer,
    [revert_local_changes], [cleanup] and [get_externals] return
    normally. A call of [get_all_externals], [clean_externals] or
    [ensure_clean_workspace] has two outcomes only: it returns normally,
    or its recursion goes deeper than the depth it is allowed, which in
    Python ends in [RecursionError] (externals that name each other, or
    that never stop naming new paths). None of them raises an exception
    of [svn_ops]. *)
Theorem cleaner_fails_only_by_depth :
  forall (os : OS) (fuel : nat) (self : SvnOps) (aggressive : bool)
         (st : state),
    (exists st', revert_local_changes self st = (Ok tt, st'))
    /\ (exists st', cleanup self aggressive st = (Ok tt, st'))
    /\ (exists ex st', get_externals self st = (Ok ex, st'))
    /\ ((exists es, fst (get_all_externals fuel self st) = Ok es)
        \/ fst (get_all_externals fuel self st) = OutOfFuel)
    /\ (fst (clean_externals fuel self st) = Ok tt
        \/ fst (clean_externals fuel self st) = OutOfFuel)
    /\ (fst (ensure_clean_workspace fuel self st) = Ok tt
        \/ fst (ensure_clean_workspace fuel self st) = OutOfFuel).
Proof.
  intros os fuel self aggressive st.
  assert (Hcases : forall (A : Type) (r : res A),
             (forall e, r <> Raise e) ->
             (exists a, r = Ok a) \/ r = OutOfFuel).
  { intros A [a|e|] H; [left; eauto | exfalso; apply (H e); reflexivity
                       | right; reflexivity]. }
  assert (Hunit : forall r : res unit,
             (forall e, r <> Raise e) -> r = Ok tt \/ r = OutOfFuel).
  { intros r H. destruct (Hcases _ r H) as [([] & ->)| ->]; auto. }
  split; [apply revert_local_changes_ok|].
  split; [apply cleanup_ok|].
  split. { destruct (get_externals_ok self st) as (ex & st' & E & _). eauto. }
  split; [apply Hcases; intros e; apply get_all_externals_no_raise|].
  split; [|apply Hunit; intros e; apply ensure_clean_workspace_no_raise].
  apply Hunit. intros e. unfold clean_externals, clean_externals_with.
  pose proof (get_all_externals_no_raise fuel self st) as H.
  destruct (get_all_externals fuel self st) as [[es|e1|] st3] eqn:E3.
  - rewrite (bind_Ok _ _ _ _ _ E3). apply for_each_no_raise.
    intros x s e0. rewrite bind_ask.
    destruct (path_isdir x (st_world s));
      [apply ensure_clean_workspace_no_raise | discriminate].
  - exfalso. apply (H e1). reflexivity.
  - rewrite (bind_OutOfFuel _ _ _ _ E3). discriminate.
Qed.

(** ** Cleaning an acyclic external graph *)

Section AcyclicFacts.
Context {os : OS}.
Variable univ : list str.
Variable rank : str -> nat.
Hypothesis Hranked : externals_ranked univ rank.

Lemma scan_loop_ranked (fuel bound : nat)
    (Hscan : forall path v st,
        In path univ -> (rank path < fuel)%nat ->
        ranked_post univ rank (rank path) v st (scan fuel path v st))
    (Hbound : (bound <= fuel)%nat) (ex : list str) :
  (forall e st', In e ex -> path_isdir e (st_world st') = true ->
                 In e univ /\ (rank e < bound)%nat) ->
  forall v st, ranked_post univ rank bound v st (scan_loop (scan fuel) ex v st).
Proof.
  induction ex as [|e ex IH]; intros Hex v st.
  - exists v, st, [], []. rewrite !app_nil_r. repeat split. constructor.
  - cbn [scan_loop]. rewrite bind_ask.
    assert (Hex' : forall e0 st', In e0 ex ->
               path_isdir e0 (st_world st') = true ->
               In e0 univ /\ (rank e0 < bound)%nat)
      by (intros e0 st' H0; apply Hex; right; exact H0).
    destruct (path_isdir e (st_world st)) eqn:Hdir.
    + destruct (Hex e st (or_introl eq_refl) Hdir) as [He Hr].
      destruct (Hscan e (mkScanVars (visited v) (result v ++ [e])) st He
                  ltac:(lia))
        as (v1 & st1 & add1 & d1 & E1 & Hres1 & Hadd1 & Htr1).
      cbn [result] in Hres1.
      rewrite (bind_Ok _ _ _ _ _ E1).
      destruct (IH Hex' v1 st1)
        as (v2 & st2 & add2 & d2 & E2 & Hres2 & Hadd2 & Htr2).
      exists v2, st2, ([e] ++ add1 ++ add2), (d1 ++ d2).
      split; [exact E2|]. split.
      { rewrite Hres2, Hres1, <- !app_assoc. reflexivity. }
      split.
      { apply Forall_app. split; [repeat constructor; assumption|].
        apply Forall_app. split; [|exact Hadd2].
        eapply Forall_impl; [|exact Hadd1]. intros x [Hx Hrx].
        split; [exact Hx | lia]. }
      rewrite Htr2, Htr1, <- app_assoc. reflexivity.
    + rewrite (bind_Ok _ _ st st v) by reflexivity. apply IH. exact Hex'.
Qed.

Lemma scan_ranked (fuel : nat) :
  forall path v st,
    In path univ -> (rank path < fuel)%nat ->
    ranked_post univ rank (rank path) v st (scan fuel path v st).
Proof.
  induction fuel as [|fuel IH]; intros path v st Hpath Hfuel; [lia|].
  rewrite scan_S. destruct (in_set path (visited v)).
  - exists v, st, [], []. rewrite !app_nil_r. repeat split. constructor.
  - destruct (get_externals_ok (SvnOps_init path) st)
      as (ex & st1 & E1 & Htr1).
    rewrite (bind_Ok _ _ _ _ _ E1).
    assert (Hex : forall e st', In e ex ->
               path_isdir e (st_world st') = true ->
               In e univ /\ (rank e < rank path)%nat).
    { intros e st' He Hdir. apply (Hranked path e st st' Hpath); [|exact Hdir].
      unfold externals_at. rewrite E1. exact He. }
    destruct (scan_loop_ranked fuel (rank path) IH ltac:(lia) ex Hex
                (mkScanVars (path :: visited v) (result v)) st1)
      as (v2 & st2 & add2 & d2 & E2 & Hres2 & Hadd2 & Htr2).
    cbn [result] in Hres2.
    exists v2, st2, add2, ([propget_in path] ++ d2).
    split; [exact E2|]. split; [exact Hres2|]. split; [exact Hadd2|].
    rewrite Htr2, Htr1. cbn [repo_path SvnOps_init].
    rewrite <- app_assoc. reflexivity.
Qed.

Lemma get_all_externals_ranked (fuel : nat) (self : SvnOps) (st : state) :
  In (repo_path self) univ -> (rank (repo_path self) < fuel)%nat ->
  exists es st' delta,
    get_all_externals fuel self st = (Ok es, st')
    /\ Forall (fun e => In e univ /\ (rank e < rank (repo_path self))%nat) es
    /\ announced (st_trace st') = announced (st_trace st) ++ delta.
Proof.
  intros Hroot Hfuel.
  destruct (scan_ranked fuel (repo_path self) (mkScanVars [] []) st Hroot
              Hfuel)
    as (v & st' & added & d & E & Hres & Hadd & Htr).
  cbn [result app] in Hres.
  exists (result v), st', d. unfold get_all_externals.
  rewrite (bind_Ok _ _ _ _ _ E). rewrite Hres.
  split; [reflexivity|]. split; assumption.
Qed.

Lemma remove_unversioned_trace (self : SvnOps) (line : str) (st : state) :
  st_trace (snd (remove_unversioned self line st)) = st_trace st.
Proof.
  unfold remove_unversioned.
  destruct (negb (truthy (strip line))); [reflexivity|].
  destruct line as [|status line]; [reflexivity|].
  destruct (negb (status =? 63)); [reflexivity|].
  destruct (negb (truthy _)); [reflexivity|].
  rewrite bind_ask. destruct (path_isdir _ _); [reflexivity|].
  rewrite bind_ask. destruct (path_exists _ _); reflexivity.
Qed.

Lemma remove_loop_trace (self : SvnOps) (lines : list str) :
  forall st,
    st_trace (snd (for_each lines (remove_unversioned self) st)) = st_trace st.
Proof.
  induction lines as [|l lines IH]; intros st; [reflexivity|].
  cbn [for_each].
  destruct (remove_unversioned_ok self l st) as (st1 & E1).
  pose proof (remove_unversioned_trace self l st) as H1.
  rewrite E1 in H1. cbn [snd] in H1.
  rewrite (bind_Ok _ _ _ _ _ E1), IH. exact H1.
Qed.

Lemma revert_local_changes_announced (self : SvnOps) (st : state) :
  exists st',
    revert_local_changes self st = (Ok tt, st')
    /\ announced (st_trace st')
       = announced (st_trace st)
         ++ [revert_in (repo_path self);
             (repo_path self, [u8 "status"; u8 "--no-ignore"])].
Proof.
  destruct (revert_local_changes_ok self st) as (st' & E).
  exists st'. split; [exact E|].
  unfold revert_local_changes in E.
  pose proof (svn_announced self [u8 "revert"; u8 "-R"; u8 "."] false st)
    as H1.
  destruct (svn_unchecked_ok self [u8 "revert"; u8 "-R"; u8 "."] st)
    as (v1 & st1 & E1).
  rewrite E1 in H1. cbn [snd] in H1. rewrite (bind_Ok _ _ _ _ _ E1) in E.
  pose proof (svn_announced self [u8 "status"; u8 "--no-ignore"] false st1)
    as H2.
  destruct (svn_unchecked_ok self [u8 "status"; u8 "--no-ignore"] st1)
    as ([[c o] e] & st2 & E2).
  rewrite E2 in H2. cbn [snd] in H2. rewrite (bind_Ok _ _ _ _ _ E2) in E.
  pose proof (remove_loop_trace self (splitlines o) st2) as H3.
  rewrite E in H3. cbn [snd] in H3.
  rewrite H3, H2, H1, <- app_assoc. reflexivity.
Qed.

Lemma clean_loop_acyclic (fuel : nat)
    (Hclean : forall self st,
        In (repo_path self) univ -> (rank (repo_path self) + 1 < fuel)%nat ->
        cleaned_post self st (ensure_clean_workspace fuel self st))
    (es : list str) :
  Forall (fun e => In e univ /\ (rank e + 1 < fuel)%nat) es ->
  forall st,
    exists st' delta,
      for_each es (fun e =>
         d <- ask (path_isdir e) ;;
         if d then ensure_clean_workspace fuel (SvnOps_init e) else ret tt) st
      = (Ok tt, st')
      /\ announced (st_trace st') = announced (st_trace st) ++ delta
      /\ (forall e, In e es ->
            (forall s, path_isdir e (st_world s) = true) ->
            In (revert_in e) delta).
Proof.
  induction 1 as [|e es [He Hr] Hall IH]; intros st.
  - exists st, []. rewrite app_nil_r. repeat split. intros e [].
  - cbn [for_each].
    assert (Hstep : exists st1 d1,
               (d <- ask (path_isdir e) ;;
                if d then ensure_clean_workspace fuel (SvnOps_init e)
                else ret tt) st = (Ok tt, st1)
               /\ announced (st_trace st1) = announced (st_trace st) ++ d1
               /\ ((forall s, path_isdir e (st_world s) = true) ->
                   In (revert_in e) d1)).
    { rewrite bind_ask. destruct (path_isdir e (st_world st)) eqn:Hdir.
      - destruct (Hclean (SvnOps_init e) st He Hr)
          as (st1 & d1 & E1 & Htr1 & Hin1).
        exists st1, d1. repeat split; auto.
      - exists st, []. rewrite app_nil_r. repeat split.
        intros Hal. rewrite Hal in Hdir. discriminate Hdir. }
    destruct Hstep as (st1 & d1 & E1 & Htr1 & Hin1).
    rewrite (bind_Ok _ _ _ _ _ E1).
    destruct (IH st1) as (st2 & d2 & E2 & Htr2 & Hin2).
    exists st2, (d1 ++ d2). split; [exact E2|]. split.
    { rewrite Htr2, Htr1, <- app_assoc. reflexivity. }
    intros x [<-|Hx] Hal; apply in_or_app; [left | right]; auto.
Qed.

Lemma ensure_clean_workspace_ranked (fuel : nat) :
  forall self st,
    In (repo_path self) univ -> (rank (repo_path self) + 1 < fuel)%nat ->
    exists st' delta es sa sb,
      ensure_clean_workspace fuel self st = (Ok tt, st')
      /\ announced (st_trace st') = announced (st_trace st) ++ delta
      /\ In (revert_in (repo_path self)) delta
      /\ get_all_externals (pred fuel) self sa = (Ok es, sb)
      /\ (forall e, In e es ->
            (forall s, path_isdir e (st_world s) = true) ->
            In (revert_in e) delta).
Proof.
  induction fuel as [|fuel IH]; intros self st Hroot Hfuel; [lia|].
  cbn [ensure_clean_workspace pred].
  destruct (revert_local_changes_announced self st) as (st1 & E1 & Htr1).
  rewrite (bind_Ok _ _ _ _ _ E1).
  destruct (cleanup_plain_trace self st1) as (st2 & E2 & Htr2).
  rewrite (bind_Ok _ _ _ _ _ E2).
  unfold clean_externals_with.
  destruct (get_all_externals_ranked fuel self st2 Hroot ltac:(lia))
    as (es & st3 & d3 & E3 & Hes & Htr3).
  rewrite (bind_Ok _ _ _ _ _ E3).
  assert (Hclean : forall self0 st0,
             In (repo_path self0) univ ->
             (rank (repo_path self0) + 1 < fuel)%nat ->
             cleaned_post self0 st0 (ensure_clean_workspace fuel self0 st0)).
  { intros self0 st0 H0 H1.
    destruct (IH self0 st0 H0 H1) as (s' & d & _ & _ & _ & E & Htr & Hin & _).
    exists s', d. repeat split; assumption. }
  assert (Hes' : Forall (fun e => In e univ /\ (rank e + 1 < fuel)%nat) es).
  { eapply Forall_impl; [|exact Hes]. intros e [He Hr]. split; [exact He|lia]. }
  destruct (clean_loop_acyclic fuel Hclean es Hes' st3)
    as (st4 & d4 & E4 & Htr4 & Hin4).
  exists st4,
    ([revert_in (repo_path self);
      (repo_path self, [u8 "status"; u8 "--no-ignore"])] ++ d3 ++ d4),
    es, st2, st3.
  split; [exact E4|]. split.
  { rewrite Htr4, Htr3, Htr2, announced_app. cbn [announced].
    rewrite app_nil_r, Htr1, <- !app_assoc. reflexivity. }
  split; [left; reflexivity|]. split; [exact E3|].
  intros e He Hal. apply in_or_app. right. apply in_or_app. right.
  apply Hin4; assumption.
Qed.

End AcyclicFacts.



(** ** What [revert_local_changes] removes *)

Section RevertFacts.
Context {os : OS}.

Lemma dropwhile_keeps_last (p : N -> bool) (l : str) (c : N) :
  p c = false -> dropwhile p (l ++ [c]) <> [].
Proof.
  intros Hc. induction l as [|x l IH]; simpl.
  - rewrite Hc. discriminate.
  - destruct (p x); [exact IH | discriminate].
Qed.

Lemma strip_question_mark (rest : str) : truthy (strip (63 :: rest)) = true.
Proof.
  unfold strip, strip_by, rstrip_by, lstrip_by.
  rewrite dropwhile_head by reflexivity.
  cbn [rev].
  pose proof (dropwhile_keeps_last is_space (rev rest) 63 eq_refl) as H.
  destruct (dropwhile is_space (rev rest ++ [63])) as [|x l] eqn:E;
    [contradiction|].
  cbn [rev]. destruct (rev l); reflexivity.
Qed.

Lemma remove_unversioned_spec (self : SvnOps) (line : str) (st : state) :
  remove_unversioned self line st
  = (Ok tt,
     mkState (match unversioned_target self line with
              | Some full => remove_entry full (st_world st)
              | None => st_world st
              end) (st_trace st)).
Proof.
  destruct st as [w tr]. unfold remove_unversioned, unversioned_target.
  cbn [st_world st_trace].
  destruct line as [|c rest]; [reflexivity|].
  destruct (N.eqb_spec c 63) as [->|Hne].
  - rewrite strip_question_mark. cbn [negb].
    destruct (8 <? List.length (63%N :: rest))%nat; cbn [andb].
    + destruct (truthy (strip (slice_from (63 :: rest) 8))); cbn [negb];
        [|reflexivity].
      rewrite bind_ask. unfold remove_entry. cbn [st_world].
      destruct (path_isdir _ w); [reflexivity|].
      rewrite bind_ask. cbn [st_world].
      destruct (path_exists _ w); reflexivity.
    + reflexivity.
  - assert (Hnone : match c :: rest with
                    | 63 :: _ =>
                        if (8 <? List.length (c :: rest))%nat
                           && truthy (strip (slice_from (c :: rest) 8))
                        then Some (path_join (repo_path self)
                                     (strip (slice_from (c :: rest) 8)))
                        else None
                    | _ => None
                    end = None).
    { destruct c as [|p]; [reflexivity|].
      do 6 (destruct p as [p|p|]; try reflexivity).
      exfalso. apply Hne. reflexivity. }
    rewrite Hnone.
    destruct (negb (truthy (strip (c :: rest)))); [reflexivity|].
    cbn [negb]. reflexivity.
Qed.

Lemma remove_loop_unflagged (self : SvnOps) (lines : list str) :
  Forall (fun line => unversioned_target self line = None) lines ->
  forall st, for_each lines (remove_unversioned self) st = (Ok tt, st).
Proof.
  induction 1 as [|l lines Hl Hall IH]; intros st; [reflexivity|].
  cbn [for_each].
  rewrite (bind_Ok _ _ st st tt); [apply IH|].
  rewrite remove_unversioned_spec, Hl. destruct st; reflexivity.
Qed.

End RevertFacts.

(** X4. [revert_local_changes] removes an entry only for a status line
    flagged [?] in its first column that is longer than eight characters
    and names a path from the ninth on: for such a line the entry below
    the repository is removed (a directory with its content, anything
    else as a file), and every other line changes nothing. When no line
    of the status output is such a line, the method does no more than
    run the revert and the status. *)
Theorem revert_removes_only_unversioned :
  forall (os : OS) (self : SvnOps) (line : str) (st : state),
    remove_unversioned self line st
    = (Ok tt,
       mkState (match unversioned_target self line with
                | Some full => remove_entry full (st_world st)
                | None => st_world st
                end) (st_trace st))
    /\ (forall c rest, line = c :: rest -> c <> 63 ->
        unversioned_target self line = None)
    /\ ((List.length line <= 8)%nat -> unversioned_target self line = None)
    /\ exists code out err st2,
         (_svn self [u8 "revert"; u8 "-R"; u8 "."] false ;;
          _svn self [u8 "status"; u8 "--no-ignore"] false) st
         = (Ok (code, out, err), st2)
         /\ (Forall (fun l => unversioned_target self l = None)
               (splitlines out) ->
             revert_local_changes self st = (Ok tt, st2)).
Proof.
  intros os self line st.
  split; [apply remove_unversioned_spec|].
  split.
  { intros c rest -> Hne. unfold unversioned_target.
    destruct c as [|p]; [reflexivity|].
    do 6 (destruct p as [p|p|]; try reflexivity).
    exfalso. apply Hne. reflexivity. }
  split.
  { intros Hlen. unfold unversioned_target.
    destruct line as [|c rest]; [reflexivity|].
    destruct (Nat.ltb_spec 8 (List.length (c :: rest))); [lia|].
    cbn [andb].
    destruct c as [|p]; [reflexivity|].
    do 6 (destruct p as [p|p|]; try reflexivity). }
  destruct (svn_unchecked_ok self [u8 "revert"; u8 "-R"; u8 "."] st)
    as (v1 & st1 & E1).
  destruct (svn_unchecked_ok self [u8 "status"; u8 "--no-ignore"] st1)
    as ([[code out] err] & st2 & E2).
  exists code, out, err, st2. split.
  - rewrite (bind_Ok _ _ _ _ _ E1). exact E2.
  - intros Hall. unfold revert_local_changes.
    rewrite (bind_Ok _ _ _ _ _ E1), (bind_Ok _ _ _ _ _ E2).
    apply remove_loop_unflagged. exact Hall.
Qed.

Lemma revert_removes_only_unversioned_witness :
  let self := SvnOps_init (u8 "/wc") in
  unversioned_target self (u8 "?       build/tmp") = Some (u8 "/wc/build/tmp")
  /\ unversioned_target self (u8 "M       src/a.c") = None
  /\ unversioned_target self (u8 "? tmp") = None
  /\ exists st2,
       @revert_local_changes diff_os self (initial_state diff_os [])
       = (Ok tt, st2).
Proof.
  intros self.
  split; [vm_compute; reflexivity|].
  split.
  { apply (proj1 (proj2 (revert_removes_only_unversioned diff_os self
                           (u8 "M       src/a.c")
                           (initial_state diff_os [])))
             77 (u8 "       src/a.c") eq_refl).
    discriminate. }
  split.
  { apply (proj1 (proj2 (proj2 (revert_removes_only_unversioned diff_os self
                                  (u8 "? tmp") (initial_state diff_os []))))).
    vm_compute. lia. }
  destruct (revert_removes_only_unversioned diff_os self []
              (initial_state diff_os []))
    as (_ & _ & _ & code & out & err & st2 & Hrun & Hrev).
  exists st2. apply Hrev.
  assert (Hout : out = three_line_diff).
  { vm_compute in Hrun. inversion Hrun. reflexivity. }
  rewrite Hout. vm_compute. repeat constructor.
Defined.

(** ** Checkout, switch and the path-revision rules *)



(** X6. [switch_to] with the URL the working copy already has does
    nothing but ask for that URL: no cleaning and no switch, whatever
    revision was asked for. *)
Theorem switch_to_same_url_is_noop :
  forall (os : OS) (fuel : nat) (self : SvnOps) (url : str)
         (revision : option str) (st st1 : state) (code : Z) (out err : str),
    _svn self [u8 "info"; u8 "--show-item"; u8 "url"] true st
      = (Ok (code, out, err), st1) ->
    strip out = url ->
    switch_to fuel self url revision st = (Ok tt, st1)
    /\ announced (st_trace st1)
       = announced (st_trace st)
         ++ [(repo_path self, [u8 "info"; u8 "--show-item"; u8 "url"])].
Proof.
  intros os fuel self url revision st st1 code out err Hinfo Hurl.
  split.
  - unfold switch_to, get_current_url.
    erewrite bind_Ok; [|rewrite (bind_Ok _ _ _ _ _ Hinfo); reflexivity].
    rewrite Hurl.
    assert (E : str_eqb url url = true) by (apply str_eqb_eq; reflexivity).
    rewrite E. reflexivity.
  - pose proof (svn_announced self [u8 "info"; u8 "--show-item"; u8 "url"]
                  true st) as H.
    rewrite Hinfo in H. exact H.
Qed.

Lemma switch_to_same_url_is_noop_witness :
  let os := aggregation_os [u8 "ext"] in
  let self := SvnOps_init (u8 "/wc") in
  let st := initial_state os [] in
  exists st1,
    @switch_to os 0 self (u8 "https://svn.example.com/lib")
      (Some (u8 "99")) st = (Ok tt, st1).
Proof.
  intros os self st.
  assert (Hinfo : exists st1,
             @_svn os self [u8 "info"; u8 "--show-item"; u8 "url"] true st
             = (Ok (0%Z, u8 "https://svn.example.com/lib", []), st1))
    by (vm_compute; eexists; reflexivity).
  destruct Hinfo as (st1 & Hinfo). exists st1.
  apply (switch_to_same_url_is_noop os 0 self
           (u8 "https://svn.example.com/lib") (Some (u8 "99")) st st1 0%Z
           (u8 "https://svn.example.com/lib") [] Hinfo).
  vm_compute. reflexivity.
Defined.

Section PathRuleFacts.
Context {os : OS}.

Lemma update_paths_announced (self : SvnOps) (rules : list PathRevision) :
  forall st : state,
    let r := update_paths_to_revision self rules st in
    exists done rest,
      valid_rules rules = done ++ rest
      /\ announced (st_trace (snd r))
         = announced (st_trace st) ++ map (path_revision_in self) done
      /\ (fst r = Ok tt -> rest = []).
Proof.
  unfold update_paths_to_revision.
  induction rules as [|rule rules IH]; intros st; cbv zeta.
  - exists [], []. simpl. rewrite app_nil_r. auto.
  - cbn [for_each]. unfold valid_rules. cbn [flat_map].
    fold (valid_rules rules).
    destruct (truthy_opt (rule_path rule) && truthy_opt (rule_revision rule))
      eqn:Ev.
    + apply andb_true_iff in Ev. destruct Ev as [Ep Er].
      set (rel := default_to [] (rule_path rule)).
      set (rev := default_to [] (rule_revision rule)).
      set (st0 := if negb (path_exists (path_join (repo_path self) rel)
                             (st_world st))
                  then mkState (os_makedirs (path_join (repo_path self) rel)
                                  (st_world st)) (st_trace st)
                  else st).
      assert (Htr0 : st_trace st0 = st_trace st)
        by (subst st0; destruct (negb _); reflexivity).
      assert (Hbody : update_path_rule self rule st
                      = (_svn self (path_revision_args rel rev) true ;;
                         ret tt) st0).
      { unfold update_path_rule. rewrite Ep, Er. cbn [negb orb].
        rewrite bind_ask. fold rel rev. subst st0.
        destruct (negb _); reflexivity. }
      pose proof (svn_announced self (path_revision_args rel rev) true st0)
        as Hx.
      rewrite Htr0 in Hx.
      destruct (_svn self (path_revision_args rel rev) true st0)
        as [[v|e|] st1] eqn:E; cbn [snd] in Hx.
      * rewrite (bind_Ok _ _ st st1 tt)
          by (rewrite Hbody, (bind_Ok _ _ _ _ _ E); reflexivity).
        destruct (IH st1) as (done & rest & Hl & Htr & Hok).
        exists ((rel, rev) :: done), rest. repeat split.
        -- cbn [app]. rewrite Hl. reflexivity.
        -- rewrite Htr, Hx, <- app_assoc. reflexivity.
        -- exact Hok.
      * rewrite (bind_Raise _ _ st st1 e)
          by (rewrite Hbody, (bind_Raise _ _ _ _ _ E); reflexivity).
        exists [(rel, rev)], (valid_rules rules).
        repeat split; [exact Hx | discriminate].
      * rewrite (bind_OutOfFuel _ _ st st1)
          by (rewrite Hbody, (bind_OutOfFuel _ _ _ _ E); reflexivity).
        exists [(rel, rev)], (valid_rules rules).
        repeat split; [exact Hx | discriminate].
    + assert (Hskip : update_path_rule self rule st = (Ok tt, st)).
      { unfold update_path_rule. apply andb_false_iff in Ev.
        destruct Ev as [-> | ->]; [reflexivity|].
        rewrite orb_true_r. reflexivity. }
      rewrite (bind_Ok _ _ _ _ _ Hskip). cbn [app]. apply IH.
Qed.

End PathRuleFacts.

(** X7. [update_paths_to_revision] skips, silently and without any
    command, every rule whose path or revision is missing or empty; for
    the other rules it announces one update to the revision, with
    [--depth=infinity], in the order in which the rules are listed (no
    sorting by depth here): all of them when it returns, those up to the
    failing one when an update fails. *)
Theorem update_paths_follow_the_listed_order :
  forall (os : OS) (self : SvnOps) (rules : list PathRevision) (st : state),
    let r := update_paths_to_revision self rules st in
    (exists done rest,
        valid_rules rules = done ++ rest
        /\ announced (st_trace (snd r))
           = announced (st_trace st) ++ map (path_revision_in self) done
        /\ (fst r = Ok tt -> rest = []))
    /\ (valid_rules rules = [] -> r = (Ok tt, st))
    /\ (forall rev, valid_rules [mkPathRevision None rev] = [])
    /\ (forall p, valid_rules [mkPathRevision p None] = [])
    /\ (forall rev, valid_rules [mkPathRevision (Some []) rev] = [])
    /\ (forall p, valid_rules [mkPathRevision p (Some [])] = []).
Proof.
  intros os self rules st r.
  split; [apply update_paths_announced|].
  split.
  { subst r. unfold update_paths_to_revision. revert st.
    induction rules as [|rule rules IH]; intros st Hv; [reflexivity|].
    unfold valid_rules in Hv. cbn [flat_map] in Hv.
    apply app_eq_nil in Hv. destruct Hv as [H1 H2].
    cbn [for_each].
    destruct (truthy_opt (rule_path rule) && truthy_opt (rule_revision rule))
      eqn:Ev; [discriminate H1|].
    assert (Hskip : update_path_rule self rule st = (Ok tt, st)).
    { unfold update_path_rule. apply andb_false_iff in Ev.
      destruct Ev as [-> | ->]; [reflexivity|].
      rewrite orb_true_r. reflexivity. }
    rewrite (bind_Ok _ _ _ _ _ Hskip). apply IH. exact H2. }
  split; [reflexivity|]. split.
  { intros p. unfold valid_rules. cbn. rewrite andb_false_r. reflexivity. }
  split; [reflexivity|].
  intros p. unfold valid_rules. cbn. rewrite andb_false_r. reflexivity.
Qed.

Lemma update_paths_follow_the_listed_order_witness :
  let self := SvnOps_init (u8 "/wc") in
  let rules := [mkPathRevision (Some (u8 "a/b")) (Some (u8 "12"));
                mkPathRevision (Some (u8 "tools")) None;
                mkPathRevision (Some (u8 "a")) (Some (u8 "9"))] in
  valid_rules rules = [(u8 "a/b", u8 "12"); (u8 "a", u8 "9")]
  /\ announced
       (st_trace (snd (@update_paths_to_revision diff_os self rules
                         (initial_state diff_os []))))
     = [(u8 "/wc", path_revision_args (u8 "a/b") (u8 "12"));
        (u8 "/wc", path_revision_args (u8 "a") (u8 "9"))]
  /\ @update_paths_to_revision diff_os self
       [mkPathRevision (Some (u8 "tools")) None] (initial_state diff_os [])
     = (Ok tt, initial_state diff_os []).
Proof.
  intros self rules.
  split; [vm_compute; reflexivity|].
  split; [vm_compute; reflexivity|].
  apply (proj1 (proj2 (update_paths_follow_the_listed_order diff_os self
                         [mkPathRevision (Some (u8 "tools")) None]
                         (initial_state diff_os [])))).
  reflexivity.
Defined.

(** ** The history collector *)

Section CollectorFacts.
Context {os : OS}.

Lemma time_log_unfold (self : SvnOps) (t_start : option str) (t_end : str)
    (st : state) :
  get_external_revision_list_by_time self t_start t_end st
  = ('(_, out, _) <- _svn self (time_log_args t_start t_end) false ;;
     match ET_logentries (if truthy out then out else u8 "<log/>") with
     | None => raise ParseError
     | Some entries => ret (map change_of_entry entries)
     end) st.
Proof. reflexivity. Qed.

Lemma time_log_announced (self : SvnOps) (t_start : option str)
    (t_end : str) (st : state) :
  announced (st_trace (snd (get_external_revision_list_by_time self t_start
                              t_end st)))
  = announced (st_trace st) ++ [(repo_path self, time_log_args t_start t_end)].
Proof.
  rewrite time_log_unfold.
  pose proof (svn_announced self (time_log_args t_start t_end) false st) as H.
  destruct (svn_unchecked_ok self (time_log_args t_start t_end) st)
    as ([[c o] e] & st1 & E).
  rewrite E in H. cbn [snd] in H. rewrite (bind_Ok _ _ _ _ _ E).
  destruct (ET_logentries _); exact H.
Qed.

Lemma time_log_outcome (self : SvnOps) (t_start : option str) (t_end : str)
    (st : state) :
  exists code out err st1,
    _svn self (time_log_args t_start t_end) false st
    = (Ok (code, out, err), st1)
    /\ get_external_revision_list_by_time self t_start t_end st
       = match ET_logentries (if truthy out then out else u8 "<log/>") with
         | None => (Raise ParseError, st1)
         | Some entries => (Ok (map change_of_entry entries), st1)
         end.
Proof.
  destruct (svn_unchecked_ok self (time_log_args t_start t_end) st)
    as ([[c o] e] & st1 & E).
  exists c, o, e, st1. split; [exact E|].
  rewrite time_log_unfold, (bind_Ok _ _ _ _ _ E).
  destruct (ET_logentries _); reflexivity.
Qed.

End CollectorFacts.

(** X8. The log query over a window of time tolerates a failing [svn]:
    it never raises the exception of [svn_ops], and when [svn] printed
    nothing it reads the empty log document instead, which gives the
    empty list. Its result is read off the output of its one [svn log]:
    the records of the entries of that document, one for each entry, in
    the order of the document. [get_revision_list] is strict: a failure
    of its [svn log] is raised and nothing is parsed; with [from_rev]
    absent or empty it asks for the single revision [to_rev]. *)
Theorem log_queries_failure_modes :
  forall (os : OS) (self : SvnOps) (t_start from_rev : option str)
         (t_end to_rev : str) (st : state),
    (forall m, fst (get_external_revision_list_by_time self t_start t_end st)
               <> Raise (VCSException m))
    /\ (ET_logentries (u8 "<log/>") = Some [] ->
        forall code err st1,
          _svn self (time_log_args t_start t_end) false st
            = (Ok (code, [], err), st1) ->
          get_external_revision_list_by_time self t_start t_end st
          = (Ok [], st1))
    /\ (exists code out err st1,
          _svn self (time_log_args t_start t_end) false st
            = (Ok (code, out, err), st1)
          /\ get_external_revision_list_by_time self t_start t_end st
             = match ET_logentries (if truthy out then out
                                    else u8 "<log/>") with
               | Some entries => (Ok (map change_of_entry entries), st1)
               | None => (Raise ParseError, st1)
               end)
    /\ (forall code out err st1,
          _svn self [u8 "log"; u8 "-v"; u8 "--xml"; u8 "-r";
                     revision_range from_rev to_rev] true st
            = (Ok (code, out, err), st1) ->
          get_revision_list self from_rev to_rev st
          = match ET_logentries out with
            | Some entries => (Ok (map change_of_entry entries), st1)
            | None => (Raise ParseError, st1)
            end)
    /\ (forall e st1,
          _svn self [u8 "log"; u8 "-v"; u8 "--xml"; u8 "-r";
                     revision_range from_rev to_rev] true st
            = (Raise e, st1) ->
          get_revision_list self from_rev to_rev st = (Raise e, st1))
    /\ revision_range None to_rev = to_rev
    /\ revision_range (Some []) to_rev = to_rev.
Proof.
  intros os self t_start from_rev t_end to_rev st.
  destruct (time_log_outcome self t_start t_end st)
    as (code & out & err & st1 & Esvn & Erun).
  split.
  { intros m. rewrite Erun. destruct (ET_logentries _); discriminate. }
  split.
  { intros Hempty code' err' st1' Esvn'. rewrite Esvn in Esvn'.
    inversion Esvn'; subst. rewrite Erun. cbn [truthy]. rewrite Hempty.
    reflexivity. }
  split.
  { exists code, out, err, st1. split; [exact Esvn|]. rewrite Erun.
    destruct (ET_logentries _); reflexivity. }
  split.
  { intros code' out' err' st1' Hok. unfold get_revision_list.
    rewrite (bind_Ok _ _ _ _ _ Hok).
    destruct (ET_logentries out'); reflexivity. }
  split.
  { intros e st1' Hraise. unfold get_revision_list.
    rewrite (bind_Raise _ _ _ _ _ Hraise). reflexivity. }
  split; reflexivity.
Qed.

Lemma log_queries_failure_modes_witness :
  let self := SvnOps_init (u8 "/wc") in
  let st := initial_state silent_os [] in
  @ET_logentries silent_os (u8 "<log/>") = Some []
  /\ (exists st1,
        @get_external_revision_list_by_time silent_os self (Some t_before)
          t_after st = (Ok [], st1))
  /\ exists e st1,
       @get_revision_list silent_os self (Some (u8 "4")) (u8 "7") st
       = (Raise e, st1).
Proof.
  intros self st.
  assert (Hxml : @ET_logentries silent_os (u8 "<log/>") = Some [])
    by reflexivity.
  split; [exact Hxml|]. split.
  - assert (Hsvn : exists err st1,
               @_svn silent_os self (time_log_args (Some t_before) t_after)
                 false st = (Ok (1%Z, [], err), st1))
      by (vm_compute; eexists; eexists; reflexivity).
    destruct Hsvn as (err & st1 & Hsvn). exists st1.
    apply (proj1 (proj2 (log_queries_failure_modes silent_os self
                           (Some t_before) None t_after [] st))
             Hxml 1%Z err st1 Hsvn).
  - assert (Hsvn : exists e st1,
               @_svn silent_os self
                 [u8 "log"; u8 "-v"; u8 "--xml"; u8 "-r";
                  revision_range (Some (u8 "4")) (u8 "7")] true st
               = (Raise e, st1))
      by (vm_compute; eexists; eexists; reflexivity).
    destruct Hsvn as (e & st1 & Hsvn). exists e, st1.
    apply (proj1 (proj2 (proj2 (proj2 (proj2
             (log_queries_failure_modes silent_os self None
                (Some (u8 "4")) [] (u8 "7") st))))) e st1 Hsvn).
Defined.

(** *** Trimmed fields *)

Lemma dropwhile_suffix (p : N -> bool) (s : str) :
  exists pre, s = pre ++ dropwhile p s.
Proof.
  induction s as [|c s (pre & IH)]; [exists []; reflexivity|].
  simpl. destruct (p c).
  - exists (c :: pre). simpl. rewrite <- IH. reflexivity.
  - exists []. reflexivity.
Qed.

Lemma dropwhile_clean (p : N -> bool) (s : str) :
  dropwhile p (dropwhile p s) = dropwhile p s.
Proof.
  induction s as [|c s IH]; [reflexivity|].
  simpl. destruct (p c) eqn:E; [exact IH|]. simpl. rewrite E. reflexivity.
Qed.

Lemma dropwhile_prefix_clean (p : N -> bool) (a b : str) :
  dropwhile p (a ++ b) = a ++ b -> dropwhile p a = a.
Proof.
  destruct a as [|c a]; [reflexivity|]. simpl.
  destruct (p c) eqn:E; [|reflexivity].
  intros H. exfalso.
  destruct (dropwhile_suffix p (a ++ b)) as (pre & Hpre).
  rewrite H in Hpre.
  apply (f_equal (@List.length N)) in Hpre.
  repeat rewrite length_app in Hpre. cbn [List.length] in Hpre.
  repeat rewrite length_app in Hpre. lia.
Qed.

Lemma strip_by_idempotent (p : N -> bool) (s : str) :
  strip_by p (strip_by p s) = strip_by p s.
Proof.
  unfold strip_by, rstrip_by, lstrip_by.
  set (t := dropwhile p s).
  set (u := dropwhile p (rev t)).
  assert (Ht : dropwhile p t = t) by apply dropwhile_clean.
  assert (Hu : dropwhile p u = u) by apply dropwhile_clean.
  destruct (dropwhile_suffix p (rev t)) as (pre & Hpre). fold u in Hpre.
  assert (Hsplit : t = rev u ++ rev pre).
  { rewrite <- (rev_involutive t), Hpre, rev_app_distr. reflexivity. }
  assert (Hru : dropwhile p (rev u) = rev u).
  { apply (dropwhile_prefix_clean p (rev u) (rev pre)).
    rewrite <- Hsplit. exact Ht. }
  rewrite Hru, rev_involutive, Hu. reflexivity.
Qed.

Lemma strip_idempotent (s : str) : strip (strip s) = strip s.
Proof. apply strip_by_idempotent. Qed.

Lemma truthy_iff (s : str) : truthy s = true <-> s <> [].
Proof. destruct s; split; try discriminate; try reflexivity; contradiction. Qed.

(** X9. A record built from a log entry carries trimmed fields: its
    revision, author, date and message have no white space around them;
    it lists one file for each path element whose text is not blank, in
    order, with the trimmed text as path, the action of the element, [?]
    when the element has none, and no diff; an entry without a [paths]
    element lists no file. *)
Theorem change_of_entry_is_trimmed :
  forall (entry : XmlLogEntry),
    let c := change_of_entry entry in
    strip (revision c) = revision c
    /\ strip (author c) = author c
    /\ strip (date c) = date c
    /\ strip (message c) = message c
    /\ (List.length (files c)
        <= List.length (match xe_paths entry with Some ps => ps | None => [] end))%nat
    /\ Forall (fun f => fc_path f <> [] /\ strip (fc_path f) = fc_path f
                        /\ fc_diff f = None) (files c)
    /\ files c
       = flat_map
           (fun p =>
              match strip (default_to [] (xp_text p)) with
              | [] => []
              | text => [mkFileChange text
                           (match xp_action p with
                            | Some a => a
                            | None => u8 "?"
                            end) None]
              end)
           (match xe_paths entry with Some ps => ps | None => [] end).
Proof.
  intros entry c. subst c. unfold change_of_entry.
  cbn [revision author date message files].
  repeat (split; [apply strip_idempotent|]).
  destruct (xe_paths entry) as [ps|]; [|repeat split; constructor].
  unfold file_changes_of.
  split; [|split].
  - induction ps as [|p ps IH]; [simpl; lia|].
    cbn [flat_map]. rewrite length_app.
    destruct (truthy (strip (default_to [] (xp_text p)))); simpl in *; lia.
  - induction ps as [|p ps IH]; [constructor|].
    cbn [flat_map]. apply Forall_app. split; [|exact IH].
    destruct (truthy (strip (default_to [] (xp_text p)))) eqn:E;
      [|constructor].
    repeat constructor; cbn [fc_path fc_diff].
    + apply truthy_iff. exact E.
    + apply strip_idempotent.
  - induction ps as [|p ps IH]; [reflexivity|].
    cbn [flat_map]. rewrite IH. f_equal.
    destruct (strip (default_to [] (xp_text p))) as [|x t] eqn:E;
      cbn [truthy]; [reflexivity|].
    destruct (xp_action p); reflexivity.
Qed.

(** ** The diffs of the collector *)

Section DiffFacts.
Context {os : OS}.

Lemma map_each_post {A B : Type} (P : A -> B -> Prop)
    (tr : A -> list (str * list str)) (body : A -> M B) :
  (forall x st, loop_post P tr x st (body x st)) ->
  forall l st,
    loop_post (Forall2 P) (flat_map tr) l st (map_each l body st).
Proof.
  intros Hbody. unfold loop_post in *.
  induction l as [|x l IH]; intros st.
  - split; [discriminate|]. exists [], []. cbn [flat_map map_each].
    split; [reflexivity|]. split; [rewrite app_nil_r; reflexivity|].
    intros y Hy. inversion Hy. split; [reflexivity | constructor].
  - cbn [map_each flat_map].
    destruct (Hbody x st) as (Hfuel & done & rest & Htr & Hann & Hok).
    destruct (body x st) as [[y|e|] st1] eqn:Ex; cbn [fst snd] in *.
    + destruct (Hok y eq_refl) as (-> & HP). rewrite app_nil_r in Htr.
      subst done. rewrite (bind_Ok _ _ _ _ _ Ex).
      destruct (IH st1) as (Hfuel' & done' & rest' & Htr' & Hann' & Hok').
      destruct (map_each l body st1) as [[ys|e|] st2] eqn:El;
        cbn [fst snd] in *.
      * rewrite (bind_Ok _ _ _ _ _ El). split; [discriminate|].
        exists (tr x ++ done'), rest'. cbn [fst snd ret].
        split; [rewrite Htr', app_assoc; reflexivity|].
        split; [rewrite Hann', Hann, app_assoc; reflexivity|].
        intros y' Hy'. inversion Hy'; subst y'.
        destruct (Hok' ys eq_refl) as (-> & HF).
        split; [reflexivity | constructor; assumption].
      * rewrite (bind_Raise _ _ _ _ _ El). split; [discriminate|].
        exists (tr x ++ done'), rest'. cbn [fst snd].
        split; [rewrite Htr', app_assoc; reflexivity|].
        split; [rewrite Hann', Hann, app_assoc; reflexivity|].
        intros y' Hy'. discriminate Hy'.
      * exfalso. apply Hfuel'. reflexivity.
    + rewrite (bind_Raise _ _ _ _ _ Ex). split; [discriminate|].
      exists done, (rest ++ flat_map tr l). cbn [fst snd].
      split; [rewrite Htr, app_assoc; reflexivity|].
      split; [exact Hann|]. intros y' Hy'. discriminate Hy'.
    + exfalso. apply Hfuel. reflexivity.
Qed.

Lemma diff_one_post (ops : SvnOps) (m : Z) (rev : RevisionChange)
    (f : FileChange) (st : state) :
  loop_post file_diffed
    (fun f => [(repo_path ops, diff_args (revision rev) (Some (fc_path f)))])
    f st
    ((d <- get_diff ops (revision rev) (Some (fc_path f)) m ;;
      ret (mkFileChange (fc_path f) (fc_action f) (Some d))) st).
Proof.
  unfold get_diff.
  pose proof (svn_announced ops (diff_args (revision rev) (Some (fc_path f)))
                true st) as Hann.
  pose proof (svn_returns ops (diff_args (revision rev) (Some (fc_path f)))
                true st) as Hfuel.
  destruct (_svn ops (diff_args (revision rev) (Some (fc_path f))) true st)
    as [[[[c o] e]|x|] st1] eqn:E; cbn [fst snd] in *.
  - erewrite bind_Ok; [|rewrite (bind_Ok _ _ _ _ _ E); reflexivity].
    split; [discriminate|]. eexists; exists []. cbn [fst snd ret].
    split; [rewrite app_nil_r; reflexivity|]. split; [exact Hann|].
    intros y Hy. inversion Hy; subst y. split; [reflexivity|].
    repeat split; discriminate.
  - erewrite bind_Raise; [|rewrite (bind_Raise _ _ _ _ _ E); reflexivity].
    split; [discriminate|]. eexists; exists []. cbn [fst snd].
    split; [rewrite app_nil_r; reflexivity|]. split; [exact Hann|].
    intros y Hy. discriminate Hy.
  - exfalso. apply Hfuel. reflexivity.
Qed.

Lemma files_diffed (fs fs' : list FileChange) :
  Forall2 file_diffed fs fs' ->
  map (fun f => mkFileChange (fc_path f) (fc_action f) None) fs'
  = map (fun f => mkFileChange (fc_path f) (fc_action f) None) fs
  /\ Forall (fun f => fc_diff f <> None) fs'.
Proof.
  induction 1 as [|f f' fs fs' (Hp & Ha & Hd) _ (IH1 & IH2)];
    [split; [reflexivity | constructor]|].
  split; [|constructor; assumption].
  cbn [map]. rewrite IH1, Hp, Ha. reflexivity.
Qed.

Lemma records_diffed (revs revs' : list RevisionChange) :
  Forall2 record_diffed revs revs' ->
  map without_diffs revs' = map without_diffs revs
  /\ Forall (fun r => Forall (fun f => fc_diff f <> None) (files r)) revs'.
Proof.
  induction 1 as [|r r' revs revs' (Hw & Hd) _ (IH1 & IH2)];
    [split; [reflexivity | constructor]|].
  split; [|constructor; assumption].
  cbn [map]. rewrite IH1, Hw. reflexivity.
Qed.

Lemma attach_diffs_post (ops : SvnOps) (m : Z) (revs : list RevisionChange)
    (st : state) :
  loop_post (Forall2 record_diffed)
    (flat_map
       (fun rev =>
          map (fun f => (repo_path ops,
                         diff_args (revision rev) (Some (fc_path f))))
            (files rev)))
    revs st (attach_diffs ops m revs st).
Proof.
  unfold attach_diffs. apply map_each_post. clear revs st.
  intros rev st.
  pose proof (map_each_post file_diffed
                (fun f => [(repo_path ops,
                            diff_args (revision rev) (Some (fc_path f)))])
                _ (diff_one_post ops m rev) (files rev) st) as Hin.
  destruct Hin as (Hfuel & done & rest & Htr & Hann & Hok).
  assert (Hflat : forall fs : list FileChange,
             flat_map (fun f => [(repo_path ops,
                         diff_args (revision rev) (Some (fc_path f)))]) fs
             = map (fun f => (repo_path ops,
                         diff_args (revision rev) (Some (fc_path f)))) fs).
  { induction fs as [|f fs IH]; [reflexivity|]. cbn [flat_map map app].
    rewrite IH. reflexivity. }
  rewrite Hflat in Htr.
  match type of Hann with
  | context [snd (?m st)] => destruct (m st) as [[fs|e|] st1] eqn:E
  end; cbn [fst snd] in *.
  - rewrite (bind_Ok _ _ _ _ _ E). split; [discriminate|].
    exists done, rest. cbn [fst snd ret].
    split; [exact Htr|]. split; [exact Hann|].
    intros y Hy. inversion Hy; subst y.
    destruct (Hok fs eq_refl) as (Hrest & HF). split; [exact Hrest|].
    destruct (files_diffed _ _ HF) as (H1 & H2).
    split; [|exact H2]. unfold without_diffs.
    cbn [revision author date message files]. rewrite H1. reflexivity.
  - rewrite (bind_Raise _ _ _ _ _ E). split; [discriminate|].
    exists done, rest. cbn [fst snd].
    split; [exact Htr|]. split; [exact Hann|].
    intros y Hy. discriminate Hy.
  - exfalso. apply Hfuel. reflexivity.
Qed.

End DiffFacts.


(** X11. [collect_change_summary] without a start time and without a
    recorded revision before the update raises before any command runs.
    With a start time, and without diffs and externals, it makes one
    query only, the log over the window, whose end is the time given or,
    without one, the current UTC time followed by [Z]; a failing [svn]
    does not make it raise the exception of [svn_ops], and the summary it
    returns has no external. A start time that is the empty string is not
    replaced: the query is then the log at the end time alone. *)
Theorem collect_change_summary_window :
  forall (os : OS) (fuel : nat) (self : SvnOps) (end_time : option str)
         (include_diff : bool) (max_diff_lines : Z)
         (include_externals : bool) (st : state),
    (truthy_opt (before_update_rev self) = false ->
     collect_change_summary fuel self None end_time include_diff
       max_diff_lines include_externals st
     = (Raise (VCSException (u8 "before_update_rev 未设置")), st))
    /\ (forall s,
          let e := match end_time with
                   | Some e => e
                   | None => utcnow_isoformat (st_world st) ++ u8 "Z"
                   end in
          let r := collect_change_summary fuel self (Some s) end_time false
                     max_diff_lines false st in
          announced (st_trace (snd r))
          = announced (st_trace st)
            ++ [(repo_path self, time_log_args (Some s) e)]
          /\ (forall m, fst r <> Raise (VCSException m))
          /\ fst r <> OutOfFuel
          /\ forall summary, fst r = Ok summary ->
               sum_ext summary = []
               /\ fst (get_external_revision_list_by_time self (Some s) e st)
                  = Ok (sum_main summary))
    /\ (forall e, time_log_args (Some []) e
                  = [u8 "log"; u8 "-v"; u8 "--xml"; u8 "-r";
                     u8 "{" ++ e ++ u8 "}"]).
Proof.
  intros os fuel self end_time include_diff m include_externals st.
  split.
  { intros Hb. unfold collect_change_summary.
    erewrite bind_Raise; [reflexivity|].
    destruct (before_update_rev self) as [b|]; [|reflexivity].
    cbn [truthy_opt] in Hb. rewrite Hb. reflexivity. }
  split; [|reflexivity].
  intros s e r.
  assert (Hrun : r = match get_external_revision_list_by_time self (Some s)
                             e st with
                     | (Ok main, st1) => (Ok (mkSummary main []), st1)
                     | (Raise x, st1) => (Raise x, st1)
                     | (OutOfFuel, st1) => (OutOfFuel, st1)
                     end).
  { subst r. unfold collect_change_summary.
    rewrite (bind_Ok _ _ st st s) by reflexivity.
    rewrite (bind_Ok _ _ st st e)
      by (subst e; destruct end_time; reflexivity).
    destruct (get_external_revision_list_by_time self (Some s) e st)
      as [[main|x|] st1] eqn:E.
    - rewrite (bind_Ok _ _ _ _ _ E). reflexivity.
    - rewrite (bind_Raise _ _ _ _ _ E). reflexivity.
    - rewrite (bind_OutOfFuel _ _ _ _ E). reflexivity. }
  pose proof (time_log_announced self (Some s) e st) as Hann.
  destruct (time_log_outcome self (Some s) e st)
    as (code & out & err & st1 & _ & Eout).
  rewrite Eout in Hrun, Hann. rewrite Hrun.
  destruct (ET_logentries _) as [entries|]; cbn [fst snd] in *.
  - split; [exact Hann|]. split; [discriminate|]. split; [discriminate|].
    intros summary Hs. inversion Hs; subst summary. rewrite Eout.
    split; reflexivity.
  - split; [exact Hann|]. split; [discriminate|]. split; [discriminate|].
    intros summary Hs. discriminate Hs.
Qed.

Lemma collect_change_summary_window_witness :
  let self := SvnOps_init (u8 "/wc") in
  let st := initial_state silent_os [] in
  truthy_opt (before_update_rev self) = false
  /\ @collect_change_summary silent_os 3 self None None true 200%Z true st
     = (Raise (VCSException (u8 "before_update_rev 未设置")), st).
Proof.
  intros self st.
  assert (Hb : truthy_opt (before_update_rev self) = false) by reflexivity.
  split; [exact Hb|].
  apply (proj1 (collect_change_summary_window silent_os 3 self None true
                  200%Z true st) Hb).
Defined.

(** ** [git_ops.py]: keys, guards and the order of the commands *)

Section GitRunnerFacts.
Context {os : OS}.

Lemma default_key_cases (st : state) :
  (exists k, get_default_ssh_key st = (Ok k, st)
             /\ path_exists k (st_world st) = true)
  \/ get_default_ssh_key st
     = (Raise (GitError (u8 "未找到可用的 SSH key")), st).
Proof.
  unfold get_default_ssh_key. rewrite bind_ask.
  assert (Hfiles :
    (exists k,
        (e1 <- ask (path_exists (expanduser (u8 "~/.ssh/id_ed25519"))) ;;
         if e1 then ret (expanduser (u8 "~/.ssh/id_ed25519"))
         else
           e2 <- ask (path_exists (expanduser (u8 "~/.ssh/id_rsa"))) ;;
           if e2 then ret (expanduser (u8 "~/.ssh/id_rsa"))
           else raise (GitError (u8 "未找到可用的 SSH key"))) st
        = (Ok k, st)
        /\ path_exists k (st_world st) = true)
    \/ (e1 <- ask (path_exists (expanduser (u8 "~/.ssh/id_ed25519"))) ;;
        if e1 then ret (expanduser (u8 "~/.ssh/id_ed25519"))
        else
          e2 <- ask (path_exists (expanduser (u8 "~/.ssh/id_rsa"))) ;;
          if e2 then ret (expanduser (u8 "~/.ssh/id_rsa"))
          else raise (GitError (u8 "未找到可用的 SSH key"))) st
       = (Raise (GitError (u8 "未找到可用的 SSH key")), st)).
  { rewrite bind_ask.
    destruct (path_exists (expanduser (u8 "~/.ssh/id_ed25519")) (st_world st))
      eqn:E1; [left; eexists; split; [reflexivity | exact E1]|].
    rewrite bind_ask.
    destruct (path_exists (expanduser (u8 "~/.ssh/id_rsa")) (st_world st))
      eqn:E2; [left; eexists; split; [reflexivity | exact E2]|].
    right. reflexivity. }
  destruct (os_getenv (u8 "PXTA_SSH_KEY") (st_world st)) as [k|].
  - destruct (truthy k).
    + rewrite bind_ask. destruct (path_exists k (st_world st)) eqn:Ek.
      * left. exists k. split; [reflexivity | exact Ek].
      * exact Hfiles.
    + rewrite (bind_Ok _ _ st st false) by reflexivity. exact Hfiles.
  - rewrite (bind_Ok _ _ st st false) by reflexivity. exact Hfiles.
Qed.

Lemma build_env_cases (ssh_key : option str) (st : state) :
  (exists key,
      _build_ssh_env ssh_key st = (Ok (ssh_command_of key), st)
      /\ path_exists key (st_world st) = true
      /\ (truthy_opt ssh_key = true -> key = default_to [] ssh_key))
  \/ (exists m,
        _build_ssh_env ssh_key st = (Raise (GitError m), st)
        /\ (truthy_opt ssh_key = true ->
            m = u8 "SSH key 不存在: " ++ default_to [] ssh_key
            /\ path_exists (default_to [] ssh_key) (st_world st) = false)
        /\ (truthy_opt ssh_key = false -> m = u8 "未找到可用的 SSH key")).
Proof.
  unfold _build_ssh_env. destruct (truthy_opt ssh_key) eqn:Et.
  - rewrite (bind_Ok _ _ st st (default_to [] ssh_key)) by reflexivity.
    rewrite bind_ask.
    destruct (path_exists (default_to [] ssh_key) (st_world st)) eqn:E.
    + left. exists (default_to [] ssh_key). cbn [negb].
      split; [reflexivity|]. split; [exact E | reflexivity].
    + right. eexists. cbn [negb]. split; [reflexivity|].
      split; [intros _; split; reflexivity | discriminate].
  - destruct (default_key_cases st) as [(k & Ek & Hk)|Ek].
    + rewrite (bind_Ok _ _ _ _ _ Ek). rewrite bind_ask, Hk. cbn [negb].
      left. exists k. split; [reflexivity|]. split; [exact Hk | discriminate].
    + rewrite (bind_Raise _ _ _ _ _ Ek). right. eexists.
      split; [reflexivity|]. split; [discriminate | reflexivity].
Qed.

Lemma run_git_cases (args : list str) (cwd ssh_key : option str)
    (st : state) :
  (exists m,
      run_git args cwd ssh_key st = (Raise (GitError m), st)
      /\ (truthy_opt ssh_key = true ->
          m = u8 "SSH key 不存在: " ++ default_to [] ssh_key
          /\ path_exists (default_to [] ssh_key) (st_world st) = false)
      /\ (truthy_opt ssh_key = false -> m = u8 "未找到可用的 SSH key"))
  \/ (exists key,
        path_exists key (st_world st) = true
        /\ (truthy_opt ssh_key = true -> key = default_to [] ssh_key)
        /\ run_git args cwd ssh_key st
           = (let proc := fst (subprocess_run (git_call args cwd key)
                                 (st_world st)) in
              if negb (returncode proc =? 0)%Z
              then Raise (GitCommandError (strip (proc_stderr proc)))
              else Ok (strip (proc_stdout proc)),
              mkState (snd (subprocess_run (git_call args cwd key)
                              (st_world st)))
                (st_trace st ++ [EvRun (git_call args cwd key)]))).
Proof.
  unfold run_git.
  destruct (build_env_cases ssh_key st)
    as [(key & Ek & Hk & Hexp)|(m & Em & H1 & H2)].
  - right. exists key. split; [exact Hk|]. split; [exact Hexp|].
    rewrite (bind_Ok _ _ _ _ _ Ek). unfold bind, emit, git_call.
    cbn [st_world st_trace].
    destruct (subprocess_run _ (st_world st)) as [proc w']. cbn [fst snd].
    destruct (negb (returncode proc =? 0)%Z); reflexivity.
  - left. exists m. rewrite (bind_Raise _ _ _ _ _ Em).
    split; [reflexivity|]. split; assumption.
Qed.

Lemma spawned_app (a b : list event) :
  spawned (a ++ b) = spawned a ++ spawned b.
Proof.
  induction a as [|[c|r x] a IH]; simpl; [reflexivity | | exact IH].
  rewrite IH. reflexivity.
Qed.

Lemma plan_ret {A : Type} (a : A) (st : state) :
  plan_post [] st (ret a st).
Proof.
  split; [discriminate|]. exists [], []. split; [reflexivity|].
  split; [cbn; rewrite app_nil_r; reflexivity|]. reflexivity.
Qed.

Lemma plan_bind {A B : Type} (p1 p2 plan : list (list str)) (m : M A)
    (k : A -> M B) (st : state) :
  plan_post p1 st (m st) ->
  (forall a st1, plan_post p2 st1 (k a st1)) ->
  plan = p1 ++ p2 ->
  plan_post plan st (bind m k st).
Proof.
  intros (Hfuel & done & rest & Hp & Hs & Hok) Hk ->.
  destruct (m st) as [[a|e|] st1] eqn:E; cbn [fst snd] in *.
  - rewrite (bind_Ok _ _ _ _ _ E). rewrite (Hok a eq_refl) in Hp.
    rewrite app_nil_r in Hp. subst done.
    destruct (Hk a st1) as (Hfuel' & done' & rest' & Hp' & Hs' & Hok').
    split; [exact Hfuel'|]. exists (p1 ++ done'), rest'.
    split; [rewrite Hp', app_assoc; reflexivity|].
    split; [rewrite Hs', Hs, app_assoc; reflexivity | exact Hok'].
  - rewrite (bind_Raise _ _ _ _ _ E). split; [discriminate|].
    exists done, (rest ++ p2). cbn [fst snd].
    split; [rewrite Hp, app_assoc; reflexivity|].
    split; [exact Hs | discriminate].
  - exfalso. apply Hfuel. reflexivity.
Qed.

Lemma plan_run_git (args : list str) (cwd ssh_key : option str)
    (st : state) :
  plan_post [u8 "git" :: args] st (run_git args cwd ssh_key st).
Proof.
  destruct (run_git_cases args cwd ssh_key st)
    as [(m & E & _)|(key & _ & _ & E)]; rewrite E.
  - split; [discriminate|]. exists [], [u8 "git" :: args]. cbn [fst snd].
    split; [reflexivity|]. split; [rewrite app_nil_r; reflexivity|].
    discriminate.
  - cbv zeta. split.
    + cbn [fst]. destruct (negb _); discriminate.
    + exists [u8 "git" :: args], []. cbn [fst snd st_trace].
      split; [reflexivity|]. split; [|reflexivity].
      rewrite spawned_app. reflexivity.
Qed.

Lemma ensure_repo_cases (path : str) (st : state) :
  _ensure_repo path st
  = (if path_exists (path_join path (u8 ".git")) (st_world st)
     then Ok tt else Raise (not_a_repo path), st).
Proof.
  unfold _ensure_repo. rewrite bind_ask.
  destruct (path_exists _ _); reflexivity.
Qed.

Lemma plan_ensure_repo (path : str) (st : state) :
  plan_post [] st (_ensure_repo path st).
Proof.
  rewrite ensure_repo_cases. split.
  - cbn [fst]. destruct (path_exists _ _); discriminate.
  - exists [], []. cbn [fst snd]. split; [reflexivity|].
    split; [rewrite app_nil_r; reflexivity | reflexivity].
Qed.

Lemma guarded_outside_repo {A B : Type} (path : str) (k : unit -> M B)
    (st : state) :
  path_exists (path_join path (u8 ".git")) (st_world st) = false ->
  bind (_ensure_repo path) k st = (Raise (not_a_repo path), st).
Proof.
  intros H. apply bind_Raise. rewrite ensure_repo_cases, H. reflexivity.
Qed.

End GitRunnerFacts.

Section GitPlanFacts.
Context {os : OS}.

Lemma plan_guarded_git (path : str) (args : list str) (ssh_key : option str)
    (st : state) :
  plan_post [u8 "git" :: args] st
    ((_ensure_repo path ;; run_git args (Some path) ssh_key ;; ret tt) st).
Proof.
  eapply plan_bind; [apply plan_ensure_repo | intros ? ? | reflexivity].
  eapply plan_bind; [apply plan_run_git | intros ? ?; apply plan_ret |].
  reflexivity.
Qed.

Lemma plan_lfs_pull (path : str) (ssh_key : option str) (st : state) :
  plan_post [[u8 "git"; u8 "lfs"; u8 "fetch"; u8 "--all"];
             [u8 "git"; u8 "lfs"; u8 "pull"]] st (lfs_pull path ssh_key st).
Proof.
  unfold lfs_pull.
  eapply plan_bind; [apply plan_ensure_repo | intros ? ? | reflexivity].
  eapply plan_bind; [apply plan_run_git | intros ? ? | reflexivity].
  eapply plan_bind; [apply plan_run_git | intros ? ?; apply plan_ret |].
  reflexivity.
Qed.

Lemma plan_foreach (dest : str) (args : list str) (ssh_key : option str)
    (st : state) :
  plan_post [u8 "git" :: args] st
    ((run_git args (Some dest) ssh_key ;; ret tt) st).
Proof.
  eapply plan_bind; [apply plan_run_git | intros ? ?; apply plan_ret |].
  reflexivity.
Qed.

Lemma update_existing_plan (dest : str) (branch : option str)
    (recursive lfs : bool) (ssh_key : option str) (reset clean : bool)
    (st : state) :
  plan_post (existing_plan branch recursive lfs reset clean) st
    (update_existing dest branch recursive lfs ssh_key reset clean st).
Proof.
  unfold update_existing, existing_plan.
  eapply plan_bind; [ | intros ? ? | reflexivity].
  { destruct reset; [|apply plan_ret].
    eapply plan_bind;
      [apply plan_guarded_git | intros ? ? | reflexivity].
    destruct recursive; [apply plan_foreach | apply plan_ret]. }
  eapply plan_bind; [ | intros ? ? | reflexivity].
  { destruct clean; [|apply plan_ret].
    eapply plan_bind;
      [apply plan_guarded_git | intros ? ? | reflexivity].
    destruct recursive; [apply plan_foreach | apply plan_ret]. }
  eapply plan_bind; [ | intros ? ? | reflexivity].
  { destruct (truthy_opt branch); [apply plan_guarded_git | apply plan_ret]. }
  eapply plan_bind;
    [apply plan_guarded_git | intros ? ? | reflexivity].
  eapply plan_bind;
    [apply plan_guarded_git | intros ? ? | reflexivity].
  eapply plan_bind; [ | intros ? ? | reflexivity].
  { destruct recursive; [|apply plan_ret].
    eapply plan_bind;
      [apply plan_guarded_git | intros ? ?; apply plan_guarded_git
      | reflexivity]. }
  destruct lfs; [|apply plan_ret].
  eapply plan_bind;
    [apply plan_guarded_git | intros ? ? | reflexivity].
  eapply plan_bind;
    [apply plan_lfs_pull | intros ? ?; apply plan_guarded_git | reflexivity].
Qed.

End GitPlanFacts.

(** X12. [run_git] resolves a key before it spawns anything. Without a
    usable key it raises [GitError] and leaves the state as it was: no
    process. An explicit key is never replaced by a default one, and the
    complaint that the key file does not exist is made about an explicit
    key only (a default key is one that was found to exist). With a key,
    exactly one process is spawned, [git] with the arguments, in [cwd],
    with [GIT_SSH_COMMAND] naming that key; exit code 0 returns the
    trimmed stdout, any other raises [GitCommandError] with the trimmed
    stderr. *)
Theorem run_git_key_resolution :
  forall (os : OS) (args : list str) (cwd ssh_key : option str) (st : state),
    (exists m,
        run_git args cwd ssh_key st = (Raise (GitError m), st)
        /\ (truthy_opt ssh_key = true ->
            m = u8 "SSH key 不存在: " ++ default_to [] ssh_key
            /\ path_exists (default_to [] ssh_key) (st_world st) = false)
        /\ (truthy_opt ssh_key = false -> m = u8 "未找到可用的 SSH key"))
    \/ (exists key,
          path_exists key (st_world st) = true
          /\ (truthy_opt ssh_key = true -> key = default_to [] ssh_key)
          /\ (let call := git_call args cwd key in
              let proc := fst (subprocess_run call (st_world st)) in
              let r := run_git args cwd ssh_key st in
              st_trace (snd r) = st_trace st ++ [EvRun call]
              /\ st_world (snd r) = snd (subprocess_run call (st_world st))
              /\ (returncode proc = 0%Z ->
                  fst r = Ok (strip (proc_stdout proc)))
              /\ (returncode proc <> 0%Z ->
                  fst r = Raise (GitCommandError
                                   (strip (proc_stderr proc)))))).
Proof.
  intros os args cwd ssh_key st.
  destruct (run_git_cases args cwd ssh_key st)
    as [Hno|(key & Hk & Hexp & E)]; [left; exact Hno|].
  right. exists key. split; [exact Hk|]. split; [exact Hexp|].
  cbv zeta. rewrite E. cbn [fst snd st_trace st_world].
  split; [reflexivity|]. split; [reflexivity|]. split.
  - intros H0. rewrite H0. reflexivity.
  - intros Hne. apply Z.eqb_neq in Hne. rewrite Hne. reflexivity.
Qed.

(** X13. Outside a Git repository (no [.git] below the path) the
    operations on a working tree raise [GitError] naming the path and
    leave the state as it was: no key is looked for and no process is
    spawned. This holds for [fetch], [checkout], [pull], the submodule
    and LFS operations, [reset_hard], [clean_untracked],
    [reset_repo_and_submodules], [get_head] and [get_submodule_states];
    and [update_repo] on a destination that exists but is no repository
    fails in the same way: it does not fall back to a clone. *)
Theorem git_operations_need_a_repository :
  forall (os : OS) (path target url : str) (branch ssh_key : option str)
         (recursive lfs reset clean : bool) (st : state),
    path_exists (path_join path (u8 ".git")) (st_world st) = false ->
    let refused := fun (A : Type) (m : M A) =>
                     m st = (Raise (not_a_repo path), st) in
    refused unit (fetch path ssh_key)
    /\ refused unit (checkout path target ssh_key)
    /\ refused unit (pull path ssh_key)
    /\ refused unit (submodule_sync path ssh_key)
    /\ refused unit (submodule_update path ssh_key)
    /\ refused unit (lfs_install path ssh_key)
    /\ refused unit (lfs_pull path ssh_key)
    /\ refused unit (lfs_pull_all_submodules path ssh_key)
    /\ refused unit (reset_hard path ssh_key)
    /\ refused unit (clean_untracked path ssh_key)
    /\ refused unit (reset_repo_and_submodules path ssh_key)
    /\ refused str (get_head path)
    /\ refused (list (str * str)) (get_submodule_states path)
    /\ (path_exists path (st_world st) = true ->
        refused GitSyncResult
          (update_repo url path branch recursive lfs ssh_key reset clean)).
Proof.
  intros os path target url branch ssh_key recursive lfs reset clean st H
         refused.
  subst refused. cbv beta.
  assert (Hg : forall (B : Type) (k : unit -> M B),
             bind (_ensure_repo path) k st = (Raise (not_a_repo path), st)).
  { intros B k. apply (@guarded_outside_repo os unit B). exact H. }
  assert (Hreset : reset_hard path ssh_key st
                   = (Raise (not_a_repo path), st)) by apply Hg.
  assert (Hhead : get_head path st = (Raise (not_a_repo path), st))
    by apply Hg.
  repeat (split; [apply Hg|]).
  split.
  { unfold reset_repo_and_submodules.
    apply bind_Raise. exact Hreset. }
  split; [exact Hhead|]. split; [apply Hg|].
  intros Hex. unfold update_repo. rewrite bind_ask, Hex.
  apply bind_Raise. apply bind_Raise. exact Hhead.
Qed.

Lemma git_operations_need_a_repository_witness :
  let st := initial_state plain_dir_os [] in
  @path_exists plain_dir_os (path_join git_dest (u8 ".git")) (st_world st)
  = false
  /\ @pull plain_dir_os git_dest None st = (Raise (not_a_repo git_dest), st)
  /\ @update_repo plain_dir_os git_url git_dest None true true None true true
       st
     = (Raise (not_a_repo git_dest), st).
Proof.
  intros st.
  assert (H : @path_exists plain_dir_os (path_join git_dest (u8 ".git"))
                (st_world st) = false) by (vm_compute; reflexivity).
  assert (Hex : @path_exists plain_dir_os git_dest (st_world st) = true)
    by (vm_compute; reflexivity).
  pose proof (git_operations_need_a_repository plain_dir_os git_dest []
                git_url None None true true true true st H) as T.
  cbv zeta beta in T.
  split; [exact H|]. split.
  - exact (proj1 (proj2 (proj2 T))).
  - exact (proj2 (proj2 (proj2 (proj2 (proj2 (proj2 (proj2 (proj2 (proj2
             (proj2 (proj2 (proj2 (proj2 T))))))))))))
             Hex).
Defined.

(** X14. The update of an existing working tree, the branch of
    [update_repo] for a destination that exists, spawns its commands in
    one fixed order: reset, clean, checkout of the branch, fetch, pull,
    submodule sync and update, LFS install, fetch and pull; each part
    only when its switch is set. It spawns all of them when it ends
    normally and those up to the failing one when it raises. With [reset]
    and [clean] off no command that discards local work is planned, and
    no plan has a clone. *)
Theorem update_existing_runs_in_order :
  forall (os : OS) (dest : str) (branch ssh_key : option str)
         (recursive lfs reset clean : bool) (st : state),
    let r := update_existing dest branch recursive lfs ssh_key reset clean
               st in
    let plan := existing_plan branch recursive lfs reset clean in
    fst r <> OutOfFuel
    /\ (exists done rest,
          plan = done ++ rest
          /\ spawned (st_trace (snd r)) = spawned (st_trace st) ++ done
          /\ (fst r = Ok tt -> rest = []))
    /\ Forall (fun cmd => destructive cmd = false)
         (existing_plan branch recursive lfs false false)
    /\ Forall (fun cmd => nth_error cmd 1 <> Some (u8 "clone")) plan.
Proof.
  intros os dest branch ssh_key recursive lfs reset clean st r plan.
  subst r plan.
  destruct (update_existing_plan dest branch recursive lfs ssh_key reset
              clean st) as (Hfuel & done & rest & Hp & Hs & Hok).
  split; [exact Hfuel|]. split.
  { exists done, rest. split; [exact Hp|]. split; [exact Hs|].
    apply Hok. }
  split.
  - unfold existing_plan. cbn [app].
    destruct (truthy_opt branch), recursive, lfs; cbn [app];
      repeat (constructor; [vm_compute; reflexivity|]); try constructor.
    all: unfold destructive, git_reset_cmd, git_clean_cmd, foreach_reset,
           foreach_clean, strs_eqb;
         repeat match goal with
           | |- context [list_eq_dec ?d ?a ?b] =>
               destruct (list_eq_dec d a b) as [E|_];
               [apply (f_equal (fun l => nth_error l 1)) in E;
                vm_compute in E; discriminate E|]
           end; reflexivity.
  - unfold existing_plan.
    destruct (truthy_opt branch), recursive, lfs, reset, clean; cbn [app];
      repeat (constructor; [vm_compute; discriminate|]); constructor.
Qed.

(** ** [git_ops.py]: what is read from the output of [git] *)

Lemma split_char_field (sep : N) (m : nat) (f rest : str) :
  Forall (fun c => c <> sep) f ->
  forall cur,
    split_char sep (S m) cur (f ++ sep :: rest)
    = (rev cur ++ f) :: split_char sep m [] rest.
Proof.
  induction 1 as [|c f Hc _ IH]; intros cur.
  - cbn [app split_char]. rewrite N.eqb_refl, app_nil_r. reflexivity.
  - cbn [app split_char]. apply N.eqb_neq in Hc. rewrite Hc, IH.
    cbn [rev]. rewrite <- app_assoc. reflexivity.
Qed.

Lemma split_char_last (sep : N) (s : str) : split_char sep 0 [] s = [s].
Proof. destruct s; reflexivity. Qed.

Lemma split_char_length (sep : N) (s : str) :
  forall m cur,
    List.length (split_char sep m cur s)
    = S (Nat.min m (count_char sep s)).
Proof.
  unfold count_char.
  induction s as [|c s IH]; intros m cur.
  - cbn. rewrite Nat.min_0_r. reflexivity.
  - destruct m as [|m]; [reflexivity|].
    cbn [split_char filter]. rewrite (N.eqb_sym sep c).
    destruct (c =? sep).
    + cbn [List.length]. rewrite IH. reflexivity.
    + apply IH.
Qed.

Lemma split_char_join (sep : N) (s : str) :
  forall m cur, join [sep] (split_char sep m cur s) = rev cur ++ s.
Proof.
  induction s as [|c s IH]; intros m cur.
  - cbn. rewrite app_nil_r. reflexivity.
  - destruct m as [|m]; [reflexivity|].
    cbn [split_char]. destruct (c =? sep) eqn:E.
    + apply N.eqb_eq in E. subst c.
      pose proof (IH m []) as Hj. pose proof (split_char_length sep s m [])
        as Hl.
      destruct (split_char sep m [] s) as [|p ps]; [discriminate Hl|].
      cbn [join]. cbn [join] in Hj. rewrite Hj. reflexivity.
    + rewrite IH. cbn [rev]. rewrite <- app_assoc. reflexivity.
Qed.

Section GitOutputFacts.
Context {os : OS}.

Lemma commit_of_line_cases (line : str) (st : state) :
  ((count_char BAR line < 4)%nat
   /\ commit_of_line line st = (Raise ValueError, st))
  \/ ((4 <= count_char BAR line)%nat
      /\ exists c, commit_of_line line st = (Ok c, st)
                   /\ commit_line c = line).
Proof.
  unfold commit_of_line.
  pose proof (split_char_length BAR line 4 []) as Hl.
  pose proof (split_char_join BAR line 4 []) as Hj.
  change (split_char 124 4 [] line) with (split_char BAR 4 [] line).
  destruct (Nat.lt_ge_cases (count_char BAR line) 4) as [Hlt|Hge].
  - left. split; [exact Hlt|].
    rewrite Nat.min_r in Hl by lia.
    destruct (split_char BAR 4 [] line) as [|h [|an [|ae [|ad [|msg [|x l]]]]]];
      cbn [List.length] in Hl; try reflexivity; lia.
  - right. split; [exact Hge|].
    rewrite Nat.min_l in Hl by lia.
    destruct (split_char BAR 4 [] line) as [|h [|an [|ae [|ad [|msg [|x l]]]]]];
      cbn [List.length] in Hl; try discriminate Hl.
    exists (mkCommitInfo h an ae ad msg). split; [reflexivity|].
    unfold commit_line. cbn [ci_commit ci_author ci_email ci_date ci_message].
    cbn [join rev app] in Hj. exact Hj.
Qed.

Lemma commits_of_lines (lines : list str) :
  forall st cs st',
    map_each lines commit_of_line st = (Ok cs, st') ->
    st' = st /\ map commit_line cs = lines.
Proof.
  induction lines as [|line lines IH]; intros st cs st' H.
  - inversion H. split; reflexivity.
  - cbn [map_each] in H.
    apply bind_Ok_inv in H. destruct H as (c & st1 & Hc & H).
    apply bind_Ok_inv in H. destruct H as (cs' & st2 & Hcs & H).
    inversion H; subst cs st'.
    destruct (commit_of_line_cases line st) as [(_ & E)|(_ & c' & E & Hline)];
      rewrite E in Hc; [discriminate Hc|].
    inversion Hc; subst c' st1.
    destruct (IH _ _ _ Hcs) as (-> & Hmap).
    split; [reflexivity|]. cbn [map]. rewrite Hline, Hmap. reflexivity.
Qed.

Lemma dict_set_Forall (V : Type) (Q : str * V -> Prop) (d : list (str * V))
    (k : str) (v : V) :
  Forall Q d -> Q (k, v) -> Forall Q (dict_set d k v).
Proof.
  intros Hd Hq. induction Hd as [|[k' v'] d Hkv Hd IH].
  - repeat constructor. exact Hq.
  - cbn [dict_set]. destruct (str_eqb k' k) eqn:E.
    + apply str_eqb_eq in E. subst k'. constructor; assumption.
    + constructor; assumption.
Qed.

End GitOutputFacts.

(** X15. A line of the log is read back into the commit it was printed
    from: when the hash, the author, the e-mail address and the date
    have no vertical bar, reading the printed line gives the commit, bars
    in the message included; a line with fewer than four bars raises
    [ValueError]; a line with four or more is read, and printing what was
    read gives the line again. *)
Theorem commit_line_round_trip :
  forall (os : OS) (c : CommitInfo) (line : str) (st : state),
    (bar_free (ci_commit c) -> bar_free (ci_author c) ->
     bar_free (ci_email c) -> bar_free (ci_date c) ->
     commit_of_line (commit_line c) st = (Ok c, st))
    /\ ((count_char BAR line < 4)%nat ->
        commit_of_line line st = (Raise ValueError, st))
    /\ ((4 <= count_char BAR line)%nat ->
        exists c', commit_of_line line st = (Ok c', st)
                   /\ commit_line c' = line).
Proof.
  intros os c line st. split; [|split].
  - intros Hh Han Hae Had. destruct c as [h an ae ad msg].
    unfold commit_of_line, commit_line, bar_free in *.
    cbn [ci_commit ci_author ci_email ci_date ci_message] in *.
    change (split_char 124) with (split_char BAR).
    rewrite (split_char_field BAR 3 h _ Hh).
    rewrite (split_char_field BAR 2 an _ Han).
    rewrite (split_char_field BAR 1 ae _ Hae).
    rewrite (split_char_field BAR 0 ad _ Had).
    rewrite split_char_last. reflexivity.
  - intros Hlt. destruct (commit_of_line_cases line st) as [(_ & E)|(Hge & _)];
      [exact E | lia].
  - intros Hge. destruct (commit_of_line_cases line st) as [(Hlt & _)|(_ & E)];
      [lia | exact E].
Qed.

Lemma commit_line_round_trip_witness :
  let c := mkCommitInfo (u8 "2222") (u8 "dev") (u8 "dev@example.com")
             (u8 "2025-01-07 10:00:00 +0000") (u8 "fix a|b") in
  let st := initial_state git_existing_os [] in
  @commit_of_line git_existing_os (commit_line c) st = (Ok c, st)
  /\ @commit_of_line git_existing_os (u8 "2222|dev|only three|bars") st
     = (Raise ValueError, st).
Proof.
  intros c st.
  assert (Hfree : forall s : string,
             forallb (fun x => negb (x =? BAR)) (u8 s) = true ->
             bar_free (u8 s)).
  { intros s H. apply Forall_forall. intros x Hx.
    rewrite forallb_forall in H. specialize (H x Hx).
    apply negb_true_iff in H. apply N.eqb_neq. exact H. }
  split.
  - apply (proj1 (commit_line_round_trip git_existing_os c [] st));
      apply Hfree; vm_compute; reflexivity.
  - apply (proj1 (proj2 (commit_line_round_trip git_existing_os c
                           (u8 "2222|dev|only three|bars") st))).
    vm_compute. lia.
Defined.

(** X16. [get_commits_between] with the same commit on both sides
    returns the empty list at once: no key, no process. Otherwise it
    spawns at most one process, [git log a..b] with the format of the
    five fields, and it does so without checking that the path is a
    repository; when it returns, the commits it returns print back, in
    order, to the lines of the output. *)
Theorem get_commits_between_reads_every_line :
  forall (os : OS) (path a b : str) (st : state),
    let log_args := [u8 "log"; a ++ u8 ".." ++ b;
                     u8 "--pretty=format:%H|%an|%ae|%ad|%s";
                     u8 "--date=iso"] in
    let r := get_commits_between path a b st in
    (a = b -> r = (Ok [], st))
    /\ (a <> b ->
        plan_post [u8 "git" :: log_args] st (run_git log_args (Some path)
                                               None st)
        /\ (forall e st1,
              run_git log_args (Some path) None st = (Raise e, st1) ->
              r = (Raise e, st1))
        /\ (forall out st1,
              run_git log_args (Some path) None st = (Ok out, st1) ->
              snd r = st1
              /\ forall cs, fst r = Ok cs ->
                            map commit_line cs = splitlines out)).
Proof.
  intros os path a b st log_args r. subst r log_args. split.
  - intros ->. unfold get_commits_between.
    assert (E : str_eqb b b = true) by (apply str_eqb_eq; reflexivity).
    rewrite E. reflexivity.
  - intros Hne. unfold get_commits_between.
    destruct (str_eqb a b) eqn:E;
      [apply str_eqb_eq in E; contradiction|].
    split; [apply plan_run_git|]. split.
    + intros e st1 Hr. apply bind_Raise. exact Hr.
    + intros out st1 Hr. rewrite (bind_Ok _ _ _ _ _ Hr).
      assert (Hst : forall lines st0,
                 snd (map_each lines commit_of_line st0) = st0).
      { induction lines as [|l lines IH]; intros st0; [reflexivity|].
        cbn [map_each].
        destruct (commit_of_line_cases l st0)
          as [(_ & El)|(_ & c & El & _)].
        - rewrite (bind_Raise _ _ _ _ _ El). reflexivity.
        - rewrite (bind_Ok _ _ _ _ _ El). specialize (IH st0).
          destruct (map_each lines commit_of_line st0) as [[cs|e|] st2] eqn:Em;
            cbn [snd] in IH; subst st2.
          + rewrite (bind_Ok _ _ _ _ _ Em). reflexivity.
          + rewrite (bind_Raise _ _ _ _ _ Em). reflexivity.
          + rewrite (bind_OutOfFuel _ _ _ _ Em). reflexivity. }
      split; [apply Hst|].
      intros cs Hcs.
      destruct (map_each (splitlines out) commit_of_line st1) as [res st2]
        eqn:Em.
      cbn [fst] in Hcs. subst res.
      exact (proj2 (commits_of_lines _ _ _ _ Em)).
Qed.

Lemma get_commits_between_reads_every_line_witness :
  let st := initial_state git_existing_os [] in
  @get_commits_between git_existing_os git_dest (u8 "c0ffee") (u8 "c0ffee") st
  = (Ok [], st).
Proof.
  intros st.
  apply (proj1 (get_commits_between_reads_every_line git_existing_os git_dest
                  (u8 "c0ffee") (u8 "c0ffee") st)).
  reflexivity.
Defined.

(** X17. The dictionary read from the output of [git submodule status]
    has each path once, whatever the output repeats; every entry comes
    from a line of the output with at least two fields: its path is the
    second field and its commit the first field without the [+] and [-]
    in front of it. *)
Theorem submodule_states_come_from_lines :
  forall (out : str),
    NoDup (map fst (submodule_states_of_output out))
    /\ Forall
         (fun kv =>
            exists line p0 more,
              In line (splitlines out)
              /\ split_ws (strip line) = p0 :: fst kv :: more
              /\ snd kv = lstrip_chars (u8 "+-") p0)
         (submodule_states_of_output out).
Proof.
  intros out. unfold submodule_states_of_output.
  set (Q := fun (lines : list str) (kv : str * str) =>
              exists line p0 more,
                In line lines
                /\ split_ws (strip line) = p0 :: fst kv :: more
                /\ snd kv = lstrip_chars (u8 "+-") p0).
  assert (Hmono : forall l1 l2 kv, Q l1 kv -> Q (l1 ++ l2) kv).
  { intros l1 l2 kv (line & p0 & more & Hin & Hs & Hv).
    exists line, p0, more. split; [|split; assumption].
    apply in_or_app. left. exact Hin. }
  assert (Hloop : forall lines seen acc,
             NoDup (map fst acc) -> Forall (Q seen) acc ->
             NoDup (map fst
                      (fold_left
                         (fun result line =>
                            match split_ws (strip line) with
                            | p0 :: p1 :: _ =>
                                dict_set result p1
                                  (lstrip_chars (u8 "+-") p0)
                            | _ => result
                            end) lines acc))
             /\ Forall (Q (seen ++ lines))
                  (fold_left
                     (fun result line =>
                        match split_ws (strip line) with
                        | p0 :: p1 :: _ =>
                            dict_set result p1
                              (lstrip_chars (u8 "+-") p0)
                        | _ => result
                        end) lines acc)).
  { induction lines as [|line lines IH]; intros seen acc Hnd Hq.
    - cbn [fold_left]. rewrite app_nil_r. split; assumption.
    - cbn [fold_left].
      replace (seen ++ line :: lines) with ((seen ++ [line]) ++ lines)
        by (rewrite <- app_assoc; reflexivity).
      assert (Hq' : Forall (Q (seen ++ [line])) acc).
      { eapply Forall_impl; [|exact Hq]. intros kv. apply Hmono. }
      destruct (split_ws (strip line)) as [|p0 [|p1 more]] eqn:Es;
        try (apply IH; assumption).
      apply IH; [apply dict_set_NoDup; exact Hnd|].
      apply dict_set_Forall; [exact Hq'|].
      exists line, p0, more. split; [|split; [exact Es | reflexivity]].
      apply in_or_app. right. left. reflexivity. }
  destruct (Hloop (splitlines out) [] []) as (H1 & H2);
    [constructor | constructor |].
  split; [exact H1 | exact H2].
Qed.

(** ** [clone], [reset_repo_and_submodules] and [update_to] *)

(** X18. [clone] spawns the clone, with [-b] only for a branch that is
    given and not empty and [--recursive] only when asked, and then, with
    [lfs], the LFS install, fetch and pull in the destination;
    [reset_repo_and_submodules] spawns the reset, the clean and the two
    over the submodules. Each spawns its commands in this order, all of
    them when it ends normally and those up to the failing one when it
    raises; without [lfs] a clone is one process at most. *)
Theorem clone_and_reset_run_in_order :
  forall (os : OS) (url dest : str) (branch ssh_key : option str)
         (recursive lfs : bool) (st : state),
    plan_post (clone_plan url dest branch recursive lfs) st
      (clone url dest branch recursive lfs ssh_key st)
    /\ plan_post reset_plan st (reset_repo_and_submodules dest ssh_key st)
    /\ (List.length (clone_plan url dest branch recursive false) = 1)%nat
    /\ clone_plan url dest None false false
       = [[u8 "git"; u8 "clone"; url; dest]]
    /\ clone_plan url dest (Some []) false false
       = [[u8 "git"; u8 "clone"; url; dest]].
Proof.
  intros os url dest branch ssh_key recursive lfs st.
  split; [|split; [|split; [reflexivity | split; reflexivity]]].
  - unfold clone, clone_plan.
    eapply plan_bind; [apply plan_run_git | intros ? ? | reflexivity].
    destruct lfs; [|apply plan_ret].
    eapply plan_bind;
      [apply plan_guarded_git | intros ? ?; apply plan_lfs_pull
      | reflexivity].
  - unfold reset_repo_and_submodules, reset_plan.
    eapply plan_bind;
      [apply plan_guarded_git | intros ? ? | reflexivity].
    eapply plan_bind;
      [apply plan_guarded_git | intros ? ? | reflexivity].
    eapply plan_bind; [apply plan_run_git | intros ? ? | reflexivity].
    apply plan_foreach.
Qed.

Section UpdateFacts.
Context {os : OS}.

Lemma get_current_revision_announced (self : SvnOps) (st st' : state)
    (r : str) :
  get_current_revision self st = (Ok r, st') ->
  announced (st_trace st')
  = announced (st_trace st) ++ [(repo_path self, info_revision)].
Proof.
  intros H. unfold get_current_revision in H.
  apply bind_Ok_inv in H. destruct H as ([[c o] e] & st1 & Hsvn & H).
  inversion H; subst.
  pose proof (svn_announced self info_revision true st) as Hann.
  unfold info_revision in Hann at 1. rewrite Hsvn in Hann. exact Hann.
Qed.

Lemma update_step (self : SvnOps) (target : option str) :
  (if is_head target
   then _svn self [u8 "update"] true
   else _svn self [u8 "update"; u8 "-r"; default_to [] target] true)
  = _svn self (update_args target) true.
Proof. unfold update_args. destruct (is_head target); reflexivity. Qed.

End UpdateFacts.

(** X19. [update_to] keeps the path of the working copy. When the query
    for the current revision fails, the object is as it was. Otherwise
    [before_update_rev] is that revision from then on, also when a later
    step fails; [after_update_rev] changes only when the whole update
    ends normally: after a failure it still holds what it held before
    the call. A normal end announces, last, the update and the query for
    the new revision. The update has no [-r] for a target that is absent
    or spells [HEAD] in any case of the letters; an empty target is not
    taken for [HEAD]. *)
Theorem update_to_records_revisions :
  forall (os : OS) (fuel : nat) (self : SvnOps) (target : option str)
         (st : state),
    let run := update_to fuel self target st in
    let r := fst (fst run) in
    let self' := snd (fst run) in
    let st' := snd run in
    repo_path self' = repo_path self
    /\ ((forall cur, fst (get_current_revision self st) <> Ok cur) ->
        self' = self /\ r <> Ok tt)
    /\ (forall cur st1,
          get_current_revision self st = (Ok cur, st1) ->
          before_update_rev self' = Some cur
          /\ (r <> Ok tt -> after_update_rev self' = after_update_rev self)
          /\ (r = Ok tt ->
              exists a pre,
                after_update_rev self' = Some a
                /\ announced (st_trace st')
                   = pre ++ [(repo_path self, update_args target);
                             (repo_path self, info_revision)]))
    /\ update_args None = [u8 "update"]
    /\ update_args (Some (u8 "head")) = [u8 "update"]
    /\ update_args (Some []) = [u8 "update"; u8 "-r"; []].
Proof.
  intros os fuel self target st run r self' st'.
  subst r self' st' run. unfold update_to.
  destruct (get_current_revision self st) as [[cur|e|] st1] eqn:Ecur.
  - rewrite update_step.
    set (self1 := mkSvnOps (repo_path self) (Some cur)
                    (after_update_rev self)).
    destruct ((ensure_clean_workspace fuel self1 ;;
               _svn self1 (update_args target) true ;;
               get_current_revision self1) st1) as [[r2|e|] st2] eqn:Erest;
      cbn [fst snd repo_path before_update_rev after_update_rev].
    + split; [reflexivity|]. split.
      { intros Hno. exfalso. apply (Hno cur). reflexivity. }
      split; [|split; [reflexivity | split; vm_compute; reflexivity]].
      intros cur' st1' Heq. inversion Heq; subst cur' st1'.
      split; [reflexivity|]. split; [intros Hne; contradiction|].
      intros _.
      apply bind_Ok_inv in Erest. destruct Erest as (u & sA & _ & Erest).
      apply bind_Ok_inv in Erest. destruct Erest as (v & sB & Hup & Hrev).
      pose proof (svn_announced self1 (update_args target) true sA) as Hann.
      rewrite Hup in Hann. cbn [snd] in Hann.
      apply get_current_revision_announced in Hrev.
      exists r2, (announced (st_trace sA)).
      split; [reflexivity|].
      rewrite Hrev, Hann, <- app_assoc. reflexivity.
    + split; [reflexivity|]. split.
      { intros Hno. exfalso. apply (Hno cur). reflexivity. }
      split; [|split; [reflexivity | split; vm_compute; reflexivity]].
      intros cur' st1' Heq. inversion Heq; subst cur' st1'.
      split; [reflexivity|]. split; [reflexivity | discriminate].
    + split; [reflexivity|]. split.
      { intros Hno. exfalso. apply (Hno cur). reflexivity. }
      split; [|split; [reflexivity | split; vm_compute; reflexivity]].
      intros cur' st1' Heq. inversion Heq; subst cur' st1'.
      split; [reflexivity|]. split; [reflexivity | discriminate].
  - cbn [fst snd]. split; [reflexivity|].
    split; [intros _; split; [reflexivity | discriminate]|].
    split; [intros cur st1' Heq; discriminate Heq|].
    split; [reflexivity | split; vm_compute; reflexivity].
  - cbn [fst snd]. split; [reflexivity|].
    split; [intros _; split; [reflexivity | discriminate]|].
    split; [intros cur st1' Heq; discriminate Heq|].
    split; [reflexivity | split; vm_compute; reflexivity].
Qed.

(** ** [svn_cli.py]: the commands check the path first *)

Section CliFacts.
Context {os : OS}.

Lemma build_ops_cases (repo : str) (st : state) :
  (truthy repo && path_isdir repo (st_world st) = true
   /\ build_ops repo st = (Ok (SvnOps_init repo), st))
  \/ (truthy repo && path_isdir repo (st_world st) = false
      /\ exists m, build_ops repo st = (Raise (VCSException m), st)).
Proof.
  unfold build_ops. destruct (truthy repo); cbn [negb andb].
  - rewrite bind_ask. destruct (path_isdir repo (st_world st)); cbn [negb].
    + left. split; reflexivity.
    + right. split; [reflexivity|]. eexists. reflexivity.
  - right. split; [reflexivity|]. eexists. reflexivity.
Qed.

End CliFacts.

(** X20. The commands [info], [switch], [clean] and [summary] of the
    command line check the path of the working copy first: for a path
    that is empty or no directory they raise the exception of [svn_ops]
    before any command runs, and print nothing. [summary] builds a new
    object for every call, one that has recorded no update: without a
    start time it therefore raises in every case, before any [svn]
    command, and [main] exits with status 1. *)
Theorem cli_commands_check_the_path :
  forall (os : OS) (fuel : nat) (repo url : str)
         (revision end_time : option str) (no_ext : bool) (st : state),
    (truthy repo && path_isdir repo (st_world st) = false ->
     exists m,
       cmd_info repo st = (Raise (VCSException m), st)
       /\ cmd_switch fuel repo url revision st = (Raise (VCSException m), st)
       /\ cmd_clean fuel repo st = (Raise (VCSException m), st)
       /\ forall start_time,
            cmd_summary fuel repo start_time end_time no_ext st
            = (Raise (VCSException m), st))
    /\ (exists m,
          cmd_summary fuel repo None end_time no_ext st
          = (Raise (VCSException m), st))
    /\ exit_status (fst (cmd_summary fuel repo None end_time no_ext st))
       = Some 1%Z.
Proof.
  intros os fuel repo url revision end_time no_ext st.
  assert (Hsum : exists m,
             cmd_summary fuel repo None end_time no_ext st
             = (Raise (VCSException m), st)).
  { unfold cmd_summary.
    destruct (build_ops_cases repo st) as [(_ & E)|(_ & m & E)].
    - rewrite (bind_Ok _ _ _ _ _ E). eexists. apply bind_Raise.
      unfold collect_change_summary. apply bind_Raise.
      cbn [SvnOps_init before_update_rev]. reflexivity.
    - exists m. apply bind_Raise. exact E. }
  split; [|split; [exact Hsum|]].
  - intros Hbad.
    destruct (build_ops_cases repo st) as [(Hok & _)|(_ & m & E)];
      [rewrite Hok in Hbad; discriminate Hbad|].
    exists m. repeat split; try intros start_time; apply bind_Raise; exact E.
  - destruct Hsum as (m & ->). reflexivity.
Qed.

Lemma cli_commands_check_the_path_witness :
  let st := initial_state locked_always_os [] in
  truthy (u8 "/wc") && @path_isdir locked_always_os (u8 "/wc") (st_world st)
  = false
  /\ exists m, @cmd_clean locked_always_os 3 (u8 "/wc") st
               = (Raise (VCSException m), st).
Proof.
  intros st.
  assert (H : truthy (u8 "/wc")
              && @path_isdir locked_always_os (u8 "/wc") (st_world st)
              = false) by (vm_compute; reflexivity).
  split; [exact H|].
  destruct (proj1 (cli_commands_check_the_path locked_always_os 3 (u8 "/wc")
                     [] None None false st) H) as (m & _ & _ & Hclean & _).
  exists m. exact Hclean.
Defined.
